(** * Beagle-side HAL: rotary encoder, PWM0 channel and servo

    A shallow embedding of [hal/src/rotary.c], [hal/src/PWM0.c] and
    [hal/src/servo.c], of the loop of [app/src/main.c] that drives them,
    and of the joystick reading and the best-time bookkeeping of the
    reaction timer.

    - C [int] values are integers of [Z]; where a value can leave the
      range of [int] (the atomic add and subtract on [g_pos], the
      arithmetic of [pct_to_ns]) the 32-bit two's-complement wrap-around
      is written out ([wrap32]).
    - C [double] values are binary64 floats ([PrimFloat.float]); [llround]
      and the conversion from [long long] are defined on the IEEE
      representation.
    - The kernel and C library are an interface ([Sys.Platform]): every
      system call of the HAL is one operation on an abstract world, and
      a computation also yields the calls it made, so that statements
      can speak about the writes a function issues.  The GPIO files and
      the thread library under [rotaryEncoder_init] are a second
      interface of the same kind ([RotaryInit.Board]). *)

From Stdlib Require Import ZArith List Bool Lia Ascii Floats.
Import ListNotations.

#[local] Set Warnings "-inexact-float".
#[local] Open Scope Z_scope.

(** ** C integer helpers *)

Definition INT_MIN : Z := - 2 ^ 31.
Definition INT_MAX : Z := 2 ^ 31 - 1.

(** Two's-complement reduction of an integer to a 32-bit [int]. *)
Definition wrap32 (z : Z) : Z := (z + 2 ^ 31) mod 2 ^ 32 - 2 ^ 31.

Definition in_int (z : Z) : Prop := INT_MIN <= z <= INT_MAX.

(** ** rotary.c *)

Module Rotary.

(** [struct timespec]. *)
Record timespec : Type := { tv_sec : Z; tv_nsec : Z }.

(** [sysfs_read_int]: [rd] is what [read(fd, buf, 15)] delivers, [None]
    for a negative return and [Some bytes] for the bytes read. *)
Definition sysfs_read_int (fd : Z) (rd : option (list ascii)) : Z :=
  if fd <? 0 then -1
  else match rd with
       | None => -1
       | Some [] => -1
       | Some (c :: _) => if Ascii.eqb c "0" then 0 else 1
       end.

(** The variables of the module ([g_pos], [g_button_edge]) together with
    the locals of [encoder_thread] that live across loop iterations. *)
Record enc : Type := {
  g_pos : Z;
  g_button_edge : Z;
  last : Z;
  last_sw : Z;
  last_sw_time : timespec
}.

(** What one loop iteration samples: the three [sysfs_read_int] results
    and the value [clock_gettime] would give. *)
Record sample : Type := { s_a : Z; s_b : Z; s_sw : Z; s_now : timespec }.

(** What [atomic_fetch_add(&v, d)] and [atomic_fetch_sub(&v, d)] leave
    in an [atomic_int] that held [v]; atomic arithmetic wraps. *)
Definition atomic_fetch_add (v d : Z) : Z := wrap32 (v + d).
Definition atomic_fetch_sub (v d : Z) : Z := wrap32 (v - d).

(** [(a<<1) | b]. *)
Definition pack (a b : Z) : Z := Z.lor (Z.shiftl a 1) b.

(** [(last<<2) | state]. *)
Definition transition (lst state : Z) : Z := Z.lor (Z.shiftl lst 2) state.

(** The [switch (diff)] of the thread, acting on [g_pos]. *)
Definition decode (diff pos : Z) : Z :=
  match diff with
  | 0x1 | 0x7 | 0xE | 0x8 => atomic_fetch_add pos 1
  | 0x2 | 0x4 | 0xD | 0xB => atomic_fetch_sub pos 1
  | _ => pos
  end.

(** [dt_ms]; the C division truncates toward zero. *)
Definition dt_ms (now prev : timespec) : Z :=
  (tv_sec now - tv_sec prev) * 1000
  + Z.quot (tv_nsec now - tv_nsec prev) 1000000.

(** One iteration of the [while] loop of [encoder_thread]. *)
Definition tick (s : sample) (e : enc) : enc :=
  let state := pack (s_a s) (s_b s) in
  let diff := transition (last e) state in
  let pos := decode diff (g_pos e) in
  let sw := s_sw s in
  if sw =? last_sw e then
    {| g_pos := pos; g_button_edge := g_button_edge e; last := state;
       last_sw := last_sw e; last_sw_time := last_sw_time e |}
  else
    let dt := dt_ms (s_now s) (last_sw_time e) in
    {| g_pos := pos;
       g_button_edge := if (sw =? 1) && (50 <? dt) then 1
                        else g_button_edge e;
       last := state; last_sw := sw; last_sw_time := s_now s |}.

(** The iterations the thread performs while [g_run] stays set, one per
    element of [l]. *)
Definition encoder_loop (l : list sample) (e : enc) : enc :=
  fold_left (fun e s => tick s e) l e.

(** Entry of [encoder_thread], after [rotaryEncoder_init] reset the two
    shared variables: the first reads seed [last] and [last_sw]. *)
Definition encoder_start (a b sw : Z) : enc :=
  {| g_pos := 0; g_button_edge := 0; last := pack a b; last_sw := sw;
     last_sw_time := {| tv_sec := 0; tv_nsec := 0 |} |}.

(** [encoder_thread]: the first reads, then the loop. *)
Definition encoder_thread (a b sw : Z) (l : list sample) : enc :=
  encoder_loop l (encoder_start a b sw).

(** [rotaryEncoder_button_pressed]: [atomic_exchange(&g_button_edge, 0) != 0]. *)
Definition rotaryEncoder_button_pressed (e : enc) : bool * enc :=
  (negb (g_button_edge e =? 0),
   {| g_pos := g_pos e; g_button_edge := 0; last := last e;
      last_sw := last_sw e; last_sw_time := last_sw_time e |}).

Definition rotaryEncoder_get_position (e : enc) : Z := g_pos e.

Definition rotaryEncoder_set_position (v : Z) (e : enc) : enc :=
  {| g_pos := v; g_button_edge := g_button_edge e; last := last e;
     last_sw := last_sw e; last_sw_time := last_sw_time e |}.

(** Interleavings of the polling thread with consumer calls.  The thread
    touches each shared variable with at most one atomic operation per
    iteration and every consumer call is one atomic operation, so an
    execution is a sequence of these events. *)
Inductive event : Type :=
| Tick (s : sample)
| ButtonPressed
| SetPosition (v : Z).

(** Does this iteration execute [atomic_store(&g_button_edge, 1)]? *)
Definition registers (s : sample) (e : enc) : bool :=
  negb (s_sw s =? last_sw e) && (s_sw s =? 1)
  && (50 <? dt_ms (s_now s) (last_sw_time e)).

(** Runs the events; returns what the [ButtonPressed] calls returned, in
    order, the number of iterations that stored the flag, and the final
    state. *)
Fixpoint run (evs : list event) (e : enc) : list bool * nat * enc :=
  match evs with
  | [] => ([], O, e)
  | Tick s :: evs' =>
      let '(outs, n, e') := run evs' (tick s e) in
      (outs, if registers s e then S n else n, e')
  | ButtonPressed :: evs' =>
      let (r, e1) := rotaryEncoder_button_pressed e in
      let '(outs, n, e') := run evs' e1 in
      (r :: outs, n, e')
  | SetPosition v :: evs' => run evs' (rotaryEncoder_set_position v e)
  end.

Definition reports (evs : list event) (e : enc) : nat :=
  count_occ bool_dec (fst (fst (run evs e))) true.

(** The Gray cycle 00 -> 01 -> 11 -> 10 -> 00 and its reverse. *)
Definition fwd_next (st : Z) : Z :=
  match st with 0 => 1 | 1 => 3 | 3 => 2 | _ => 0 end.

Definition rev_next (st : Z) : Z :=
  match st with 0 => 2 | 2 => 3 | 3 => 1 | _ => 0 end.

Definition forward_codes : list Z := [0x1; 0x7; 0xE; 0x8].
Definition reverse_codes : list Z := [0x2; 0x4; 0xD; 0xB].

Definition is_bit (z : Z) : Prop := z = 0 \/ z = 1.

(** The samples of [l] read valid levels and walk the cycle [next] from
    quadrature state [st]. *)
Fixpoint follows (next : Z -> Z) (st : Z) (l : list sample) : Prop :=
  match l with
  | [] => True
  | s :: l' =>
      is_bit (s_a s) /\ is_bit (s_b s) /\ pack (s_a s) (s_b s) = next st
      /\ follows next (next st) l'
  end.

(** The codes that are in neither list. *)
Definition idle_code (d : Z) : bool :=
  negb (existsb (Z.eqb d) forward_codes)
  && negb (existsb (Z.eqb d) reverse_codes).

(** Four iterations around the forward cycle, from a freshly started
    thread that first read 00. *)
Definition one_turn : list sample :=
  let t := {| tv_sec := 1; tv_nsec := 0 |} in
  [ {| s_a := 0; s_b := 1; s_sw := 0; s_now := t |};
    {| s_a := 1; s_b := 1; s_sw := 0; s_now := t |};
    {| s_a := 1; s_b := 0; s_sw := 0; s_now := t |};
    {| s_a := 0; s_b := 0; s_sw := 0; s_now := t |} ].

(** Nanoseconds from [prev] to [now]. *)
Definition elapsed_ns (now prev : timespec) : Z :=
  (tv_sec now - tv_sec prev) * 1000000000 + (tv_nsec now - tv_nsec prev).

(** A [timespec] as [clock_gettime] delivers it. *)
Definition normal (t : timespec) : Prop := 0 <= tv_nsec t < 1000000000.

(** The instant [n] milliseconds after the clock's origin. *)
Definition at_ms (n : Z) : timespec :=
  {| tv_sec := n / 1000; tv_nsec := (n mod 1000) * 1000000 |}.

(** What the thread samples in one iteration, from the three
    descriptors and what [read] delivers on each. *)
Definition poll (fd_a fd_b fd_sw : Z) (ra rb rsw : option (list ascii))
  (now : timespec) : sample :=
  {| s_a := sysfs_read_int fd_a ra; s_b := sysfs_read_int fd_b rb;
     s_sw := sysfs_read_int fd_sw rsw; s_now := now |}.

(** The read of a line fails: bad descriptor, [read] error, or nothing
    read. *)
Definition read_fails (fd : Z) (rd : option (list ascii)) : Prop :=
  fd < 0 \/ rd = None \/ rd = Some [].

Definition is_take (ev : event) : bool :=
  match ev with ButtonPressed => true | _ => false end.

(** The number of iterations of a run that stored the flag. *)
Definition registrations (evs : list event) (e : enc) : nat :=
  snd (fst (run evs e)).

(** File contents of a [value] attribute. *)
Definition low : option (list ascii) := Some ["0"; "010"]%char.
Definition high : option (list ascii) := Some ["1"; "010"]%char.

(** A button scenario on descriptors 3, 4, 5 with the knob at rest:
    press at 1000 ms, release at 1030 ms, press again at 1060 ms. *)
Definition press_1000 : sample := poll 3 4 5 low low high (at_ms 1000).
Definition release_1030 : sample := poll 3 4 5 low low low (at_ms 1030).
Definition press_1060 : sample := poll 3 4 5 low low high (at_ms 1060).

(** Iterations on which one read fails. *)
Definition step_sw_fails : sample := poll 3 4 5 low high None (at_ms 1000).
Definition press_a_fails : sample := poll 3 4 5 None low high (at_ms 1000).
Definition held_sw_fails : sample := poll 3 4 5 low low None (at_ms 2000).
Definition held_2100 : sample := poll 3 4 5 low low high (at_ms 2100).

(** 1 when the flag is set, 0 when it is not. *)
Definition pending (e : enc) : nat :=
  if g_button_edge e =? 0 then 0%nat else 1%nat.

End Rotary.

(** ** The platform under PWM0.c and servo.c *)

Module Sys.

Inductive attr : Type := Enable | Period | DutyCycle | Polarity.

(** The files the HAL touches.  [ChipDir n] is
    [/sys/class/pwm/pwmchip<n>], [PwmDir n m] its [pwm<m>] directory and
    [AttrFile n m a] an attribute below it; [Stray a] is the path
    ["/<attribute>"] that results from an empty base string. *)
Inductive path : Type :=
| ChipDir (chip : Z)
| ExportFile (chip : Z)
| UnexportFile (chip : Z)
| PwmDir (chip channel : Z)
| AttrFile (chip channel : Z) (a : attr)
| Stray (a : attr).

(** Text written to a file: the decimal rendering of an integer, or the
    word [normal]. *)
Inductive payload : Type := Num (v : Z) | Normal.

(** Outcome of [open] followed by [write]: everything written, fewer
    bytes than asked, or failure with an [errno]. *)
Inductive wres : Type := WOk | WShort | WErr (errno : positive).

(** One system call together with its outcome. *)
Inductive call : Type :=
| CStat (p : path) (r : bool)
| CWrite (p : path) (v : payload) (r : wres)
| CRead (p : path) (r : option Z)
| CGlob (r : option (list Z))
| CSleep (ms : Z).

(** The kernel and C library, as the HAL sees them.  [W] is the state of
    the outside world; every call may change it.
    - [sys_stat p]: does [stat(p)] succeed;
    - [sys_write p v]: [open(p, O_WRONLY)], [write], [close];
    - [sys_read p]: [fopen], [fscanf("%lld")], [None] when either fails;
    - [sys_glob]: the chips matching [/sys/class/pwm/pwmchip*], [None]
      when [glob] returns non-zero;
    - [sys_sleep ms]: [nanosleep];
    - [sys_getenv_chip]: [atoi(getenv("PWM0_CHIP"))], [None] when the
      variable is unset or empty;
    - [llround_invalid x]: what [llround] returns where C leaves its
      result unspecified (NaN, infinities, out of range). *)
Class Platform (W : Type) : Type := {
  sys_stat : path -> W -> bool * W;
  sys_write : path -> payload -> W -> wres * W;
  sys_read : path -> W -> option Z * W;
  sys_glob : W -> option (list Z) * W;
  sys_sleep : Z -> W -> W;
  sys_getenv_chip : W -> option Z;
  llround_invalid : float -> Z
}.

(** Computations over the world that also emit the calls they make, in
    the order made. *)
Definition M (W A : Type) : Type := W -> A * W * list call.

Definition ret {W A : Type} (a : A) : M W A := fun w => (a, w, []).

Definition bind {W A B : Type} (m : M W A) (k : A -> M W B) : M W B :=
  fun w =>
    let '(a, w1, t1) := m w in
    let '(b, w2, t2) := k a w1 in
    (b, w2, t1 ++ t2).

Definition result {W A : Type} (r : A * W * list call) : A := fst (fst r).
Definition world {W A : Type} (r : A * W * list call) : W := snd (fst r).
Definition calls {W A : Type} (r : A * W * list call) : list call := snd r.

Declare Scope hal_scope.
Delimit Scope hal_scope with hal.
Notation "x <- m ;; k" := (bind m (fun x => k))
  (at level 61, m at next level, right associativity) : hal_scope.
Notation "m ;; k" := (bind m (fun _ => k))
  (at level 61, right associativity) : hal_scope.

Section Calls.
Context {W : Type} {P : Platform W}.

Definition stat (p : path) : M W bool :=
  fun w => let (r, w') := sys_stat p w in (r, w', [CStat p r]).

Definition write (p : path) (v : payload) : M W wres :=
  fun w => let (r, w') := sys_write p v w in (r, w', [CWrite p v r]).

Definition read (p : path) : M W (option Z) :=
  fun w => let (r, w') := sys_read p w in (r, w', [CRead p r]).

Definition glob : M W (option (list Z)) :=
  fun w => let (r, w') := sys_glob w in (r, w', [CGlob r]).

Definition sleep (ms : Z) : M W unit :=
  fun w => (tt, sys_sleep ms w, [CSleep ms]).

Definition getenv_chip : M W (option Z) :=
  fun w => (sys_getenv_chip w, w, []).

(** [m * 2^e] rounded to the nearest integer, halves away from zero. *)
Definition round_half_away (m : positive) (e : Z) : Z :=
  if 0 <=? e then Z.pos m * 2 ^ e
  else
    let d := 2 ^ (- e) in
    let q := Z.pos m / d in
    if d <=? 2 * (Z.pos m mod d) then q + 1 else q.

Definition LLONG_MIN : Z := - 2 ^ 63.
Definition LLONG_MAX : Z := 2 ^ 63 - 1.

(** [llround] of libm. *)
Definition llround (x : float) : Z :=
  match Prim2SF x with
  | S754_zero _ => 0
  | S754_finite s m e =>
      let v := round_half_away m e in
      let v := if s then - v else v in
      if (LLONG_MIN <=? v) && (v <=? LLONG_MAX) then v else llround_invalid x
  | _ => llround_invalid x
  end.

End Calls.

(** The conversion [(double)v] of a [long long], to nearest-even. *)
Definition double_of_ll (v : Z) : float :=
  SF2Prim (binary_normalize prec emax v 0 false).

Definition attr_eqb (a b : attr) : bool :=
  match a, b with
  | Enable, Enable | Period, Period | DutyCycle, DutyCycle
  | Polarity, Polarity => true
  | _, _ => false
  end.

(** The values the hardware accepted for attribute [a], in order. *)
Fixpoint accepted (a : attr) (t : list call) : list Z :=
  match t with
  | [] => []
  | CWrite (AttrFile _ _ b) (Num v) WOk :: t' =>
      if attr_eqb a b then v :: accepted a t' else accepted a t'
  | _ :: t' => accepted a t'
  end.

(** The value of attribute [a] the hardware accepted last. *)
Definition committed (a : attr) (t : list call) : option Z :=
  last (map Some (accepted a t)) None.

(** No attribute of any channel is written. *)
Definition no_attr_write (c : call) : Prop :=
  match c with
  | CWrite (AttrFile _ _ _) _ _ => False
  | _ => True
  end.

(** Every check for a [pwm<m>] directory was answered with no. *)
Definition pwm_dir_unseen (c : call) : Prop :=
  match c with
  | CStat (PwmDir _ _) true => False
  | _ => True
  end.

(** Total time slept, in milliseconds. *)
Fixpoint slept (t : list call) : Z :=
  match t with
  | [] => 0
  | CSleep ms :: t' => ms + slept t'
  | _ :: t' => slept t'
  end.

End Sys.

(** ** PWM0.c

    Paths are built with [path_join2], which fails only when a name does
    not fit [PATH_MAX]; sysfs names are far shorter, and the embedding
    takes every join to succeed. *)

Module PWM0.
Import Sys.
#[local] Open Scope hal_scope.

(** [g_pwm_dir] (here the chip whose [pwm0] was chosen, [None] for the
    empty string), [g_period_ns] and [g_duty_frac]. *)
Record globals : Type := {
  g_pwm_dir : option Z;
  g_period_ns : Z;
  g_duty_frac : float
}.

(** The values of the static initialisers. *)
Definition startup : globals :=
  {| g_pwm_dir := None; g_period_ns := 0; g_duty_frac := 0.50%float |}.

Definition set_cache (g : globals) (per : Z) (frac : float) : globals :=
  {| g_pwm_dir := g_pwm_dir g; g_period_ns := per; g_duty_frac := frac |}.

Section Code.
Context {W : Type} {P : Platform W}.

Definition write_str (p : path) (s : payload) : M W Z :=
  r <- write p s ;;
  ret (match r with WOk => 0 | _ => -1 end).

Definition write_ll (p : path) (v : Z) : M W Z := write_str p (Num v).

Definition msleep (ms : Z) : M W unit := sleep ms.

Definition path_exists (p : path) : M W bool := stat p.

Definition read_ll (p : path) : M W Z :=
  r <- read p ;;
  ret (match r with Some v => v | None => -1 end).

(** The two guards of [bounded_dc_from_ratio] on the ratio. *)
Definition clamp_ratio (ratio : float) : float :=
  let ratio := if PrimFloat.ltb ratio 0.05 then 0.05%float else ratio in
  if PrimFloat.ltb 0.95 ratio then 0.95%float else ratio.

(** The two guards of [bounded_dc_from_ratio] on the duty value. *)
Definition off_rails (per dc : Z) : Z :=
  let dc := if dc <=? 0 then 1 else dc in
  if per <=? dc then per - 1 else dc.

Definition bounded_dc_from_ratio (ratio : float) (per : Z) : Z :=
  let ratio := clamp_ratio ratio in
  let dc := llround (PrimFloat.mul ratio (double_of_ll per)) in
  off_rails per dc.

(** [for (t = 0; t < 50 && !path_exists(pwm0); ++t) msleep(10);] with
    [n] iterations left. *)
Fixpoint await_pwm0 (n : nat) (chip : Z) : M W unit :=
  match n with
  | O => ret tt
  | S n' =>
      ex <- path_exists (PwmDir chip 0) ;;
      if ex then ret tt else (msleep 10 ;; await_pwm0 n' chip)
  end.

(** [path_exists(enable) && path_exists(period) && path_exists(duty)]. *)
Definition attrs_exist (chip : Z) : M W bool :=
  e <- path_exists (AttrFile chip 0 Enable) ;;
  if negb e then ret false
  else
    p <- path_exists (AttrFile chip 0 Period) ;;
    if negb p then ret false
    else path_exists (AttrFile chip 0 DutyCycle).

(** The [for] loop of [probe_find_pwm] over the chips [glob] found. *)
Fixpoint probe_chips (chips : list Z) (g : globals) : M W (Z * globals) :=
  match chips with
  | [] => ret (-1, g)
  | chip :: rest =>
      ex <- path_exists (PwmDir chip 0) ;;
      (if ex then ret tt
       else (write_str (ExportFile chip) (Num 0) ;; await_pwm0 50 chip)) ;;
      ex' <- path_exists (PwmDir chip 0) ;;
      if negb ex' then probe_chips rest g
      else
        ok <- attrs_exist chip ;;
        if ok then
          ret (0, {| g_pwm_dir := Some chip;
                     g_period_ns := g_period_ns g;
                     g_duty_frac := g_duty_frac g |})
        else probe_chips rest g
  end.

Definition probe_find_pwm (g : globals) : M W (Z * globals) :=
  match g_pwm_dir g with
  | Some _ => ret (0, g)
  | None =>
      r <- glob ;;
      match r with
      | None => ret (-1, g)
      | Some chips => probe_chips chips g
      end
  end.

(** The retry loop of [PWM0_init] with [n] attempts left. *)
Fixpoint bring_up (n : nat) (chip per_ns dty_ns : Z) (g : globals)
  : M W (Z * globals) :=
  match n with
  | O => ret (-1, g)
  | S n' =>
      write_ll (AttrFile chip 0 Enable) 0 ;;
      msleep 2 ;;
      write_ll (AttrFile chip 0 DutyCycle) 1 ;;
      msleep 1 ;;
      rp <- write_ll (AttrFile chip 0 Period) per_ns ;;
      if negb (rp =? 0) then (msleep 2 ;; bring_up n' chip per_ns dty_ns g)
      else
        rd <- write_ll (AttrFile chip 0 DutyCycle) dty_ns ;;
        if negb (rd =? 0) then (msleep 2 ;; bring_up n' chip per_ns dty_ns g)
        else
          re <- write_ll (AttrFile chip 0 Enable) 1 ;;
          if negb (re =? 0) then
            (msleep 2 ;; bring_up n' chip per_ns dty_ns g)
          else
            ret (0, set_cache g per_ns
                      (PrimFloat.div (double_of_ll dty_ns)
                                     (double_of_ll per_ns)))
  end.

(** The period [PWM0_init] and [PWM0_set_freq] derive from a frequency. *)
Definition period_of_hz (hz : float) : Z :=
  let per_ns := llround (PrimFloat.div 1e9 hz) in
  if per_ns <? 1 then 1 else per_ns.

(** The guard on the [hz] argument of [PWM0_init]. *)
Definition init_hz (hz : float) : float :=
  if PrimFloat.leb hz 0 then 100%float else hz.

(** The two guards on the [duty] argument of [PWM0_init]. *)
Definition init_duty (duty : float) : float :=
  let duty := if PrimFloat.ltb duty 0.05 then 0.50%float else duty in
  if PrimFloat.ltb 0.95 duty then 0.50%float else duty.

Definition PWM0_init (hz duty : float) (g : globals) : M W (Z * globals) :=
  pr <- probe_find_pwm g ;;
  let (rc, g) := pr in
  if negb (rc =? 0) then ret (-1, g)
  else
    match g_pwm_dir g with
    | None => ret (-1, g)
    | Some chip =>
        let hz := init_hz hz in
        let duty := init_duty duty in
        let per_ns := period_of_hz hz in
        let dty_ns := bounded_dc_from_ratio duty per_ns in
        bring_up 3 chip per_ns dty_ns g
    end.

(** The fallback loop of [PWM0_set_freq] with [n] attempts left. *)
Fixpoint freq_fallback (n : nat) (chip new_per new_dty : Z) (g : globals)
  : M W (Z * globals) :=
  match n with
  | O => ret (-1, g)
  | S n' =>
      write_ll (AttrFile chip 0 Enable) 0 ;;
      msleep 1 ;;
      write_ll (AttrFile chip 0 DutyCycle) 1 ;;
      rp <- write_ll (AttrFile chip 0 Period) new_per ;;
      rd <- (if rp =? 0 then write_ll (AttrFile chip 0 DutyCycle) new_dty
             else ret (-1)) ;;
      if (rp =? 0) && (rd =? 0) then
        re <- write_ll (AttrFile chip 0 Enable) 1 ;;
        if negb (re =? 0) then freq_fallback n' chip new_per new_dty g
        else
          msleep 1 ;;
          ret (0, set_cache g new_per
                    (PrimFloat.div (double_of_ll new_dty)
                                   (double_of_ll new_per)))
      else
        msleep 1 ;;
        write_ll (AttrFile chip 0 Enable) 1 ;;
        msleep 1 ;;
        freq_fallback n' chip new_per new_dty g
  end.

(** Fast path A of [PWM0_set_freq]: period, then duty, in place. *)
Definition fast_path_a (chip new_per new_dty : Z) : M W bool :=
  ra <- write_ll (AttrFile chip 0 Period) new_per ;;
  if ra =? 0 then
    rb <- write_ll (AttrFile chip 0 DutyCycle) new_dty ;;
    ret (rb =? 0)
  else ret false.

(** Fast path B of [PWM0_set_freq]: tiny duty, period, target duty. *)
Definition fast_path_b (chip new_per new_dty : Z) : M W bool :=
  r1 <- write_ll (AttrFile chip 0 DutyCycle) 1 ;;
  if r1 =? 0 then
    rp <- write_ll (AttrFile chip 0 Period) new_per ;;
    if rp =? 0 then
      rd <- write_ll (AttrFile chip 0 DutyCycle) new_dty ;;
      ret (rd =? 0)
    else ret false
  else ret false.

Definition PWM0_set_freq (hz : float) (g : globals) : M W (Z * globals) :=
  match g_pwm_dir g with
  | None => ret (-1, g)
  | Some chip =>
      if PrimFloat.leb hz 0 then ret (-1, g)
      else
        let new_per := period_of_hz hz in
        let ratio := g_duty_frac g in
        let new_dty := bounded_dc_from_ratio ratio new_per in
        let g' := set_cache g new_per
                    (PrimFloat.div (double_of_ll new_dty)
                                   (double_of_ll new_per)) in
        was_enabled <- read_ll (AttrFile chip 0 Enable) ;;
        (if was_enabled =? 0 then
           (write_ll (AttrFile chip 0 Enable) 1 ;; msleep 2)
         else ret tt) ;;
        a <- fast_path_a chip new_per new_dty ;;
        if a then ret (0, g')
        else
          b <- fast_path_b chip new_per new_dty ;;
          if b then ret (0, g')
          else freq_fallback 2 chip new_per new_dty g
  end.

(** The fallback branch of [PWM0_set_duty], entered when the direct
    write of [dc] was rejected. *)
Definition duty_fallback (chip dc : Z) (g : globals) : M W (Z * globals) :=
  was_enabled <- read_ll (AttrFile chip 0 Enable) ;;
  let was_enabled := if was_enabled <? 0 then 1 else was_enabled in
  write_ll (AttrFile chip 0 Enable) 0 ;;
  msleep 1 ;;
  write_ll (AttrFile chip 0 DutyCycle) 1 ;;
  r <- write_ll (AttrFile chip 0 DutyCycle) dc ;;
  (if negb (was_enabled =? 0) then
     (write_ll (AttrFile chip 0 Enable) 1 ;; ret tt)
   else ret tt) ;;
  if r =? 0 then ret (0, g) else ret (-1, g).

(** The part of [PWM0_set_duty] after the period is known. *)
Definition set_duty_store (chip : Z) (duty : float) (g : globals)
  : M W (Z * globals) :=
  let g := set_cache g (g_period_ns g) duty in
  let dc := bounded_dc_from_ratio (g_duty_frac g) (g_period_ns g) in
  r <- write_ll (AttrFile chip 0 DutyCycle) dc ;;
  if negb (r =? 0) then duty_fallback chip dc g else ret (0, g).

(** The first block of [PWM0_set_duty]: the period to work with, the
    cached one when positive and else the one read back; [None] when
    that is not positive either. *)
Definition known_period (chip : Z) (g : globals) : M W (option Z) :=
  if g_period_ns g <=? 0 then
    p <- read_ll (AttrFile chip 0 Period) ;;
    ret (if p <=? 0 then None else Some p)
  else ret (Some (g_period_ns g)).

Definition PWM0_set_duty (duty : float) (g : globals) : M W (Z * globals) :=
  match g_pwm_dir g with
  | None => ret (-1, g)
  | Some chip =>
      p <- known_period chip g ;;
      match p with
      | None => ret (-1, g)
      | Some per =>
          set_duty_store chip duty (set_cache g per (g_duty_frac g))
      end
  end.

Definition PWM0_cleanup (g : globals) : M W unit :=
  match g_pwm_dir g with
  | None => ret tt
  | Some chip => (write_str (AttrFile chip 0 Enable) (Num 0) ;; ret tt)
  end.

End Code.

(** The calls of one pass through the retry loop of [PWM0_init] that
    ends in [continue]: the period, the duty or the enable write was not
    accepted.  The outcomes of the first two writes are ignored. *)
Inductive failed_attempt (chip per_ns dty_ns : Z) : list call -> Prop :=
| failed_period (r1 r2 r3 : wres) :
    r3 <> WOk ->
    failed_attempt chip per_ns dty_ns
      [CWrite (AttrFile chip 0 Enable) (Num 0) r1; CSleep 2;
       CWrite (AttrFile chip 0 DutyCycle) (Num 1) r2; CSleep 1;
       CWrite (AttrFile chip 0 Period) (Num per_ns) r3; CSleep 2]
| failed_duty (r1 r2 r4 : wres) :
    r4 <> WOk ->
    failed_attempt chip per_ns dty_ns
      [CWrite (AttrFile chip 0 Enable) (Num 0) r1; CSleep 2;
       CWrite (AttrFile chip 0 DutyCycle) (Num 1) r2; CSleep 1;
       CWrite (AttrFile chip 0 Period) (Num per_ns) WOk;
       CWrite (AttrFile chip 0 DutyCycle) (Num dty_ns) r4; CSleep 2]
| failed_enable (r1 r2 r5 : wres) :
    r5 <> WOk ->
    failed_attempt chip per_ns dty_ns
      [CWrite (AttrFile chip 0 Enable) (Num 0) r1; CSleep 2;
       CWrite (AttrFile chip 0 DutyCycle) (Num 1) r2; CSleep 1;
       CWrite (AttrFile chip 0 Period) (Num per_ns) WOk;
       CWrite (AttrFile chip 0 DutyCycle) (Num dty_ns) WOk;
       CWrite (AttrFile chip 0 Enable) (Num 1) r5; CSleep 2].

(** The calls of the pass that succeeds. *)
Inductive good_attempt (chip per_ns dty_ns : Z) : list call -> Prop :=
| good_steps (r1 r2 : wres) :
    good_attempt chip per_ns dty_ns
      [CWrite (AttrFile chip 0 Enable) (Num 0) r1; CSleep 2;
       CWrite (AttrFile chip 0 DutyCycle) (Num 1) r2; CSleep 1;
       CWrite (AttrFile chip 0 Period) (Num per_ns) WOk;
       CWrite (AttrFile chip 0 DutyCycle) (Num dty_ns) WOk;
       CWrite (AttrFile chip 0 Enable) (Num 1) WOk].

(** The calls of [n] rounds of the wait loop during which [pwm0] does
    not appear. *)
Fixpoint waiting (n : nat) (chip : Z) : list call :=
  match n with
  | O => []
  | S n' => CStat (PwmDir chip 0) false :: CSleep 10 :: waiting n' chip
  end.

(** The calls [probe_chips] makes over chips whose [pwm0] never
    appears: per chip one check, the export request, fifty checks 10 ms
    apart and a last check. *)
Inductive absent_trace : list Z -> list call -> Prop :=
| absent_nil : absent_trace [] []
| absent_cons (chip : Z) (r : wres) (rest : list Z) (t : list call) :
    absent_trace rest t ->
    absent_trace (chip :: rest)
      (CStat (PwmDir chip 0) false
       :: CWrite (ExportFile chip) (Num 0) r
       :: waiting 50 chip ++ CStat (PwmDir chip 0) false :: t).

(** What the retry loop with [n] passes left can do from globals [g]:
    succeed after fewer than [n] failed passes, caching period and
    ratio, or fail after exactly [n] failed passes, caching nothing. *)
Definition bring_up_outcome (chip per_ns dty_ns : Z) (n : nat) (g : globals)
  (rc : Z) (g' : globals) (t : list call) : Prop :=
  (rc = 0
   /\ g' = set_cache g per_ns
             (PrimFloat.div (double_of_ll dty_ns) (double_of_ll per_ns))
   /\ exists fs a,
        t = concat fs ++ a
        /\ Forall (failed_attempt chip per_ns dty_ns) fs
        /\ (List.length fs < n)%nat
        /\ good_attempt chip per_ns dty_ns a)
  \/ (rc = -1
      /\ g' = g
      /\ exists fs,
           t = concat fs
           /\ Forall (failed_attempt chip per_ns dty_ns) fs
           /\ List.length fs = n).

(** The calls of [PWM0_set_duty] once the period is known, with the
    value returned: the direct write alone when it is accepted;
    otherwise the fallback, which reads [enable], disables, primes the
    duty with 1 ns, writes the target again and, unless [enable] read 0,
    writes [enable] 1. *)
Inductive set_duty_calls (chip dc : Z) : Z -> list call -> Prop :=
| duty_direct :
    set_duty_calls chip dc 0
      [CWrite (AttrFile chip 0 DutyCycle) (Num dc) WOk]
| duty_fallback_on (rr r0 r1 r2 r3 : wres) (en : option Z) :
    rr <> WOk -> en <> Some 0 ->
    set_duty_calls chip dc (match r2 with WOk => 0 | _ => -1 end)
      [CWrite (AttrFile chip 0 DutyCycle) (Num dc) rr;
       CRead (AttrFile chip 0 Enable) en;
       CWrite (AttrFile chip 0 Enable) (Num 0) r0; CSleep 1;
       CWrite (AttrFile chip 0 DutyCycle) (Num 1) r1;
       CWrite (AttrFile chip 0 DutyCycle) (Num dc) r2;
       CWrite (AttrFile chip 0 Enable) (Num 1) r3]
| duty_fallback_off (rr r0 r1 r2 : wres) :
    rr <> WOk ->
    set_duty_calls chip dc (match r2 with WOk => 0 | _ => -1 end)
      [CWrite (AttrFile chip 0 DutyCycle) (Num dc) rr;
       CRead (AttrFile chip 0 Enable) (Some 0);
       CWrite (AttrFile chip 0 Enable) (Num 0) r0; CSleep 1;
       CWrite (AttrFile chip 0 DutyCycle) (Num 1) r1;
       CWrite (AttrFile chip 0 DutyCycle) (Num dc) r2].

(** A call that, if it writes a duty, writes one of [vs]. *)
Definition duty_among (vs : list Z) (c : call) : Prop :=
  match c with
  | CWrite (AttrFile _ _ DutyCycle) (Num v) _ => In v vs
  | _ => True
  end.

(** What [PWM0_set_freq] can do from globals [g]: every duty it writes
    is 1 ns or the target; it either succeeds, caching the new period and
    ratio, with the target the last duty accepted, or fails and caches
    nothing. *)
Definition freq_outcome (per dty : Z) (g : globals) (rc : Z) (g' : globals)
  (t : list call) : Prop :=
  Forall (duty_among [1; dty]) t
  /\ ((rc = 0
       /\ g' = set_cache g per
                 (PrimFloat.div (double_of_ll dty) (double_of_ll per))
       /\ exists l, accepted DutyCycle t = l ++ [dty])
      \/ (rc = -1 /\ g' = g)).

End PWM0.

(** ** servo.c

    [int] arithmetic is written with [wrap32]; where C leaves signed
    overflow undefined this is the value two's-complement hardware
    produces. *)

Module Servo.
Import Sys.
#[local] Open Scope hal_scope.

Definition ENOENT : Z := 2.
Definition EIO : Z := 5.
Definition EBUSY : Z := 16.
Definition EINVAL : Z := 22.

(** [struct Servo]; [base] is the pair the string
    [/sys/class/pwm/pwmchip<chip>/pwm<channel>] was printed from, [None]
    while the string is empty. *)
Record Servo : Type := {
  chip : Z;
  channel : Z;
  period_ns : Z;
  neutral_ns : Z;
  min_ns : Z;
  max_ns : Z;
  base : option (Z * Z);
  enabled : bool
}.

Definition attr_path (b : option (Z * Z)) (a : attr) : path :=
  match b with
  | Some (c, ch) => AttrFile c ch a
  | None => Stray a
  end.

Definition clamp (v lo hi : Z) : Z :=
  if v <? lo then lo else if hi <? v then hi else v.

Definition pct_to_ns (s : Servo) (pct dir : Z) : Z :=
  let pct := clamp pct 0 100 in
  let span := wrap32 (max_ns s - neutral_ns s) in
  let span := if span <? 0 then wrap32 (- span) else span in
  let delta := Z.quot (wrap32 (span * pct)) 100 in
  if 0 <=? dir then wrap32 (neutral_ns s + delta)
  else wrap32 (neutral_ns s - delta).

Section Code.
Context {W : Type} {P : Platform W}.

(** Returns [-errno] when [open] or [write] fails, 0 otherwise. *)
Definition write_str (p : path) (v : payload) : M W Z :=
  r <- write p v ;;
  ret (match r with WErr e => - Z.pos e | _ => 0 end).

Definition write_int (p : path) (v : Z) : M W Z := write_str p (Num v).

Definition exists_ (p : path) : M W bool := stat p.

(** The wait loop of [export_pwm] with [n] iterations left. *)
Fixpoint await_pwm (n : nat) (p : path) : M W unit :=
  match n with
  | O => ret tt
  | S n' =>
      ex <- exists_ p ;;
      if ex then ret tt else (sleep 20 ;; await_pwm n' p)
  end.

Definition export_pwm (chip channel : Z) : M W Z :=
  c <- exists_ (ChipDir chip) ;;
  if negb c then ret (- ENOENT)
  else
    e <- exists_ (PwmDir chip channel) ;;
    if e then ret 0
    else
      rc <- write_int (ExportFile chip) channel ;;
      if rc =? - EBUSY then ret 0
      else
        await_pwm 50 (PwmDir chip channel) ;;
        e' <- exists_ (PwmDir chip channel) ;;
        ret (if e' then 0 else rc).

Definition servo_init (chip channel period_ns neutral_ns min_ns max_ns : Z)
  : M W (Z * Servo) :=
  env <- getenv_chip ;;
  let chip := if chip <? 0
              then match env with Some c => c | None => 0 end
              else chip in
  let s := {| chip := chip; channel := channel; period_ns := period_ns;
              neutral_ns := neutral_ns; min_ns := min_ns; max_ns := max_ns;
              base := None; enabled := false |} in
  rc <- export_pwm chip channel ;;
  if negb (rc =? 0) then ret (rc, s)
  else
    let b := Some (chip, channel) in
    let s := {| chip := chip; channel := channel; period_ns := period_ns;
                neutral_ns := neutral_ns; min_ns := min_ns;
                max_ns := max_ns; base := b; enabled := false |} in
    write_int (attr_path b Enable) 0 ;;
    write_int (attr_path b DutyCycle) 1 ;;
    pol <- exists_ (attr_path b Polarity) ;;
    (if pol then (write_str (attr_path b Polarity) Normal ;; ret tt)
     else ret tt) ;;
    rp <- write_int (attr_path b Period) period_ns ;;
    if negb (rp =? 0) then ret (rp, s)
    else
      rd <- write_int (attr_path b DutyCycle) neutral_ns ;;
      if negb (rd =? 0) then ret (rd, s)
      else
        re <- write_int (attr_path b Enable) 1 ;;
        if negb (re =? 0) then ret (re, s)
        else
          ret (0, {| chip := chip; channel := channel;
                     period_ns := period_ns; neutral_ns := neutral_ns;
                     min_ns := min_ns; max_ns := max_ns; base := b;
                     enabled := true |}).

Definition servo_set_pulse_ns (s : Servo) (duty_ns : Z) : M W Z :=
  if negb (enabled s) then ret (- EIO)
  else
    let duty_ns := clamp duty_ns (min_ns s) (max_ns s) in
    write_int (attr_path (base s) DutyCycle) duty_ns.

Definition servo_right (s : Servo) (speed_pct : Z) : M W Z :=
  servo_set_pulse_ns s (pct_to_ns s speed_pct 1).

Definition servo_left (s : Servo) (speed_pct : Z) : M W Z :=
  servo_set_pulse_ns s (pct_to_ns s speed_pct (-1)).

Definition servo_stop (s : Servo) : M W Z :=
  servo_set_pulse_ns s (neutral_ns s).

Definition servo_close (s : Servo) : M W (Z * Servo) :=
  write_int (attr_path (base s) Enable) 0 ;;
  write_int (UnexportFile (chip s)) (channel s) ;;
  ret (0, {| chip := chip s; channel := channel s;
             period_ns := period_ns s; neutral_ns := neutral_ns s;
             min_ns := min_ns s; max_ns := max_ns s; base := base s;
             enabled := false |}).

End Code.
End Servo.

(** ** A scripted board

    A world for running the code on concrete inputs: one PWM channel
    whose three registers hold what was last accepted, with the answers
    of the next [stat] calls and the outcomes of the next writes
    prepared in queues.  Once a queue is empty every path exists and
    every write is accepted.  Attributes read back their register, or
    cannot be read at all when [readable] is off. *)

Module Script.
Import Sys.

Record world : Type := {
  stats : list bool;
  write_results : list wres;
  readable : bool;
  reg_enable : Z;
  reg_period : Z;
  reg_duty : Z;
  found : option (list Z);
  env_chip : option Z
}.

Definition pop {A : Type} (d : A) (l : list A) : A * list A :=
  match l with
  | [] => (d, [])
  | x :: l' => (x, l')
  end.

Definition after_stat (w : world) (q : list bool) : world :=
  {| stats := q; write_results := write_results w; readable := readable w;
     reg_enable := reg_enable w; reg_period := reg_period w;
     reg_duty := reg_duty w; found := found w; env_chip := env_chip w |}.

Definition after_write (w : world) (q : list wres) (en per du : Z) : world :=
  {| stats := stats w; write_results := q; readable := readable w;
     reg_enable := en; reg_period := per; reg_duty := du;
     found := found w; env_chip := env_chip w |}.

Definition do_write (p : path) (v : payload) (w : world) : wres * world :=
  let (r, q) := pop WOk (write_results w) in
  match r, p, v with
  | WOk, AttrFile _ _ Enable, Num n =>
      (r, after_write w q n (reg_period w) (reg_duty w))
  | WOk, AttrFile _ _ Period, Num n =>
      (r, after_write w q (reg_enable w) n (reg_duty w))
  | WOk, AttrFile _ _ DutyCycle, Num n =>
      (r, after_write w q (reg_enable w) (reg_period w) n)
  | _, _, _ =>
      (r, after_write w q (reg_enable w) (reg_period w) (reg_duty w))
  end.

Definition do_read (p : path) (w : world) : option Z * world :=
  (if readable w then
     match p with
     | AttrFile _ _ Enable => Some (reg_enable w)
     | AttrFile _ _ Period => Some (reg_period w)
     | AttrFile _ _ DutyCycle => Some (reg_duty w)
     | _ => None
     end
   else None, w).

#[global] Instance platform : Platform world := {
  sys_stat _ w := let (r, q) := pop true (stats w) in (r, after_stat w q);
  sys_write := do_write;
  sys_read := do_read;
  sys_glob w := (found w, w);
  sys_sleep _ w := w;
  sys_getenv_chip w := env_chip w;
  llround_invalid _ := LLONG_MIN
}.

(** A board with one chip, its channel disabled and unprogrammed, on
    which every call succeeds. *)
Definition healthy : world :=
  {| stats := []; write_results := []; readable := true;
     reg_enable := 0; reg_period := 0; reg_duty := 0;
     found := Some [0]; env_chip := None |}.

(** The same board with prepared outcomes for the next writes. *)
Definition with_writes (l : list wres) : world :=
  {| stats := []; write_results := l; readable := true;
     reg_enable := 0; reg_period := 0; reg_duty := 0;
     found := Some [0]; env_chip := None |}.

(** A board whose [pwm0] directories do not appear. *)
Definition absent (chips : list Z) : world :=
  {| stats := repeat false (52 * List.length chips); write_results := [];
     readable := true; reg_enable := 0; reg_period := 0; reg_duty := 0;
     found := Some chips; env_chip := None |}.

(** A disabled channel whose attributes cannot be read and which
    rejects the next write. *)
Definition unreadable_disabled : world :=
  {| stats := []; write_results := [WErr 22]; readable := false;
     reg_enable := 0; reg_period := 20000000; reg_duty := 1000000;
     found := Some [0]; env_chip := None |}.

(** A board whose attributes cannot be read but which accepts every
    write. *)
Definition unreadable : world :=
  {| stats := []; write_results := []; readable := false;
     reg_enable := 0; reg_period := 20000000; reg_duty := 1000000;
     found := Some [0]; env_chip := None |}.

(** The module state after opening the channel at 50 Hz, after opening
    it at 1 GHz, and after a probe whose bring-up then failed. *)
Definition opened_50hz : PWM0.globals :=
  snd (result (PWM0.PWM0_init 50 0.5 PWM0.startup healthy)).

Definition opened_1ghz : PWM0.globals :=
  snd (result (PWM0.PWM0_init 1e9 0.5 PWM0.startup healthy)).

Definition probed_only : PWM0.globals :=
  snd (result (PWM0.PWM0_init 50 0.5 PWM0.startup
                 (with_writes
                    [WOk; WOk; WErr 22; WOk; WOk; WErr 22;
                     WOk; WOk; WErr 22]))).

(** The servo of [main.c] (period 20 ms, neutral 1.6 ms, band 1.2 ms to
    2.0 ms) and one whose band is not centred on neutral, both as
    [servo_init] leaves them on the healthy board. *)
Definition main_servo : Servo.Servo :=
  snd (result (Servo.servo_init (-1) 0 20000000 1600000 1200000 2000000
                 healthy)).

Definition skewed_servo : Servo.Servo :=
  snd (result (Servo.servo_init (-1) 0 20000000 1500000 1000000 1700000
                 healthy)).

End Script.

(** ** Calls into PWM0.c, one after another *)

Module Pwm0Api.
Import Sys PWM0.
#[local] Open Scope hal_scope.

(** The entry points of PWM0.h. *)
Inductive op : Type :=
| Init (hz duty : float)
| SetFreq (hz : float)
| SetDuty (duty : float)
| Cleanup.

Section Code.
Context {W : Type} {P : Platform W}.

(** One call from the application; [PWM0_cleanup] returns nothing, which
    is recorded as 0. *)
Definition api_call (o : op) (g : globals) : M W (Z * globals) :=
  match o with
  | Init hz duty => PWM0_init hz duty g
  | SetFreq hz => PWM0_set_freq hz g
  | SetDuty duty => PWM0_set_duty duty g
  | Cleanup => PWM0_cleanup g ;; ret (0, g)
  end.

(** A sequence of calls, each starting from the globals the one before
    left; the values returned, and the globals at the end. *)
Fixpoint run_ops (ops : list op) (g : globals) : M W (list Z * globals) :=
  match ops with
  | [] => ret ([], g)
  | o :: rest =>
      r <- api_call o g ;;
      rr <- run_ops rest (snd r) ;;
      ret (fst r :: fst rr, snd rr)
  end.

End Code.

(** A call that switches the output off. *)
Definition disables (c : call) : Prop :=
  match c with
  | CWrite (AttrFile _ _ Enable) (Num 0) _ => True
  | _ => False
  end.

(** A write of the period or of the duty that was not accepted. *)
Definition rejected (c : call) : Prop :=
  match c with
  | CWrite (AttrFile _ _ Period) _ r
  | CWrite (AttrFile _ _ DutyCycle) _ r => r <> WOk
  | _ => False
  end.

(** A call that, if it reads or writes an attribute, does so on channel
    0 of the chip [d]; with [d = None] it touches no attribute. *)
Definition on_channel (d : option Z) (c : call) : Prop :=
  match c with
  | CWrite (AttrFile n m _) _ _ | CRead (AttrFile n m _) _ =>
      d = Some n /\ m = 0
  | CWrite (Stray _) _ _ | CRead (Stray _) _ => False
  | _ => True
  end.

(** What the cached period and channel always satisfy. *)
Definition consistent (g : globals) : Prop :=
  0 <= g_period_ns g /\ (0 < g_period_ns g -> g_pwm_dir g <> None).

(** The calls with which [PWM0_set_freq] starts: it reads [enable] and,
    when that reads 0, writes 1 and sleeps 2 ms. *)
Inductive wake (chip : Z) : list call -> Prop :=
| wake_on (en : option Z) :
    en <> Some 0 -> wake chip [CRead (AttrFile chip 0 Enable) en]
| wake_off (r : wres) :
    wake chip
      [CRead (AttrFile chip 0 Enable) (Some 0);
       CWrite (AttrFile chip 0 Enable) (Num 1) r; CSleep 2].

(** Fast path A: the period, then the duty; [true] when both were
    accepted. *)
Inductive path_a (chip per dty : Z) : bool -> list call -> Prop :=
| a_done :
    path_a chip per dty true
      [CWrite (AttrFile chip 0 Period) (Num per) WOk;
       CWrite (AttrFile chip 0 DutyCycle) (Num dty) WOk]
| a_period (r : wres) :
    r <> WOk ->
    path_a chip per dty false [CWrite (AttrFile chip 0 Period) (Num per) r]
| a_duty (r : wres) :
    r <> WOk ->
    path_a chip per dty false
      [CWrite (AttrFile chip 0 Period) (Num per) WOk;
       CWrite (AttrFile chip 0 DutyCycle) (Num dty) r].

(** Fast path B: a duty of 1 ns, the period, the duty. *)
Inductive path_b (chip per dty : Z) : bool -> list call -> Prop :=
| b_done :
    path_b chip per dty true
      [CWrite (AttrFile chip 0 DutyCycle) (Num 1) WOk;
       CWrite (AttrFile chip 0 Period) (Num per) WOk;
       CWrite (AttrFile chip 0 DutyCycle) (Num dty) WOk]
| b_tiny (r : wres) :
    r <> WOk ->
    path_b chip per dty false
      [CWrite (AttrFile chip 0 DutyCycle) (Num 1) r]
| b_period (r : wres) :
    r <> WOk ->
    path_b chip per dty false
      [CWrite (AttrFile chip 0 DutyCycle) (Num 1) WOk;
       CWrite (AttrFile chip 0 Period) (Num per) r]
| b_duty (r : wres) :
    r <> WOk ->
    path_b chip per dty false
      [CWrite (AttrFile chip 0 DutyCycle) (Num 1) WOk;
       CWrite (AttrFile chip 0 Period) (Num per) WOk;
       CWrite (AttrFile chip 0 DutyCycle) (Num dty) r].

(** One pass of the fallback loop: disable, 1 ms, a duty of 1 ns, the
    period, the duty, enable; [true] when the last three were accepted.
    A pass whose period or duty was rejected backs off with 1 ms, an
    enable and 1 ms more. *)
Inductive pass (chip per dty : Z) : bool -> list call -> Prop :=
| pass_done (r0 r1 : wres) :
    pass chip per dty true
      [CWrite (AttrFile chip 0 Enable) (Num 0) r0; CSleep 1;
       CWrite (AttrFile chip 0 DutyCycle) (Num 1) r1;
       CWrite (AttrFile chip 0 Period) (Num per) WOk;
       CWrite (AttrFile chip 0 DutyCycle) (Num dty) WOk;
       CWrite (AttrFile chip 0 Enable) (Num 1) WOk; CSleep 1]
| pass_enable (r0 r1 r : wres) :
    r <> WOk ->
    pass chip per dty false
      [CWrite (AttrFile chip 0 Enable) (Num 0) r0; CSleep 1;
       CWrite (AttrFile chip 0 DutyCycle) (Num 1) r1;
       CWrite (AttrFile chip 0 Period) (Num per) WOk;
       CWrite (AttrFile chip 0 DutyCycle) (Num dty) WOk;
       CWrite (AttrFile chip 0 Enable) (Num 1) r]
| pass_period (r0 r1 r r3 : wres) :
    r <> WOk ->
    pass chip per dty false
      [CWrite (AttrFile chip 0 Enable) (Num 0) r0; CSleep 1;
       CWrite (AttrFile chip 0 DutyCycle) (Num 1) r1;
       CWrite (AttrFile chip 0 Period) (Num per) r; CSleep 1;
       CWrite (AttrFile chip 0 Enable) (Num 1) r3; CSleep 1]
| pass_duty (r0 r1 r r3 : wres) :
    r <> WOk ->
    pass chip per dty false
      [CWrite (AttrFile chip 0 Enable) (Num 0) r0; CSleep 1;
       CWrite (AttrFile chip 0 DutyCycle) (Num 1) r1;
       CWrite (AttrFile chip 0 Period) (Num per) WOk;
       CWrite (AttrFile chip 0 DutyCycle) (Num dty) r; CSleep 1;
       CWrite (AttrFile chip 0 Enable) (Num 1) r3; CSleep 1].

(** The fallback loop with [n] passes left: failed passes, then a good
    one ([0]), or [n] failed passes ([-1]). *)
Inductive passes (chip per dty : Z) : nat -> Z -> list call -> Prop :=
| passes_none : passes chip per dty 0 (-1) []
| passes_good (n : nat) (t : list call) :
    pass chip per dty true t -> passes chip per dty (S n) 0 t
| passes_again (n : nat) (rc : Z) (t rest : list call) :
    pass chip per dty false t ->
    passes chip per dty n rc rest ->
    passes chip per dty (S n) rc (t ++ rest).

(** The calls of [PWM0_set_freq] past its guards, with the value it
    returns: the stages follow one another, each entered when the one
    before failed. *)
Inductive ladder (chip per dty : Z) : Z -> list call -> Prop :=
| ladder_a (t0 ta : list call) :
    wake chip t0 -> path_a chip per dty true ta ->
    ladder chip per dty 0 (t0 ++ ta)
| ladder_b (t0 ta tb : list call) :
    wake chip t0 -> path_a chip per dty false ta ->
    path_b chip per dty true tb ->
    ladder chip per dty 0 (t0 ++ ta ++ tb)
| ladder_fallback (t0 ta tb tc : list call) (rc : Z) :
    wake chip t0 -> path_a chip per dty false ta ->
    path_b chip per dty false tb ->
    passes chip per dty 2 rc tc ->
    ladder chip per dty rc (t0 ++ ta ++ tb ++ tc).

End Pwm0Api.

(** ** Calls into servo.c *)

Module ServoApi.
Import Sys Servo.
#[local] Open Scope hal_scope.

(** What [write_str] of servo.c makes of the outcome of a write: a short
    write counts as success. *)
Definition errno_of (r : wres) : Z :=
  match r with
  | WErr e => - Z.pos e
  | _ => 0
  end.

(** [n] rounds of the wait loop of [export_pwm] in which the directory
    is not there. *)
Fixpoint pending (n : nat) (p : path) : list call :=
  match n with
  | O => []
  | S n' => CStat p false :: CSleep 20 :: pending n' p
  end.

(** The calls of [export_pwm] with the value it returns.  After the
    export request the directory is checked up to fifty times, 20 ms
    apart, and then once more; that last answer decides between 0 and
    the outcome of the request. *)
Inductive export_calls (chip channel : Z) : Z -> list call -> Prop :=
| export_no_chip :
    export_calls chip channel (- ENOENT) [CStat (ChipDir chip) false]
| export_present :
    export_calls chip channel 0
      [CStat (ChipDir chip) true; CStat (PwmDir chip channel) true]
| export_busy :
    export_calls chip channel 0
      [CStat (ChipDir chip) true; CStat (PwmDir chip channel) false;
       CWrite (ExportFile chip) (Num channel) (WErr 16)]
| export_waited (r : wres) (n : nat) (seen : bool) :
    r <> WErr 16 -> (n < 50)%nat ->
    export_calls chip channel (if seen then 0 else errno_of r)
      (CStat (ChipDir chip) true :: CStat (PwmDir chip channel) false
       :: CWrite (ExportFile chip) (Num channel) r
       :: pending n (PwmDir chip channel)
       ++ [CStat (PwmDir chip channel) true;
           CStat (PwmDir chip channel) seen])
| export_timed_out (r : wres) (seen : bool) :
    r <> WErr 16 ->
    export_calls chip channel (if seen then 0 else errno_of r)
      (CStat (ChipDir chip) true :: CStat (PwmDir chip channel) false
       :: CWrite (ExportFile chip) (Num channel) r
       :: pending 50 (PwmDir chip channel)
       ++ [CStat (PwmDir chip channel) seen]).

(** The operations that move the servo. *)
Inductive motion : Type :=
| Pulse (duty_ns : Z)
| Left (speed_pct : Z)
| Right (speed_pct : Z)
| Stop.

Section Code.
Context {W : Type} {P : Platform W}.

Definition move (s : Servo) (m : motion) : M W Z :=
  match m with
  | Pulse duty_ns => servo_set_pulse_ns s duty_ns
  | Left speed_pct => servo_left s speed_pct
  | Right speed_pct => servo_right s speed_pct
  | Stop => servo_stop s
  end.

End Code.

(** The pulse width a motion asks for, before [servo_set_pulse_ns]
    clamps it. *)
Definition asked (s : Servo) (m : motion) : Z :=
  match m with
  | Pulse duty_ns => duty_ns
  | Left speed_pct => pct_to_ns s speed_pct (-1)
  | Right speed_pct => pct_to_ns s speed_pct 1
  | Stop => neutral_ns s
  end.

(** A call that, if it touches an attribute, touches one of the
    channel [b]. *)
Definition on_servo (b : Z * Z) (c : call) : Prop :=
  match c with
  | CWrite (AttrFile n m _) _ _ | CRead (AttrFile n m _) _
  | CStat (AttrFile n m _) _ => (n, m) = b
  | CWrite (Stray _) _ _ | CRead (Stray _) _ | CStat (Stray _) _ => False
  | _ => True
  end.

End ServoApi.

(** ** C strings and [path_join2] of PWM0.c

    A piece of memory is the list of bytes from a pointer on; the C
    string in it is what comes before the first NUL. *)

Module CString.

Definition NUL : ascii := "000"%char.

Fixpoint c_str (mem : list ascii) : list ascii :=
  match mem with
  | [] => []
  | c :: rest => if Ascii.eqb c NUL then [] else c :: c_str rest
  end.

Definition strlen (mem : list ascii) : Z := Z.of_nat (length (c_str mem)).

Definition strnlen (mem : list ascii) (maxlen : Z) : Z :=
  Z.min (strlen mem) maxlen.

(** [memcpy(dst + off, src, n)], as the new content of [dst]. *)
Definition memcpy (dst : list ascii) (off : Z) (src : list ascii) (n : Z)
  : list ascii :=
  firstn (Z.to_nat off) dst
  ++ firstn (Z.to_nat n) src
  ++ skipn (Z.to_nat (off + n)) dst.

(** [path_join2(dst, dstsz, a, b)]: the value returned and the content
    of [dst] afterwards. *)
Definition path_join2 (dst : list ascii) (dstsz : Z) (a b : list ascii)
  : Z * list ascii :=
  let la := strnlen a dstsz in
  if dstsz <=? la then (-1, dst)
  else
    let lb := strlen b in
    if dstsz <=? la + lb then (-1, dst)
    else
      let dst := memcpy dst 0 a la in
      let dst := memcpy dst la b (lb + 1) in
      (0, dst).

Definition PATH_MAX : Z := 4096.

(** The suffixes PWM0.c joins to a path, each with its terminator. *)
Definition slash_export : list ascii :=
  ["/"; "e"; "x"; "p"; "o"; "r"; "t"; NUL]%char.
Definition slash_pwm0 : list ascii := ["/"; "p"; "w"; "m"; "0"; NUL]%char.
Definition slash_enable : list ascii :=
  ["/"; "e"; "n"; "a"; "b"; "l"; "e"; NUL]%char.
Definition slash_period : list ascii :=
  ["/"; "p"; "e"; "r"; "i"; "o"; "d"; NUL]%char.
Definition slash_duty_cycle : list ascii :=
  ["/"; "d"; "u"; "t"; "y"; "_"; "c"; "y"; "c"; "l"; "e"; NUL]%char.

End CString.

(** ** The knob as a walk on the Gray cycle *)

Module RotaryWalk.
Import Rotary.

(** The place of a quadrature state on the cycle 00, 01, 11, 10. *)
Definition phase (st : Z) : Z :=
  match st with
  | 1 => 1
  | 3 => 2
  | 2 => 3
  | _ => 0
  end.

(** From one iteration to the next the state stays, or moves to one of
    its two neighbours on the cycle. *)
Definition adjacent (st st' : Z) : bool :=
  (st' =? st) || (st' =? fwd_next st) || (st' =? rev_next st).

(** The samples of [l] read valid levels and never skip a state,
    starting from quadrature state [st]. *)
Fixpoint steady (st : Z) (l : list sample) : Prop :=
  match l with
  | [] => True
  | s :: l' =>
      is_bit (s_a s) /\ is_bit (s_b s)
      /\ adjacent st (pack (s_a s) (s_b s)) = true
      /\ steady (pack (s_a s) (s_b s)) l'
  end.

(** The knob wiggles one state forward and back, then makes three
    quarter steps backwards, from state 00. *)
Definition wiggle : list sample :=
  let t := {| tv_sec := 1; tv_nsec := 0 |} in
  [ {| s_a := 0; s_b := 1; s_sw := 0; s_now := t |};
    {| s_a := 0; s_b := 0; s_sw := 0; s_now := t |};
    {| s_a := 1; s_b := 0; s_sw := 0; s_now := t |};
    {| s_a := 1; s_b := 1; s_sw := 0; s_now := t |};
    {| s_a := 0; s_b := 1; s_sw := 0; s_now := t |} ].

End RotaryWalk.

(** ** Starting and stopping the encoder (rotary.c)

    The GPIO files and the thread library under [rotaryEncoder_init] and
    [rotaryEncoder_cleanup], in the style of the platform above. *)

Module RotaryInit.

Definition ENC_A_GPIO : Z := 439.
Definition ENC_B_GPIO : Z := 336.
Definition ENC_SW_GPIO : Z := 434.

(** [/sys/class/gpio/gpio<n>], [/sys/class/gpio/export] and the
    [direction] and [value] files of a line. *)
Inductive file : Type :=
| GpioDir (n : Z)
| Export
| Direction (n : Z)
| Value (n : Z).

(** Text written: the decimal rendering of a line number, or [in]. *)
Inductive text : Type := Number (n : Z) | Input.

Inductive call : Type :=
| Access (f : file) (ok : bool)
| Write (f : file) (t : text) (r : Sys.wres)
| Open (f : file) (fd : Z)
| Close (fd : Z)
| ThreadCreate (rc : Z)
| ThreadJoin.

(** - [gpio_access f]: does [access(f, F_OK)] return 0;
    - [gpio_write f t]: [open(f, O_WRONLY)], [write], [close];
    - [gpio_open f]: [open(f, O_RDONLY)], the descriptor or -1;
    - [gpio_close fd]: [close];
    - [thread_create]: [pthread_create] of [encoder_thread];
    - [thread_join]: [pthread_join]. *)
Class Board (W : Type) : Type := {
  gpio_access : file -> W -> bool * W;
  gpio_write : file -> text -> W -> Sys.wres * W;
  gpio_open : file -> W -> Z * W;
  gpio_close : Z -> W -> W;
  thread_create : W -> Z * W;
  thread_join : W -> W
}.

Definition M (W A : Type) : Type := W -> A * W * list call.

Definition ret {W A : Type} (a : A) : M W A := fun w => (a, w, []).

Definition bind {W A B : Type} (m : M W A) (k : A -> M W B) : M W B :=
  fun w =>
    let '(a, w1, t1) := m w in
    let '(b, w2, t2) := k a w1 in
    (b, w2, t1 ++ t2).

Definition result {W A : Type} (r : A * W * list call) : A := fst (fst r).
Definition world {W A : Type} (r : A * W * list call) : W := snd (fst r).
Definition calls {W A : Type} (r : A * W * list call) : list call := snd r.

Declare Scope gpio_scope.
Delimit Scope gpio_scope with gpio.
Notation "x <- m ;; k" := (bind m (fun x => k))
  (at level 61, m at next level, right associativity) : gpio_scope.
Notation "m ;; k" := (bind m (fun _ => k))
  (at level 61, right associativity) : gpio_scope.
#[local] Open Scope gpio_scope.

(** The variables of the module that the two functions touch. *)
Record handles : Type := {
  g_run : Z;
  g_pos : Z;
  g_button_edge : Z;
  fd_a : Z;
  fd_b : Z;
  fd_sw : Z
}.

(** The values of the static initialisers. *)
Definition startup : handles :=
  {| g_run := 0; g_pos := 0; g_button_edge := 0;
     fd_a := -1; fd_b := -1; fd_sw := -1 |}.

Section Code.
Context {W : Type} {B : Board W}.

Definition access (f : file) : M W bool :=
  fun w => let (r, w') := gpio_access f w in (r, w', [Access f r]).

Definition open (f : file) : M W Z :=
  fun w => let (r, w') := gpio_open f w in (r, w', [Open f r]).

Definition close (fd : Z) : M W unit :=
  fun w => (tt, gpio_close fd w, [Close fd]).

Definition pthread_create : M W Z :=
  fun w => let (r, w') := thread_create w in (r, w', [ThreadCreate r]).

Definition pthread_join : M W unit :=
  fun w => (tt, thread_join w, [ThreadJoin]).

Definition sysfs_write (f : file) (t : text) : M W Z :=
  fun w =>
    let (r, w') := gpio_write f t w in
    (match r with Sys.WOk => 0 | _ => -1 end, w', [Write f t r]).

Definition gpio_export (n : Z) : M W Z :=
  ok <- access (GpioDir n) ;;
  if ok then ret 0 else sysfs_write Export (Number n).

Definition gpio_set_dir_in (n : Z) : M W Z := sysfs_write (Direction n) Input.

Definition gpio_open_value (n : Z) : M W Z := open (Value n).

(** [a() != 0 || b() != 0 || c() != 0]: the later calls are made only
    while the earlier ones returned 0. *)
Definition any_fails (a b c : M W Z) : M W bool :=
  ra <- a ;;
  if negb (ra =? 0) then ret true
  else
    rb <- b ;;
    if negb (rb =? 0) then ret true
    else
      rc <- c ;;
      ret (negb (rc =? 0)).

Definition rotaryEncoder_init (m : handles) : M W (Z * handles) :=
  if negb (g_run m =? 0) then ret (0, m)
  else
    bad <- any_fails (gpio_export ENC_A_GPIO) (gpio_export ENC_B_GPIO)
             (gpio_export ENC_SW_GPIO) ;;
    if bad then ret (-1, m)
    else
      bad <- any_fails (gpio_set_dir_in ENC_A_GPIO)
               (gpio_set_dir_in ENC_B_GPIO) (gpio_set_dir_in ENC_SW_GPIO) ;;
      if bad then ret (-1, m)
      else
        a <- gpio_open_value ENC_A_GPIO ;;
        b <- gpio_open_value ENC_B_GPIO ;;
        sw <- gpio_open_value ENC_SW_GPIO ;;
        if (a <? 0) || (b <? 0) || (sw <? 0) then
          ret (-1, {| g_run := g_run m; g_pos := g_pos m;
                      g_button_edge := g_button_edge m;
                      fd_a := a; fd_b := b; fd_sw := sw |})
        else
          rc <- pthread_create ;;
          if negb (rc =? 0) then
            ret (-1, {| g_run := 0; g_pos := 0; g_button_edge := 0;
                        fd_a := a; fd_b := b; fd_sw := sw |})
          else
            ret (0, {| g_run := 1; g_pos := 0; g_button_edge := 0;
                       fd_a := a; fd_b := b; fd_sw := sw |}).

(** [if (fd >= 0) close(fd);]. *)
Definition close_if_open (fd : Z) : M W unit :=
  if 0 <=? fd then close fd else ret tt.

Definition rotaryEncoder_cleanup (m : handles) : M W handles :=
  if g_run m =? 0 then ret m
  else
    pthread_join ;;
    close_if_open (fd_a m) ;;
    close_if_open (fd_b m) ;;
    close_if_open (fd_sw m) ;;
    ret {| g_run := 0; g_pos := g_pos m; g_button_edge := g_button_edge m;
           fd_a := -1; fd_b := -1; fd_sw := -1 |}.

End Code.

(** The calls of a [gpio_export] that returns 0. *)
Inductive exported (n : Z) : list call -> Prop :=
| exported_already : exported n [Access (GpioDir n) true]
| exported_now :
    exported n [Access (GpioDir n) false; Write Export (Number n) Sys.WOk].

Definition closes (c : call) : Prop :=
  match c with
  | Close _ => True
  | _ => False
  end.

Definition starts_thread (c : call) : Prop :=
  match c with
  | ThreadCreate 0 => True
  | _ => False
  end.

(** A call that neither closes a descriptor nor starts the thread. *)
Definition plain (c : call) : Prop := ~ closes c /\ ~ starts_thread c.

(** A board scripted by the answers it will give: whether the GPIO
    directories exist, and the queues of descriptors for the next
    [open] calls and of outcomes of the next writes; [pthread_create]
    succeeds. *)
Record script : Type := {
  present : bool;
  descriptors : list Z;
  outcomes : list Sys.wres
}.

#[global] Instance scripted : Board script := {
  gpio_access _ w := (present w, w);
  gpio_write _ _ w :=
    match outcomes w with
    | [] => (Sys.WOk, w)
    | r :: q =>
        (r, {| present := present w; descriptors := descriptors w;
               outcomes := q |})
    end;
  gpio_open _ w :=
    match descriptors w with
    | [] => (-1, w)
    | fd :: q =>
        (fd, {| present := present w; descriptors := q;
                outcomes := outcomes w |})
    end;
  gpio_close _ w := w;
  thread_create w := (0, w);
  thread_join w := w
}.

(** All three value files open; and the second one does not. *)
Definition board_ok : script :=
  {| present := true; descriptors := [3; 4; 5]; outcomes := [] |}.

Definition board_b_fails : script :=
  {| present := true; descriptors := [3; -1; 5]; outcomes := [] |}.

End RotaryInit.

(** ** The sorting loop of main.c *)

Module Main.
Import Sys Servo.
#[local] Open Scope hal_scope.

Definition SERVO_PERIOD_NS : Z := 20000000.
Definition SERVO_NEUTRAL_NS : Z := 1600000.
Definition SERVO_MIN_NS : Z := 1200000.
Definition SERVO_MAX_NS : Z := 2000000.
Definition SERVO_HOLD_SECONDS : Z := 5.

Definition paper : list ascii := ["p"; "a"; "p"; "e"; "r"]%char.
Definition plastic : list ascii := ["p"; "l"; "a"; "s"; "t"; "i"; "c"]%char.

(** What the network does during one pass of the loop: whether
    [send_start_to_host] would return 0, and the datagram [recvfrom]
    would deliver, [None] when it has none. *)
Record net : Type := { send_ok : bool; datagram : option (list ascii) }.

Inductive material : Type := Paper | Plastic.

(** What a pass did: pressed the start (and whether the message went
    out), sorted an item, or dropped a message it did not know. *)
Inductive action : Type :=
| Start (sent : bool)
| Sorted (m : material)
| Ignored.

(** The text [strcmp] sees after [recvfrom(sock, buf, 63, ...)] returned
    [n > 0] and [buf[n]] was cleared. *)
Definition received (payload : list ascii) : list ascii :=
  CString.c_str (firstn 63 payload ++ [CString.NUL]).

Section Code.
Context {W : Type} {P : Platform W}.

Definition servo_to_neutral (g : Servo) : M W unit :=
  servo_set_pulse_ns g SERVO_NEUTRAL_NS ;; ret tt.

Definition servo_to_paper (g : Servo) : M W unit :=
  servo_set_pulse_ns g SERVO_MIN_NS ;; ret tt.

Definition servo_to_plastic (g : Servo) : M W unit :=
  servo_set_pulse_ns g SERVO_MAX_NS ;; ret tt.

(** Step 1 of the loop body: the button is asked only while no result
    is awaited; a press sends the start and is followed by 200 ms. *)
Definition start_step (n : net) (waiting : bool) (e : Rotary.enc)
  : M W (list action * bool * Rotary.enc) :=
  if negb waiting then
    let (pressed, e') := Rotary.rotaryEncoder_button_pressed e in
    if pressed then (sleep 200 ;; ret ([Start (send_ok n)], send_ok n, e'))
    else ret ([], false, e')
  else ret ([], true, e).

(** Step 2: while a result is awaited, a datagram that was received
    moves the servo when it says [paper] or [plastic]. *)
Definition result_step (g : Servo) (n : net) (waiting : bool)
  : M W (list action * bool) :=
  if waiting then
    match datagram n with
    | None | Some [] => ret ([], true)
    | Some payload =>
        if list_eq_dec ascii_dec (received payload) paper then
          servo_to_paper g ;;
          sleep (SERVO_HOLD_SECONDS * 1000) ;;
          servo_to_neutral g ;;
          ret ([Sorted Paper], false)
        else if list_eq_dec ascii_dec (received payload) plastic then
          servo_to_plastic g ;;
          sleep (SERVO_HOLD_SECONDS * 1000) ;;
          servo_to_neutral g ;;
          ret ([Sorted Plastic], false)
        else ret ([Ignored], true)
    end
  else ret ([], false).

(** One pass through the body of [while (keep_running)]. *)
Definition pass (g : Servo) (n : net) (waiting : bool) (e : Rotary.enc)
  : M W (list action * bool * Rotary.enc) :=
  s1 <- start_step n waiting e ;;
  let '(a1, waiting, e) := s1 in
  s2 <- result_step g n waiting ;;
  let (a2, waiting) := s2 in
  sleep 5 ;;
  ret (a1 ++ a2, waiting, e).

(** The loop and the encoder thread side by side: a pass of the loop,
    or an iteration of the thread. *)
Inductive step : Type :=
| Loop (n : net)
| Poll (s : Rotary.sample).

Fixpoint run (g : Servo) (steps : list step) (waiting : bool)
  (e : Rotary.enc) : M W (list action * bool * Rotary.enc) :=
  match steps with
  | [] => ret ([], waiting, e)
  | Loop n :: rest =>
      r <- pass g n waiting e ;;
      let '(a, waiting, e) := r in
      rr <- run g rest waiting e ;;
      let '(a', waiting, e) := rr in
      ret (a ++ a', waiting, e)
  | Poll s :: rest => run g rest waiting (Rotary.tick s e)
  end.

End Code.

(** Starts and results in turn: from [waiting], do the actions come in
    an order the protocol allows, and is a result awaited after them? *)
Fixpoint in_turn (waiting : bool) (acts : list action) : option bool :=
  match acts with
  | [] => Some waiting
  | Start sent :: rest => if waiting then None else in_turn sent rest
  | Sorted _ :: rest => if waiting then in_turn false rest else None
  | Ignored :: rest => if waiting then in_turn true rest else None
  end.

Definition is_sorted (a : action) : bool :=
  match a with Sorted _ => true | _ => false end.

Definition is_sent (a : action) : bool :=
  match a with Start true => true | _ => false end.

(** A call that, if it writes a duty, writes one of the three pulse
    widths of main.c. *)
Definition known_pulse (c : call) : Prop :=
  match c with
  | CWrite _ (Num v) _ =>
      v = SERVO_MIN_NS \/ v = SERVO_MAX_NS \/ v = SERVO_NEUTRAL_NS
  | CWrite _ Normal _ => False
  | _ => True
  end.

(** 1 while a result is awaited. *)
Definition debt (waiting : bool) : nat := if waiting then 1%nat else 0%nat.

(** The number of writes among the calls. *)
Definition writes (t : list call) : nat :=
  length (filter (fun c => match c with CWrite _ _ _ => true | _ => false end)
            t).

(** The pulse width that sorts a material. *)
Definition target (m : material) : Z :=
  match m with
  | Paper => SERVO_MIN_NS
  | Plastic => SERVO_MAX_NS
  end.

(** The word that announces a material. *)
Definition word (m : material) : list ascii :=
  match m with
  | Paper => paper
  | Plastic => plastic
  end.

(** A scenario: the thread registers a press; a pass sends the start
    while nothing has arrived; the next pass receives [paper]. *)
Definition nothing_yet : net := {| send_ok := true; datagram := None |}.

Definition paper_arrives : net :=
  {| send_ok := true; datagram := Some paper |}.

Definition send_fails : net := {| send_ok := false; datagram := None |}.

Definition one_item : list step :=
  [Poll Rotary.press_1000; Loop nothing_yet; Loop paper_arrives].

End Main.

(** ** The probe of PWM0.c, chip by chip *)

Module Pwm0Probe.
Import Sys PWM0.

(** A call that concerns one of the chips [cs]: a check of its channel
    directory or of an attribute, or a write to its export file; sleeps
    concern no chip. *)
Definition about (cs : list Z) (c : call) : Prop :=
  match c with
  | CStat (PwmDir n _) _ | CStat (AttrFile n _ _) _
  | CWrite (ExportFile n) _ _ => In n cs
  | CSleep _ => True
  | _ => False
  end.

(** The four checks that make the probe settle on a chip. *)
Definition accepting (chip : Z) : list call :=
  [CStat (PwmDir chip 0) true;
   CStat (AttrFile chip 0 Enable) true;
   CStat (AttrFile chip 0 Period) true;
   CStat (AttrFile chip 0 DutyCycle) true].

(** A call that, if it writes, asks an export file for channel 0. *)
Definition exports_zero (c : call) : Prop :=
  match c with
  | CWrite (ExportFile _) (Num 0) _ => True
  | CWrite _ _ _ => False
  | _ => True
  end.

(** What one trace contributes: the chips it concerns, the time it
    sleeps, and that it exports nothing but channel 0. *)
Definition fine (cs : list Z) (ms : Z) (t : list call) : Prop :=
  Forall (about cs) t /\ slept t <= ms /\ Forall exports_zero t.

(** A board with three chips: the first never shows a channel, the
    second shows one without a [period] file, the third is usable. *)
Definition three_chips : Script.world :=
  {| Script.stats := repeat false 52 ++ [true; true; true; false];
     Script.write_results := []; Script.readable := true;
     Script.reg_enable := 0; Script.reg_period := 0; Script.reg_duty := 0;
     Script.found := Some [0; 1; 2]; Script.env_chip := None |}.

End Pwm0Probe.

(** ** joystick.c (the reaction timer)

    The stick is read through a 12-bit ADC on SPI; one transfer sends
    three bytes and receives three. *)

Module Joystick.

Definition ADC_FS : Z := 4095.
Definition ADC_MID : Z := 2048.
Definition DEADZONE_PCT : Z := 8.
Definition DZ_TICKS : Z := ADC_FS * DEADZONE_PCT / 100 / 2.

Inductive js_dir_t : Type := JS_NONE | JS_UP | JS_DOWN | JS_LEFT | JS_RIGHT.

(** [(unsigned char)v]. *)
Definition to_uchar (v : Z) : Z := v mod 256.

(** The three bytes [read_channel] sends for channel [ch]. *)
Definition command (ch : Z) : Z * Z * Z :=
  (to_uchar (Z.lor 0x06 (Z.shiftr (Z.land ch 0x04) 2)),
   to_uchar (Z.shiftl (Z.land ch 0x03) 6),
   0x00).

(** [read_channel]: [resp] is what the transfer delivers into [rx],
    [None] when [ioctl] returns less than 1. *)
Definition read_channel (ch : Z) (resp : option (Z * Z * Z)) : Z :=
  match resp with
  | None => -1
  | Some (_, rx1, rx2) => Z.lor (Z.shiftl (Z.land rx1 0x0F) 8) rx2
  end.

Definition read_x (resp : option (Z * Z * Z)) : Z := read_channel 0 resp.
Definition read_y (resp : option (Z * Z * Z)) : Z := read_channel 1 resp.

Definition in_deadzone (val : Z) : bool :=
  if (val <? 0) || (ADC_FS <? val) then true
  else
    let d := wrap32 (val - ADC_MID) in
    (- DZ_TICKS <? d) && (d <? DZ_TICKS).

(** [joystick_active], given the answers to its two transfers. *)
Definition joystick_active (rx ry : option (Z * Z * Z)) : Z :=
  let x := read_x rx in
  let y := read_y ry in
  if (x <? 0) || (y <? 0) then 0
  else if negb (in_deadzone x && in_deadzone y) then 1 else 0.

(** [joystick_direction], given the answers to its two transfers. *)
Definition joystick_direction (rx ry : option (Z * Z * Z)) : js_dir_t :=
  let x := read_x rx in
  let y := read_y ry in
  if (x <? 0) || (y <? 0) then JS_NONE
  else
    let dx := wrap32 (x - ADC_MID) in
    let dy := wrap32 (y - ADC_MID) in
    if in_deadzone x && in_deadzone y then JS_NONE
    else if wrap32 (dy * dy) <? wrap32 (dx * dx) then
      (if 0 <? dx then JS_RIGHT else JS_LEFT)
    else
      (if 0 <? dy then JS_UP else JS_DOWN).

(** A byte as the SPI controller delivers it. *)
Definition is_byte (b : Z) : Prop := 0 <= b <= 255.

Definition bytes (resp : option (Z * Z * Z)) : Prop :=
  match resp with
  | None => True
  | Some (b0, b1, b2) => is_byte b0 /\ is_byte b1 /\ is_byte b2
  end.

(** The deflection [read - ADC_MID] of an axis, 0 when the read
    failed. *)
Definition deflection (v : Z) : Z := if v <? 0 then 0 else v - ADC_MID.

End Joystick.

(** ** The best time of reaction_timer.c *)

Module ReactionTimer.

(** The update of [best_ms] after a correct round that took [elapsed]
    milliseconds; 0 stands for "no best time yet". *)
Definition record_round (best_ms elapsed : Z) : Z :=
  if (best_ms =? 0) || (elapsed <? best_ms) then elapsed else best_ms.

(** [best_ms] after the correct rounds of a game, in order. *)
Definition best_after (rounds : list Z) : Z := fold_left record_round rounds 0.

End ReactionTimer.

(** * Properties *)

(** ** 32-bit wrap-around *)

Lemma wrap32_range (z : Z) : in_int (wrap32 z).
Proof.
  unfold in_int, wrap32, INT_MIN, INT_MAX.
  pose proof (Z.mod_pos_bound (z + 2 ^ 31) (2 ^ 32) ltac:(lia)). lia.
Qed.

Lemma wrap32_id (z : Z) : in_int z -> wrap32 z = z.
Proof.
  unfold in_int, wrap32, INT_MIN, INT_MAX. intros H.
  rewrite Z.mod_small; lia.
Qed.

Lemma wrap32_add_l (x d : Z) : wrap32 (wrap32 x + d) = wrap32 (x + d).
Proof.
  unfold wrap32.
  replace (( x + 2 ^ 31) mod 2 ^ 32 - 2 ^ 31 + d + 2 ^ 31)
    with ((x + 2 ^ 31) mod 2 ^ 32 + d) by lia.
  rewrite Zplus_mod_idemp_l. f_equal. f_equal. lia.
Qed.

Lemma wrap32_shift_ne (x d : Z) :
  0 < d < 2 ^ 32 -> wrap32 (x + d) <> wrap32 x.
Proof.
  unfold wrap32. intros Hd H.
  assert (E : (x + d + 2 ^ 31) mod 2 ^ 32 = (x + 2 ^ 31) mod 2 ^ 32) by lia.
  pose proof (Z.div_mod (x + d + 2 ^ 31) (2 ^ 32) ltac:(lia)) as A.
  pose proof (Z.div_mod (x + 2 ^ 31) (2 ^ 32) ltac:(lia)) as B.
  rewrite E in A.
  assert (D : d = 2 ^ 32 * ((x + d + 2 ^ 31) / 2 ^ 32 - (x + 2 ^ 31) / 2 ^ 32))
    by lia.
  remember ((x + d + 2 ^ 31) / 2 ^ 32 - (x + 2 ^ 31) / 2 ^ 32) as k.
  assert (k <= 0 \/ 1 <= k) as [K | K] by lia; nia.
Qed.

Lemma wrap32_succ_ne (x : Z) : in_int x -> wrap32 (x + 1) <> x.
Proof.
  intros H E. apply (wrap32_shift_ne x 1); [lia |].
  now rewrite (wrap32_id x H).
Qed.

Lemma wrap32_pred_ne (x : Z) : in_int x -> wrap32 (x - 1) <> x.
Proof.
  intros H E. apply (wrap32_shift_ne (x - 1) 1); [lia |].
  replace (x - 1 + 1) with x by lia. now rewrite E, wrap32_id.
Qed.

Lemma wrap32_succ_pred_ne (x : Z) : wrap32 (x + 1) <> wrap32 (x - 1).
Proof.
  replace (x + 1) with (x - 1 + 2) by lia.
  apply wrap32_shift_ne. lia.
Qed.

(** ** The quadrature decoder *)

Section Quadrature.
Import Rotary.

Lemma transition_value (lst st : Z) :
  0 <= lst <= 3 -> 0 <= st <= 3 -> transition lst st = 4 * lst + st.
Proof.
  intros Hl Hs.
  assert (L : lst = 0 \/ lst = 1 \/ lst = 2 \/ lst = 3) by lia.
  assert (S : st = 0 \/ st = 1 \/ st = 2 \/ st = 3) by lia.
  destruct L as [-> | [-> | [-> | ->]]];
    destruct S as [-> | [-> | [-> | ->]]]; reflexivity.
Qed.

Lemma pack_bits (a b : Z) : is_bit a -> is_bit b -> 0 <= pack a b <= 3.
Proof.
  intros [-> | ->] [-> | ->]; cbn; lia.
Qed.

Ltac code_cases d H :=
  let C := fresh "C" in
  assert (C : d = 0 \/ d = 1 \/ d = 2 \/ d = 3 \/ d = 4 \/ d = 5 \/ d = 6
              \/ d = 7 \/ d = 8 \/ d = 9 \/ d = 10 \/ d = 11 \/ d = 12
              \/ d = 13 \/ d = 14 \/ d = 15) by lia;
  clear H;
  repeat (destruct C as [-> | C]); [.. | subst d].

Ltac not_listed :=
  let H := fresh in
  intros H; cbn in H; repeat (destruct H as [H | H]; [discriminate H |]);
  exact H.

Lemma decode_forward (d pos : Z) :
  0 <= d <= 15 -> in_int pos ->
  (In d forward_codes <-> decode d pos = wrap32 (pos + 1)).
Proof.
  intros Hd Hp. code_cases d Hd; cbn [decode atomic_fetch_add atomic_fetch_sub];
    (split;
     [ first [ reflexivity | intros H; exfalso; revert H; not_listed ]
     | first [ intros _; cbn; tauto
             | intros H; exfalso; symmetry in H;
               first [ exact (wrap32_succ_ne pos Hp H)
                     | exact (wrap32_succ_pred_ne pos H) ] ] ]).
Qed.

Lemma decode_reverse (d pos : Z) :
  0 <= d <= 15 -> in_int pos ->
  (In d reverse_codes <-> decode d pos = wrap32 (pos - 1)).
Proof.
  intros Hd Hp. code_cases d Hd; cbn [decode atomic_fetch_add atomic_fetch_sub];
    (split;
     [ first [ reflexivity | intros H; exfalso; revert H; not_listed ]
     | first [ intros _; cbn; tauto
             | intros H; exfalso;
               first [ symmetry in H; exact (wrap32_pred_ne pos Hp H)
                     | exact (wrap32_succ_pred_ne pos H) ] ] ]).
Qed.

Lemma decode_other (d pos : Z) :
  0 <= d <= 15 -> in_int pos ->
  (~ In d forward_codes /\ ~ In d reverse_codes <-> decode d pos = pos).
Proof.
  intros Hd Hp. code_cases d Hd; cbn [decode atomic_fetch_add atomic_fetch_sub];
    (split;
     [ first [ reflexivity
             | intros [F R]; exfalso;
               first [ apply F; cbn; tauto | apply R; cbn; tauto ] ]
     | first [ intros _; split; not_listed
             | intros H; exfalso;
               first [ exact (wrap32_succ_ne pos Hp H)
                     | exact (wrap32_pred_ne pos Hp H) ] ] ]).
Qed.

Lemma fwd_next_range (st : Z) : 0 <= fwd_next st <= 3.
Proof.
  destruct st as [| [[| |] | [| |] |] |]; cbn; lia.
Qed.

Lemma rev_next_range (st : Z) : 0 <= rev_next st <= 3.
Proof.
  destruct st as [| [[| |] | [| |] |] |]; cbn; lia.
Qed.

Lemma decode_fwd_next (st pos : Z) :
  0 <= st <= 3 -> decode (transition st (fwd_next st)) pos = wrap32 (pos + 1).
Proof.
  intros H. assert (S : st = 0 \/ st = 1 \/ st = 2 \/ st = 3) by lia.
  destruct S as [-> | [-> | [-> | ->]]]; reflexivity.
Qed.

Lemma decode_rev_next (st pos : Z) :
  0 <= st <= 3 -> decode (transition st (rev_next st)) pos = wrap32 (pos - 1).
Proof.
  intros H. assert (S : st = 0 \/ st = 1 \/ st = 2 \/ st = 3) by lia.
  destruct S as [-> | [-> | [-> | ->]]]; reflexivity.
Qed.

Lemma tick_pos (s : sample) (e : enc) :
  g_pos (tick s e)
  = decode (transition (last e) (pack (s_a s) (s_b s))) (g_pos e).
Proof.
  unfold tick. destruct (s_sw s =? last_sw e); reflexivity.
Qed.

Lemma tick_last (s : sample) (e : enc) :
  last (tick s e) = pack (s_a s) (s_b s).
Proof.
  unfold tick. destruct (s_sw s =? last_sw e); reflexivity.
Qed.

Lemma forward_run (l : list sample) :
  forall e, in_int (g_pos e) -> 0 <= last e <= 3 ->
  follows fwd_next (last e) l ->
  g_pos (encoder_loop l e) = wrap32 (g_pos e + Z.of_nat (length l)).
Proof.
  induction l as [| s l IH]; intros e Hp He F.
  - cbn. rewrite Z.add_0_r. symmetry. now apply wrap32_id.
  - destruct F as (_ & _ & Hst & F).
    cbn [encoder_loop fold_left]. fold (encoder_loop l (tick s e)).
    assert (L : last (tick s e) = fwd_next (last e))
      by (rewrite tick_last; exact Hst).
    assert (G : g_pos (tick s e) = wrap32 (g_pos e + 1))
      by (rewrite tick_pos, Hst; apply decode_fwd_next; exact He).
    rewrite IH.
    + rewrite G, wrap32_add_l. f_equal. cbn [length]. lia.
    + rewrite G. apply wrap32_range.
    + rewrite L. apply fwd_next_range.
    + rewrite L. exact F.
Qed.

Lemma reverse_run (l : list sample) :
  forall e, in_int (g_pos e) -> 0 <= last e <= 3 ->
  follows rev_next (last e) l ->
  g_pos (encoder_loop l e) = wrap32 (g_pos e - Z.of_nat (length l)).
Proof.
  induction l as [| s l IH]; intros e Hp He F.
  - cbn. rewrite Z.sub_0_r. symmetry. now apply wrap32_id.
  - destruct F as (_ & _ & Hst & F).
    cbn [encoder_loop fold_left]. fold (encoder_loop l (tick s e)).
    assert (L : last (tick s e) = rev_next (last e))
      by (rewrite tick_last; exact Hst).
    assert (G : g_pos (tick s e) = wrap32 (g_pos e - 1))
      by (rewrite tick_pos, Hst; apply decode_rev_next; exact He).
    rewrite IH.
    + rewrite G. unfold Z.sub at 1 3. rewrite wrap32_add_l. f_equal.
      cbn [length]. lia.
    + rewrite G. apply wrap32_range.
    + rewrite L. apply rev_next_range.
    + rewrite L. exact F.
Qed.

(** C1.  The transition code of two consecutive 2-bit samples is one of
    the 16 values 0..15 and each of them arises; the [switch] adds 1 to
    the counter exactly on the four codes 0x1, 0x7, 0xE, 0x8, subtracts
    1 exactly on the four codes 0x2, 0x4, 0xD, 0xB and leaves it alone
    exactly on the eight others.  Hence a run of iterations whose
    samples walk the cycle 00, 01, 11, 10 moves the counter up by one per
    iteration, and the opposite walk moves it down by one per iteration
    (in the counter's 32-bit arithmetic, and as plain integers while the
    counter stays within [INT_MIN, INT_MAX]). *)
Theorem quadrature_decoding :
  (NoDup forward_codes /\ length forward_codes = 4%nat)
  /\ (NoDup reverse_codes /\ length reverse_codes = 4%nat)
  /\ length (filter idle_code (map Z.of_nat (seq 0 16))) = 8%nat
  /\ (forall d, 0 <= d <= 15 -> transition (d / 4) (d mod 4) = d)
  /\ (forall lst st pos,
        0 <= lst <= 3 -> 0 <= st <= 3 -> in_int pos ->
        0 <= transition lst st <= 15
        /\ (In (transition lst st) forward_codes
            <-> decode (transition lst st) pos = wrap32 (pos + 1))
        /\ (In (transition lst st) reverse_codes
            <-> decode (transition lst st) pos = wrap32 (pos - 1))
        /\ (~ In (transition lst st) forward_codes
            /\ ~ In (transition lst st) reverse_codes
            <-> decode (transition lst st) pos = pos))
  /\ (forall s e,
        g_pos (tick s e)
        = decode (transition (last e) (pack (s_a s) (s_b s))) (g_pos e))
  /\ (forall l e,
        in_int (g_pos e) -> 0 <= last e <= 3 ->
        follows fwd_next (last e) l ->
        g_pos (encoder_loop l e) = wrap32 (g_pos e + Z.of_nat (length l))
        /\ (g_pos e + Z.of_nat (length l) <= INT_MAX ->
            g_pos (encoder_loop l e) = g_pos e + Z.of_nat (length l)))
  /\ (forall l e,
        in_int (g_pos e) -> 0 <= last e <= 3 ->
        follows rev_next (last e) l ->
        g_pos (encoder_loop l e) = wrap32 (g_pos e - Z.of_nat (length l))
        /\ (INT_MIN <= g_pos e - Z.of_nat (length l) ->
            g_pos (encoder_loop l e) = g_pos e - Z.of_nat (length l))).
Proof.
  split; [| split; [| split; [| split; [| split; [| split; [| split]]]]]].
  - split; [| reflexivity].
    repeat constructor; cbn; intuition discriminate.
  - split; [| reflexivity].
    repeat constructor; cbn; intuition discriminate.
  - reflexivity.
  - intros d Hd.
    assert (C : d = 0 \/ d = 1 \/ d = 2 \/ d = 3 \/ d = 4 \/ d = 5 \/ d = 6
                \/ d = 7 \/ d = 8 \/ d = 9 \/ d = 10 \/ d = 11 \/ d = 12
                \/ d = 13 \/ d = 14 \/ d = 15) by lia.
    repeat (destruct C as [-> | C]; [reflexivity |]). subst d. reflexivity.
  - intros lst st pos Hl Hs Hp.
    assert (R : 0 <= transition lst st <= 15)
      by (rewrite transition_value by assumption; lia).
    split; [exact R |].
    split; [now apply decode_forward |].
    split; [now apply decode_reverse | now apply decode_other].
  - apply tick_pos.
  - intros l e Hp He F. pose proof (forward_run l e Hp He F) as E.
    split; [exact E |]. intros B. rewrite E. apply wrap32_id.
    unfold in_int in *. unfold INT_MIN, INT_MAX in *. lia.
  - intros l e Hp He F. pose proof (reverse_run l e Hp He F) as E.
    split; [exact E |]. intros B. rewrite E. apply wrap32_id.
    unfold in_int in *. unfold INT_MIN, INT_MAX in *. lia.
Qed.

(** One turn forward from rest counts 4. *)
Lemma quadrature_decoding_witness :
  g_pos (encoder_loop one_turn (encoder_start 0 0 0)) = 0 + 4.
Proof.
  refine (proj2 (proj1 (proj2 (proj2 (proj2 (proj2 (proj2 (proj2
            quadrature_decoding))))))
            one_turn (encoder_start 0 0 0) _ _ _) _).
  - unfold in_int, INT_MIN, INT_MAX. cbn. lia.
  - cbn. lia.
  - cbn. unfold is_bit. repeat split; auto.
  - unfold INT_MAX. cbn. lia.
Defined.

End Quadrature.

(** ** The button *)

Section Button.
Import Rotary.

Lemma sysfs_read_int_values (fd : Z) (rd : option (list ascii)) :
  sysfs_read_int fd rd = -1 \/ sysfs_read_int fd rd = 0
  \/ sysfs_read_int fd rd = 1.
Proof.
  unfold sysfs_read_int. destruct (fd <? 0); [auto |].
  destruct rd as [[| c l] |]; auto.
  destruct (Ascii.eqb c "0"); auto.
Qed.

Lemma sysfs_read_int_fails (fd : Z) (rd : option (list ascii)) :
  read_fails fd rd <-> sysfs_read_int fd rd = -1.
Proof.
  unfold read_fails, sysfs_read_int. destruct (Z.ltb_spec fd 0) as [L | L].
  - split; auto.
  - destruct rd as [[| c l] |].
    + split; auto.
    + destruct (Ascii.eqb c "0"); split; try discriminate.
      all: intros [H | [H | H]]; try discriminate; lia.
    + split; auto.
Qed.

Lemma tick_flag (s : sample) (e : enc) :
  g_button_edge (tick s e)
  = if registers s e then 1 else g_button_edge e.
Proof.
  unfold tick, registers. destruct (s_sw s =? last_sw e); reflexivity.
Qed.

Lemma debounce_level_change (s : sample) (e : enc) :
  s_sw s <> last_sw e ->
  last_sw (tick s e) = s_sw s
  /\ last_sw_time (tick s e) = s_now s
  /\ g_button_edge (tick s e)
     = if registers s e then 1 else g_button_edge e.
Proof.
  intros D. apply Z.eqb_neq in D. split; [| split].
  - unfold tick. now rewrite D.
  - unfold tick. now rewrite D.
  - apply tick_flag.
Qed.

Lemma tick_same_level (s : sample) (e : enc) :
  s_sw s = last_sw e ->
  g_button_edge (tick s e) = g_button_edge e
  /\ last_sw (tick s e) = last_sw e
  /\ last_sw_time (tick s e) = last_sw_time e.
Proof.
  intros H. unfold tick. rewrite H, Z.eqb_refl. auto.
Qed.

Lemma dt_ms_bounds (now prev : timespec) :
  normal now -> normal prev ->
  elapsed_ns now prev - 1000000 < dt_ms now prev * 1000000
  /\ dt_ms now prev * 1000000 < elapsed_ns now prev + 1000000.
Proof.
  unfold normal, elapsed_ns, dt_ms. intros Hn Hp.
  pose proof (Z.quot_rem' (tv_nsec now - tv_nsec prev) 1000000) as Q.
  assert (R : - 1000000 < Z.rem (tv_nsec now - tv_nsec prev) 1000000
              < 1000000).
  { pose proof (Z.rem_bound_abs (tv_nsec now - tv_nsec prev) 1000000
                  ltac:(lia)). lia. }
  lia.
Qed.

(** C2, as the code has it.  On an iteration whose button sample differs
    from the tracked level, the tracked level becomes the sample and the
    timestamp becomes the current instant, whatever the direction of the
    edge and whether or not it is registered; the flag is stored exactly
    when the sample is 1 and more than 50 whole milliseconds, as [dt_ms]
    counts them, have passed since the timestamp, that is since the
    previous level change.  A registered edge lies more than 50 ms after
    that change, and 51 ms or more always suffice. *)
Theorem debounce_tick (s : sample) (e : enc) :
  s_sw s <> last_sw e ->
  last_sw (tick s e) = s_sw s
  /\ last_sw_time (tick s e) = s_now s
  /\ (s_sw s = 1 /\ 50 < dt_ms (s_now s) (last_sw_time e) ->
      g_button_edge (tick s e) = 1)
  /\ (s_sw s <> 1 \/ dt_ms (s_now s) (last_sw_time e) <= 50 ->
      g_button_edge (tick s e) = g_button_edge e)
  /\ (normal (s_now s) -> normal (last_sw_time e) ->
      (50 < dt_ms (s_now s) (last_sw_time e) ->
       50 * 1000000 < elapsed_ns (s_now s) (last_sw_time e))
      /\ (51 * 1000000 <= elapsed_ns (s_now s) (last_sw_time e) ->
          50 < dt_ms (s_now s) (last_sw_time e))).
Proof.
  intros D. apply Z.eqb_neq in D.
  split; [| split; [| split; [| split]]].
  - unfold tick. now rewrite D.
  - unfold tick. now rewrite D.
  - intros [S T]. rewrite tick_flag. unfold registers.
    rewrite D, S. cbn. apply Z.ltb_lt in T. now rewrite T.
  - intros H. rewrite tick_flag. unfold registers. rewrite D. cbn.
    destruct H as [S | T].
    + apply Z.eqb_neq in S. now rewrite S.
    + apply Z.ltb_ge in T. rewrite T. now rewrite andb_false_r.
  - intros Nn Np. pose proof (dt_ms_bounds _ _ Nn Np) as B.
    split; intros T; lia.
Qed.

(** The release at 1030 ms is tracked and stamped. *)
Lemma debounce_tick_witness :
  last_sw (tick release_1030 (tick press_1000 (encoder_start 0 0 0))) = 0
  /\ last_sw_time (tick release_1030 (tick press_1000 (encoder_start 0 0 0)))
     = at_ms 1030.
Proof.
  pose proof (debounce_tick release_1030
                (tick press_1000 (encoder_start 0 0 0))) as H.
  assert (D : s_sw release_1030
              <> last_sw (tick press_1000 (encoder_start 0 0 0)))
    by (cbn; lia).
  destruct (H D) as (A & B & _). split; [exact A | exact B].
Defined.

(** C2 as stated fails: the timestamp is not the time of the last
    registered rising edge.  After the press registered at 1000 ms, the
    release at 1030 ms is a falling edge, is not registered, and moves
    the timestamp; the press at 1060 ms comes 60 ms after the registered
    edge, is not registered (30 ms since the release), and moves the
    timestamp again. *)
Lemma debounce_timestamp_counterexample :
  registers press_1000 (encoder_start 0 0 0) = true
  /\ last_sw_time (tick press_1000 (encoder_start 0 0 0)) = at_ms 1000
  /\ s_sw release_1030 = 0
  /\ last_sw (tick press_1000 (encoder_start 0 0 0)) = 1
  /\ registers release_1030 (tick press_1000 (encoder_start 0 0 0)) = false
  /\ last_sw_time (tick release_1030 (tick press_1000 (encoder_start 0 0 0)))
     = at_ms 1030
  /\ at_ms 1030 <> at_ms 1000
  /\ s_sw press_1060 = 1
  /\ elapsed_ns (s_now press_1060) (at_ms 1000) = 60 * 1000000
  /\ registers press_1060
       (tick release_1030 (tick press_1000 (encoder_start 0 0 0))) = false
  /\ last_sw_time
       (tick press_1060
          (tick release_1030 (tick press_1000 (encoder_start 0 0 0))))
     = at_ms 1060.
Proof.
  repeat split; try reflexivity. discriminate.
Qed.

End Button.

(** ** Failed reads *)

Section ReadFailures.
Import Rotary.

Lemma decode_negative (d pos : Z) : d < 0 -> decode d pos = pos.
Proof.
  destruct d; try lia. reflexivity.
Qed.

Lemma pack_failed (a b : Z) : a = -1 \/ b = -1 -> pack a b < 0.
Proof.
  intros H. unfold pack. apply Z.lor_neg. destruct H as [-> | ->].
  - left. cbn. lia.
  - right. lia.
Qed.

Lemma transition_negative (lst st : Z) :
  lst < 0 \/ st < 0 -> transition lst st < 0.
Proof.
  intros H. unfold transition. apply Z.lor_neg. destruct H as [H | H].
  - left. apply Z.shiftl_neg. exact H.
  - right. exact H.
Qed.

(** C3, as the code has it.  The thread has no notion of a skipped
    iteration: each line is processed on its own.  When the read of
    phase A or of phase B fails, the counter is left as it was on that
    iteration, and on the following one whatever it samples; when the
    button read fails, the flag is left as it was on that iteration.
    Consumers are given no error: when a phase read and the button read
    fail together, both accessors return what they returned before. *)
Theorem read_failure_tick
  (fd_a fd_b fd_sw : Z) (ra rb rsw : option (list ascii))
  (now : timespec) (e : enc) :
  (read_fails fd_a ra \/ read_fails fd_b rb ->
   g_pos (tick (poll fd_a fd_b fd_sw ra rb rsw now) e) = g_pos e
   /\ forall s',
        g_pos (tick s' (tick (poll fd_a fd_b fd_sw ra rb rsw now) e))
        = g_pos e)
  /\ (read_fails fd_sw rsw ->
      g_button_edge (tick (poll fd_a fd_b fd_sw ra rb rsw now) e)
      = g_button_edge e)
  /\ ((read_fails fd_a ra \/ read_fails fd_b rb) /\ read_fails fd_sw rsw ->
      rotaryEncoder_get_position
        (tick (poll fd_a fd_b fd_sw ra rb rsw now) e)
      = rotaryEncoder_get_position e
      /\ fst (rotaryEncoder_button_pressed
                (tick (poll fd_a fd_b fd_sw ra rb rsw now) e))
         = fst (rotaryEncoder_button_pressed e)).
Proof.
  set (s := poll fd_a fd_b fd_sw ra rb rsw now).
  assert (P : read_fails fd_a ra \/ read_fails fd_b rb ->
              pack (s_a s) (s_b s) < 0).
  { intros H. apply pack_failed. cbn.
    destruct H as [H | H]; apply sysfs_read_int_fails in H; auto. }
  assert (A : read_fails fd_a ra \/ read_fails fd_b rb ->
              g_pos (tick s e) = g_pos e).
  { intros H. rewrite tick_pos. apply decode_negative.
    apply transition_negative. right. now apply P. }
  assert (B : read_fails fd_sw rsw ->
              g_button_edge (tick s e) = g_button_edge e).
  { intros H. apply sysfs_read_int_fails in H.
    rewrite tick_flag. unfold registers. cbn [s_sw s poll]. rewrite H.
    cbn. now rewrite andb_false_r. }
  split; [| split].
  - intros H. split; [now apply A |].
    intros s'. rewrite tick_pos, tick_last, <- (A H).
    apply decode_negative, transition_negative. left. now apply P.
  - exact B.
  - intros [H1 H2]. unfold rotaryEncoder_get_position.
    split; [now apply A |]. cbn. now rewrite (B H2).
Qed.

(** With phase A unreadable the counter of a fresh thread stays 0. *)
Lemma read_failure_tick_witness :
  g_pos (tick (poll 3 4 5 None low high (at_ms 1000)) (encoder_start 0 1 0))
  = 0.
Proof.
  refine (proj1 (proj1 (read_failure_tick 3 4 5 None low high (at_ms 1000)
                          (encoder_start 0 1 0)) _)).
  left. unfold read_fails. right. left. reflexivity.
Defined.

(** C3 as stated fails.  With the knob stepping from 00 to 01 a failed
    button read does not stop the counter from moving; with phase A
    unreadable a press is still registered; and a button that stays down
    is reported a second time after one failed button read: the failure
    is stored as level -1, so the next good sample of the unchanged
    level 1 counts as a rising edge. *)
Lemma read_failure_counterexample :
  (read_fails 5 None
   /\ g_pos (encoder_start 0 0 0) = 0
   /\ g_pos (tick step_sw_fails (encoder_start 0 0 0)) = 1)
  /\ (read_fails 3 None
      /\ g_button_edge (encoder_start 0 0 0) = 0
      /\ g_button_edge (tick press_a_fails (encoder_start 0 0 0)) = 1)
  /\ (s_sw press_1000 = 1 /\ s_sw held_sw_fails = -1 /\ s_sw held_2100 = 1
      /\ fst (fst (run [Tick press_1000; ButtonPressed; Tick held_sw_fails;
                        Tick held_2100; ButtonPressed]
                       (encoder_start 0 0 0)))
         = [true; true]).
Proof.
  repeat split; try reflexivity.
  - unfold read_fails. right. left. reflexivity.
  - unfold read_fails. right. left. reflexivity.
Qed.

(** A failed button read is tracked as a level of its own.  While the
    button is tracked as pressed, an iteration whose button read fails
    sets the tracked level to -1 without touching the flag, and the next
    iteration that reads 1, if it comes more than 50 counted milliseconds
    later, stores the flag although the button was never seen released. *)
Theorem failed_button_read_reregisters (e : enc) (bad good : sample) :
  last_sw e = 1 ->
  s_sw bad = -1 ->
  s_sw good = 1 ->
  50 < dt_ms (s_now good) (s_now bad) ->
  last_sw (tick bad e) = -1
  /\ last_sw_time (tick bad e) = s_now bad
  /\ g_button_edge (tick bad e) = g_button_edge e
  /\ g_button_edge (tick good (tick bad e)) = 1.
Proof.
  intros L B G T.
  assert (D : s_sw bad <> last_sw e) by lia.
  destruct (debounce_level_change bad e D) as (L' & T' & F').
  split; [congruence | split; [exact T' | split]].
  - rewrite F'. unfold registers. rewrite B. cbn. now rewrite andb_false_r.
  - assert (D2 : s_sw good <> last_sw (tick bad e)) by lia.
    destruct (debounce_level_change good (tick bad e) D2) as (_ & _ & F2).
    rewrite F2. unfold registers. rewrite L', T', G, B. cbn.
    apply Z.ltb_lt in T. now rewrite T.
Qed.

(** The button of the scenario, held from 1000 ms on, with the read at
    2000 ms failing. *)
Lemma failed_button_read_reregisters_witness :
  g_button_edge
    (tick held_2100
       (tick held_sw_fails
          (snd (rotaryEncoder_button_pressed
                  (tick press_1000 (encoder_start 0 0 0))))))
  = 1.
Proof.
  refine (proj2 (proj2 (proj2
            (failed_button_read_reregisters
               (snd (rotaryEncoder_button_pressed
                       (tick press_1000 (encoder_start 0 0 0))))
               held_sw_fails held_2100 eq_refl eq_refl eq_refl _)))).
  reflexivity.
Defined.

End ReadFailures.

(** ** Taking the button edge *)

Section TakeEdge.
Import Rotary.

Lemma run_tick (s : sample) (evs : list event) (e : enc) :
  reports (Tick s :: evs) e = reports evs (tick s e)
  /\ registrations (Tick s :: evs) e
     = ((if registers s e then 1 else 0) + registrations evs (tick s e))%nat.
Proof.
  unfold reports, registrations. cbn [run].
  destruct (run evs (tick s e)) as [[outs n] e'].
  cbn. destruct (registers s e); auto.
Qed.

Lemma run_take (evs : list event) (e : enc) :
  reports (ButtonPressed :: evs) e
  = (pending e + reports evs (snd (rotaryEncoder_button_pressed e)))%nat
  /\ registrations (ButtonPressed :: evs) e
     = registrations evs (snd (rotaryEncoder_button_pressed e)).
Proof.
  unfold reports, registrations, pending.
  cbn [run rotaryEncoder_button_pressed snd].
  destruct (run evs _) as [[outs n] e'].
  cbn [fst snd count_occ].
  destruct (g_button_edge e =? 0); cbn [negb];
    destruct (bool_dec _ true); try discriminate; try congruence; auto.
Qed.

Lemma run_set (v : Z) (evs : list event) (e : enc) :
  reports (SetPosition v :: evs) e
  = reports evs (rotaryEncoder_set_position v e)
  /\ registrations (SetPosition v :: evs) e
     = registrations evs (rotaryEncoder_set_position v e).
Proof.
  unfold reports, registrations. cbn [run]. auto.
Qed.

Lemma reports_bounded (evs : list event) :
  forall e,
    (reports evs e <= pending e + registrations evs e)%nat.
Proof.
  induction evs as [| ev evs IH]; intros e.
  - unfold reports, registrations, pending. cbn. lia.
  - destruct ev as [s | | v].
    + destruct (run_tick s evs e) as [-> ->].
      specialize (IH (tick s e)). unfold pending in *.
      rewrite tick_flag in IH.
      destruct (registers s e); cbn in IH |- *.
      * lia.
      * destruct (g_button_edge e =? 0); lia.
    + destruct (run_take evs e) as [-> ->].
      specialize (IH (snd (rotaryEncoder_button_pressed e))).
      unfold pending in *. cbn in IH |- *.
      destruct (g_button_edge e =? 0); lia.
    + destruct (run_set v evs e) as [-> ->].
      specialize (IH (rotaryEncoder_set_position v e)). exact IH.
Qed.

Lemma held_reports (evs : list event) :
  forall e,
    last_sw e = 1 ->
    (forall s, In (Tick s) evs -> s_sw s = 1) ->
    reports evs e
    = if negb (g_button_edge e =? 0) && existsb is_take evs then 1%nat
      else 0%nat.
Proof.
  induction evs as [| ev evs IH]; intros e L H.
  - unfold reports. cbn. now rewrite andb_false_r.
  - destruct ev as [s | | v].
    + destruct (run_tick s evs e) as [-> _].
      assert (S : s_sw s = last_sw e) by (rewrite L; apply H; now left).
      destruct (tick_same_level s e S) as (F & L' & _).
      rewrite IH.
      * rewrite F. reflexivity.
      * congruence.
      * intros s' I. apply H. now right.
    + destruct (run_take evs e) as [-> _].
      rewrite IH.
      * unfold pending. cbn. destruct (g_button_edge e =? 0); reflexivity.
      * exact L.
      * intros s' I. apply H. now right.
    + destruct (run_set v evs e) as [-> _].
      rewrite IH.
      * reflexivity.
      * exact L.
      * intros s' I. apply H. now right.
Qed.

(** The exchange, and the runs in which every read of the button
    succeeds.  [rotaryEncoder_button_pressed] is one step of an
    execution: it returns true exactly when the flag was set and leaves
    the flag unset, touching nothing else; a second call right after it
    returns false; over any interleaving of iterations and consumer calls
    the calls that return true are at most the registered presses (plus
    one when the flag was set to begin with); and a registered press that
    is then held, every later iteration sampling level 1, is reported
    exactly once as soon as the consumer calls at all. *)
Theorem button_edge_taken_once :
  (forall e,
     (fst (rotaryEncoder_button_pressed e) = true <-> g_button_edge e <> 0)
     /\ g_button_edge (snd (rotaryEncoder_button_pressed e)) = 0
     /\ g_pos (snd (rotaryEncoder_button_pressed e)) = g_pos e
     /\ last_sw (snd (rotaryEncoder_button_pressed e)) = last_sw e
     /\ last_sw_time (snd (rotaryEncoder_button_pressed e)) = last_sw_time e)
  /\ (forall e,
        fst (rotaryEncoder_button_pressed
               (snd (rotaryEncoder_button_pressed e))) = false)
  /\ (forall evs e,
        (reports evs e <= pending e + registrations evs e)%nat)
  /\ (forall e p rest,
        g_button_edge e = 0 ->
        registers p e = true ->
        (forall s, In (Tick s) rest -> s_sw s = 1) ->
        reports (Tick p :: rest) e
        = if existsb is_take rest then 1%nat else 0%nat).
Proof.
  split; [| split; [| split]].
  - intros e. cbn. repeat split; auto.
    + intros H E. rewrite E in H. discriminate.
    + intros H. apply Z.eqb_neq in H. now rewrite H.
  - intros e. reflexivity.
  - intros evs e. apply reports_bounded.
  - intros e p rest F R H.
    destruct (run_tick p rest e) as [-> _].
    assert (L : last_sw (tick p e) = 1).
    { unfold registers in R. apply andb_prop in R as [R _].
      apply andb_prop in R as [D S]. apply negb_true_iff in D.
      apply Z.eqb_eq in S. unfold tick. now rewrite D. }
    rewrite (held_reports rest (tick p e) L H), tick_flag, R. reflexivity.
Qed.

(** A press that is held is reported by the first of two calls only. *)
Lemma button_edge_taken_once_witness :
  reports [Tick press_1000; ButtonPressed; Tick held_2100; ButtonPressed]
    (encoder_start 0 0 0) = 1%nat.
Proof.
  refine (proj2 (proj2 (proj2 button_edge_taken_once))
            (encoder_start 0 0 0) press_1000
            [ButtonPressed; Tick held_2100; ButtonPressed] _ _ _).
  - reflexivity.
  - reflexivity.
  - intros s [H | [H | [H | []]]]; try discriminate.
    injection H as <-. reflexivity.
Defined.

(** C4, at the failing input.  The button is pressed at 1000 ms and
    held from then on.  The consumer takes the press.  At 2000 ms the
    read of the button line fails, at 2100 ms it delivers 1 again, and the
    consumer calls once more.  No iteration samples the button as
    released, and still the thread stores the flag twice and both calls
    return true: the one held press is reported twice. *)
Theorem held_press_reported_twice :
  let evs := [Tick press_1000; ButtonPressed; Tick held_sw_fails;
              Tick held_2100; ButtonPressed] in
  (forall s, In (Tick s) evs -> s_sw s <> 0)
  /\ s_sw press_1000 = 1 /\ s_sw held_sw_fails = -1 /\ s_sw held_2100 = 1
  /\ fst (fst (run evs (encoder_start 0 0 0))) = [true; true]
  /\ reports evs (encoder_start 0 0 0) = 2%nat
  /\ registrations evs (encoder_start 0 0 0) = 2%nat.
Proof.
  cbv zeta. split; [| repeat split].
  intros s [H | [H | [H | [H | [H | []]]]]]; try discriminate H;
    injection H as <-; discriminate.
Qed.

End TakeEdge.

(** ** Stepping through HAL code *)

Ltac hal_unfold E :=
  unfold PWM0.write_ll, PWM0.write_str, PWM0.read_ll, PWM0.msleep,
    PWM0.path_exists, Servo.write_int, Servo.write_str, Servo.exists_,
    Sys.bind, Sys.ret, Sys.write, Sys.read, Sys.stat, Sys.sleep, Sys.glob,
    Sys.getenv_chip in E.

Ltac next_write E :=
  match type of E with
  | context [Sys.sys_write ?p ?v ?w] =>
      let r := fresh "r" in
      let w' := fresh "w" in
      destruct (Sys.sys_write p v w) as [r w'];
      cbn [fst snd app negb Z.eqb] in E
  end.

Ltac next_stat E :=
  match type of E with
  | context [Sys.sys_stat ?p ?w] =>
      let r := fresh "ex" in
      let w' := fresh "w" in
      destruct (Sys.sys_stat p w) as [r w'];
      cbn [fst snd app negb] in E
  end.

Ltac next_read E :=
  match type of E with
  | context [Sys.sys_read ?p ?w] =>
      let r := fresh "rd" in
      let w' := fresh "w" in
      destruct (Sys.sys_read p w) as [r w'];
      cbn [fst snd app negb] in E
  end.

(** ** Traces *)

Section Traces.
Import Sys.

Lemma accepted_app (a : attr) (t1 t2 : list call) :
  accepted a (t1 ++ t2) = accepted a t1 ++ accepted a t2.
Proof.
  induction t1 as [| c t1 IH]; [reflexivity |].
  destruct c as [p r | p v r | p r | r | ms]; cbn; try exact IH.
  destruct p; try exact IH. destruct v; try exact IH.
  destruct r; try exact IH. destruct (attr_eqb a a0); [| exact IH].
  cbn. now rewrite IH.
Qed.

Lemma committed_snoc (a : attr) (t1 t2 : list call) (v : Z) (l : list Z) :
  accepted a t2 = l ++ [v] -> committed a (t1 ++ t2) = Some v.
Proof.
  intros H. unfold committed.
  rewrite accepted_app, H, app_assoc, map_app. cbn. apply last_last.
Qed.

Lemma committed_good (chip per dty : Z) (t ok : list call) :
  PWM0.good_attempt chip per dty ok ->
  committed Period (t ++ ok) = Some per
  /\ committed DutyCycle (t ++ ok) = Some dty
  /\ committed Enable (t ++ ok) = Some 1.
Proof.
  intros [r1 r2]. split; [| split].
  - destruct r1, r2; apply committed_snoc with (l := []); reflexivity.
  - destruct r1, r2;
      first [ apply committed_snoc with (l := [1]); reflexivity
            | apply committed_snoc with (l := []); reflexivity ].
  - destruct r1, r2;
      first [ apply committed_snoc with (l := [0]); reflexivity
            | apply committed_snoc with (l := []); reflexivity ].
Qed.

Lemma slept_app (t1 t2 : list call) : slept (t1 ++ t2) = slept t1 + slept t2.
Proof.
  induction t1 as [| c t1 IH]; [reflexivity |].
  destruct c; cbn; lia.
Qed.

End Traces.

(** ** Opening the PWM channel *)

Section Pwm0Open.
Import Sys PWM0.
Context {W : Type} {P : Platform W}.

Lemma outcome_retry (chip per dty : Z) (n : nat) (g : globals) (rc : Z)
  (g' : globals) (t a : list call) :
  failed_attempt chip per dty a ->
  bring_up_outcome chip per dty n g rc g' t ->
  bring_up_outcome chip per dty (S n) g rc g' (a ++ t).
Proof.
  intros F [(R & G & fs & b & T & A & L & B) | (R & G & fs & T & A & L)].
  - left. repeat split; auto. exists (a :: fs), b. repeat split; auto.
    + cbn. rewrite T. now rewrite app_assoc.
    + cbn. lia.
  - right. repeat split; auto. exists (a :: fs). repeat split; auto.
    + cbn. now rewrite T.
    + cbn. lia.
Qed.

Ltac next_attempt E IH :=
  match type of E with
  | context [bring_up ?n ?c ?p ?d ?g ?w] =>
      let rc := fresh "rc" in
      let g' := fresh "g" in
      let w' := fresh "w" in
      let t' := fresh "t" in
      let R := fresh "R" in
      destruct (bring_up n c p d g w) as [[[rc g'] w'] t'] eqn:R;
      apply IH in R; injection E as <- <- <- <-
  end.

Lemma bring_up_shape (chip per dty : Z) (n : nat) :
  forall g w rc g' w' t,
    bring_up n chip per dty g w = (rc, g', w', t) ->
    bring_up_outcome chip per dty n g rc g' t.
Proof.
  induction n as [| n IH]; intros g w rc g' w' t E.
  - right. injection E as <- <- <- <-. repeat split.
    exists []. repeat split. constructor.
  - cbn [bring_up] in E. hal_unfold E.
    next_write E. next_write E. next_write E.
    destruct r1; cbn [negb Z.eqb] in E;
      [ next_write E; destruct r1; cbn [negb Z.eqb] in E;
        [ next_write E; destruct r1; cbn [negb Z.eqb] in E | | ] | | ].
    + injection E as <- <- <- <-. left. repeat split.
      eexists [], _. repeat split.
      * constructor.
      * cbn. lia.
    + next_attempt E IH.
      refine (outcome_retry _ _ _ _ _ _ _ _ _
                (failed_enable _ _ _ r r0 WShort _) R).
      discriminate.
    + next_attempt E IH.
      refine (outcome_retry _ _ _ _ _ _ _ _ _
                (failed_enable _ _ _ r r0 (WErr errno) _) R).
      discriminate.
    + next_attempt E IH.
      refine (outcome_retry _ _ _ _ _ _ _ _ _
                (failed_duty _ _ _ r r0 WShort _) R).
      discriminate.
    + next_attempt E IH.
      refine (outcome_retry _ _ _ _ _ _ _ _ _
                (failed_duty _ _ _ r r0 (WErr errno) _) R).
      discriminate.
    + next_attempt E IH.
      refine (outcome_retry _ _ _ _ _ _ _ _ _
                (failed_period _ _ _ r r0 WShort _) R).
      discriminate.
    + next_attempt E IH.
      refine (outcome_retry _ _ _ _ _ _ _ _ _
                (failed_period _ _ _ r r0 (WErr errno) _) R).
      discriminate.
Qed.

Lemma await_absent (chip : Z) (n : nat) :
  forall w u w' t,
    await_pwm0 n chip w = (u, w', t) ->
    Forall pwm_dir_unseen t -> t = waiting n chip.
Proof.
  induction n as [| n IH]; intros w u w' t E U.
  - now injection E as <- <- <-.
  - cbn [await_pwm0] in E. hal_unfold E. next_stat E.
    destruct ex.
    + injection E as <- <- <-. inversion U as [| c l H]. destruct H.
    + destruct (await_pwm0 n chip (sys_sleep 10 w0)) as [[u' w1] t1] eqn:A.
      injection E as <- <- <-. cbn. do 2 f_equal.
      apply (IH _ _ _ _ A). inversion U as [| c l H1 H2]. subst.
      now inversion H2.
Qed.

Lemma waiting_slept (chip : Z) (n : nat) :
  slept (waiting n chip) = 10 * Z.of_nat n.
Proof.
  induction n as [| n IH]; [reflexivity |].
  cbn [waiting slept]. rewrite IH. lia.
Qed.

Lemma waiting_no_attr (chip : Z) (n : nat) :
  Forall no_attr_write (waiting n chip).
Proof.
  induction n as [| n IH]; cbn.
  - constructor.
  - constructor; [exact I |]. constructor; [exact I | exact IH].
Qed.

Lemma absent_trace_facts (chips : list Z) (t : list call) :
  absent_trace chips t ->
  Forall no_attr_write t /\ slept t = 500 * Z.of_nat (length chips).
Proof.
  induction 1 as [| chip r rest t A [IH1 IH2]].
  - split; [constructor | reflexivity].
  - split.
    + constructor; [exact I |]. constructor; [exact I |].
      apply Forall_app. split.
      * apply waiting_no_attr.
      * constructor; [exact I | exact IH1].
    + cbn [slept]. rewrite slept_app, waiting_slept. cbn [slept length].
      rewrite IH2. lia.
Qed.

Ltac rest_of_probe E :=
  repeat match type of E with
         | context [attrs_exist ?c ?w] =>
             let ok := fresh "ok" in
             destruct (attrs_exist c w) as [[ok ?] ?]; destruct ok;
             cbn [fst snd app negb] in E
         | context [probe_chips ?l ?g ?w] =>
             destruct (probe_chips l g w) as [[[? ?] ?] ?];
             cbn [fst snd app negb] in E
         end.

Lemma probe_chips_absent (chips : list Z) :
  forall g w rc g' w' t,
    probe_chips chips g w = (rc, g', w', t) ->
    Forall pwm_dir_unseen t ->
    rc = -1 /\ g' = g /\ absent_trace chips t.
Proof.
  induction chips as [| chip rest IH]; intros g w rc g' w' t E U.
  - injection E as <- <- <- <-. repeat split. constructor.
  - cbn [probe_chips] in E. hal_unfold E. next_stat E.
    destruct ex.
    + exfalso. next_stat E.
      destruct ex; cbn [fst snd app negb] in E; rest_of_probe E;
        injection E as <- <- <- <-; inversion U as [| ? ? H]; destruct H.
    + next_write E.
      destruct (await_pwm0 50 chip w1) as [[u w2] t2] eqn:A.
      cbn [app] in E. next_stat E.
      destruct ex; cbn [fst snd app negb] in E.
      * exfalso. rest_of_probe E; injection E as <- <- <- <-;
          inversion U as [| ? ? H1 H2]; subst;
          inversion H2 as [| ? ? H3 H4]; subst;
          apply Forall_app in H4 as [_ H4]; cbn in H4;
          inversion H4 as [| ? ? H5 H6]; destruct H5.
      * destruct (probe_chips rest g w3) as [[[rc1 g1] w4] t4] eqn:R.
        injection E as <- <- <- <-.
        inversion U as [| ? ? H1 H2]. subst.
        inversion H2 as [| ? ? H3 H4]. subst.
        apply Forall_app in H4 as [H4 H5]. cbn in H5.
        inversion H5 as [| ? ? H6 H7]. subst.
        destruct (IH _ _ _ _ _ _ R H7) as (-> & -> & AT).
        repeat split.
        rewrite (await_absent _ _ _ _ _ _ A H4).
        now constructor.
Qed.

Ltac recurse E IH :=
  match type of E with
  | context [probe_chips ?l ?g ?w] =>
      let R := fresh "R" in
      destruct (probe_chips l g w) as [[[? ?] ?] ?] eqn:R;
      apply IH in R; injection E as <- <- <- <-; exact R
  end.

Ltac probe_tail E IH :=
  next_stat E;
  match goal with
  | ex : bool |- _ =>
      destruct ex; cbn [fst snd app negb] in E;
      [ match type of E with
        | context [attrs_exist ?c ?w] =>
            let ok := fresh "ok" in
            destruct (attrs_exist c w) as [[ok ?] ?]; destruct ok;
            cbn [fst snd app negb] in E;
            [ injection E as <- <- <- <-; cbn;
              split; [reflexivity | split; [reflexivity |]];
              left; split; [reflexivity | eexists; reflexivity]
            | recurse E IH ]
        end
      | recurse E IH ]
  end.

Lemma probe_chips_result (chips : list Z) :
  forall g w rc pg pw pt,
    probe_chips chips g w = (rc, pg, pw, pt) ->
    g_period_ns pg = g_period_ns g
    /\ g_duty_frac pg = g_duty_frac g
    /\ ((rc = 0 /\ exists chip, g_pwm_dir pg = Some chip)
        \/ (rc = -1 /\ pg = g)).
Proof.
  induction chips as [| chip rest IH]; intros g w rc pg pw pt E.
  - injection E as <- <- <- <-. auto.
  - cbn [probe_chips] in E. hal_unfold E. next_stat E.
    destruct ex; cbn [fst snd app negb] in E.
    + probe_tail E IH.
    + next_write E.
      destruct (await_pwm0 50 chip w1) as [[u w2] t2].
      cbn [app] in E. probe_tail E IH.
Qed.

Lemma probe_result (g : globals) (w : W) (rc : Z) (pg : globals) (pw : W)
  (pt : list call) :
  probe_find_pwm g w = (rc, pg, pw, pt) ->
  g_period_ns pg = g_period_ns g
  /\ g_duty_frac pg = g_duty_frac g
  /\ ((rc = 0 /\ exists chip, g_pwm_dir pg = Some chip)
      \/ (rc = -1 /\ pg = g)).
Proof.
  unfold probe_find_pwm. destruct (g_pwm_dir g) as [chip |] eqn:D.
  - intros E. injection E as <- <- <- <-.
    repeat split. left. split; [reflexivity | now exists chip].
  - intros E. hal_unfold E. destruct (sys_glob w) as [[chips |] w1].
    + destruct (probe_chips chips g w1) as [[[rc1 g1] w2] t2] eqn:R.
      injection E as <- <- <- <-. exact (probe_chips_result _ _ _ _ _ _ _ R).
    + injection E as <- <- <- <-. auto.
Qed.

(** How [PWM0_init] is composed of the probe and the retry loop. *)
Lemma init_after_probe (hz duty : float) (g : globals) (w : W)
  (pg : globals) (pw : W) (pt : list call) (chip : Z) :
  probe_find_pwm g w = (0, pg, pw, pt) ->
  g_pwm_dir pg = Some chip ->
  PWM0_init hz duty g w
  = (let '(r, w', t) :=
       bring_up 3 chip (period_of_hz (init_hz hz))
         (bounded_dc_from_ratio (init_duty duty) (period_of_hz (init_hz hz)))
         pg pw in
     (r, w', pt ++ t)).
Proof.
  intros E D. unfold PWM0_init, bind. rewrite E. cbn [Z.eqb negb].
  rewrite D. reflexivity.
Qed.

Lemma init_calls_prefix (hz duty : float) (g : globals) (w : W) :
  exists t,
    calls (PWM0_init hz duty g w) = calls (probe_find_pwm g w) ++ t.
Proof.
  unfold PWM0_init, bind, calls.
  destruct (probe_find_pwm g w) as [[[prc pg] pw] pt].
  destruct (negb (prc =? 0)).
  - exists []. reflexivity.
  - destruct (g_pwm_dir pg) as [chip |].
    + destruct (bring_up 3 chip _ _ pg pw) as [[[? ?] ?] t].
      now exists t.
    + exists []. reflexivity.
Qed.

Lemma init_probe_failed (hz duty : float) (g : globals) (w : W) (rc : Z)
  (pg : globals) (pw : W) (pt : list call) :
  probe_find_pwm g w = (rc, pg, pw, pt) ->
  rc <> 0 ->
  PWM0_init hz duty g w = (-1, pg, pw, pt ++ []).
Proof.
  intros E N. unfold PWM0_init, bind. rewrite E.
  apply Z.eqb_neq in N. rewrite N. reflexivity.
Qed.

Lemma off_rails_range (per dc : Z) : 2 <= per -> 0 < off_rails per dc < per.
Proof.
  intros H. unfold off_rails.
  destruct (Z.leb_spec dc 0); destruct (Z.leb_spec per 1);
    try destruct (Z.leb_spec per dc); lia.
Qed.

Lemma init_duty_cases (duty : float) :
  (PrimFloat.ltb duty 0.05 = true \/ PrimFloat.ltb 0.95 duty = true ->
   init_duty duty = 0.50%float)
  /\ (PrimFloat.ltb duty 0.05 = false -> PrimFloat.ltb 0.95 duty = false ->
      init_duty duty = duty /\ clamp_ratio duty = duty).
Proof.
  unfold init_duty, clamp_ratio. split.
  - intros [H | H].
    + rewrite H. reflexivity.
    + destruct (PrimFloat.ltb duty 0.05); [reflexivity |]. now rewrite H.
  - intros H1 H2. now rewrite H1, H2.
Qed.

(** C5, as the code has it.  A successful [PWM0_init] commits the
    period derived from the frequency, which is at least 1 ns, and, as
    duty, that period times the guarded fraction, rounded to the nearest
    nanosecond and kept off the rails: for a period of at least 2 ns the
    committed duty lies strictly between 0 and the period, that is within
    1 and the period less 1, and for a period of 1 ns it is 0.  The guard
    on the argument does not clamp: a fraction below 0.05 or above 0.95
    is replaced by 0.50, so the committed duty is then that of one half;
    a fraction inside the band is used as it is. *)
Theorem init_commits_guarded_duty (hz duty : float) (g : globals) (w : W) :
  fst (result (PWM0_init hz duty g w)) = 0 ->
  committed Period (calls (PWM0_init hz duty g w))
  = Some (period_of_hz (init_hz hz))
  /\ committed DutyCycle (calls (PWM0_init hz duty g w))
     = Some (bounded_dc_from_ratio (init_duty duty)
               (period_of_hz (init_hz hz)))
  /\ g_period_ns (snd (result (PWM0_init hz duty g w)))
     = period_of_hz (init_hz hz)
  /\ (PrimFloat.ltb duty 0.05 = true \/ PrimFloat.ltb 0.95 duty = true ->
      init_duty duty = 0.50%float
      /\ bounded_dc_from_ratio (init_duty duty) (period_of_hz (init_hz hz))
         = off_rails (period_of_hz (init_hz hz))
             (llround (PrimFloat.mul 0.50 (double_of_ll
                                             (period_of_hz (init_hz hz))))))
  /\ (PrimFloat.ltb duty 0.05 = false -> PrimFloat.ltb 0.95 duty = false ->
      init_duty duty = duty
      /\ bounded_dc_from_ratio (init_duty duty) (period_of_hz (init_hz hz))
         = off_rails (period_of_hz (init_hz hz))
             (llround (PrimFloat.mul duty (double_of_ll
                                             (period_of_hz (init_hz hz))))))
  /\ 1 <= period_of_hz (init_hz hz)
  /\ (2 <= period_of_hz (init_hz hz) ->
      1 <= bounded_dc_from_ratio (init_duty duty) (period_of_hz (init_hz hz))
        <= period_of_hz (init_hz hz) - 1)
  /\ (period_of_hz (init_hz hz) = 1 ->
      bounded_dc_from_ratio (init_duty duty) (period_of_hz (init_hz hz)) = 0).
Proof.
  intros OK.
  assert (C : committed Period (calls (PWM0_init hz duty g w))
              = Some (period_of_hz (init_hz hz))
              /\ committed DutyCycle (calls (PWM0_init hz duty g w))
                 = Some (bounded_dc_from_ratio (init_duty duty)
                           (period_of_hz (init_hz hz)))
              /\ g_period_ns (snd (result (PWM0_init hz duty g w)))
                 = period_of_hz (init_hz hz)).
  { destruct (probe_find_pwm g w) as [[[prc pg] pw] pt] eqn:E.
    destruct (probe_result _ _ _ _ _ _ E)
      as (_ & _ & [(-> & chip & D) | (-> & _)]).
    - rewrite (init_after_probe hz duty g w pg pw pt chip E D) in *.
      destruct (bring_up 3 chip _ _ pg pw) as [[[rc g'] w'] t] eqn:B.
      apply bring_up_shape in B. unfold result, calls in *. cbn in OK |- *.
      destruct B as [(_ & -> & fs & a & -> & _ & _ & G) | (-> & _)];
        [| discriminate OK].
      rewrite app_assoc.
      destruct (committed_good _ _ _ (pt ++ concat fs) a G) as (A & B & _).
      repeat split; assumption.
    - exfalso. unfold PWM0_init, bind in OK. rewrite E in OK.
      discriminate OK. }
  destruct C as (C1 & C2 & C3).
  split; [exact C1 | split; [exact C2 | split; [exact C3 |]]].
  destruct (init_duty_cases duty) as [Out In].
  split; [| split; [| split; [| split]]].
  - intros H. rewrite (Out H). split; reflexivity.
  - intros H1 H2. destruct (In H1 H2) as [I K]. rewrite I. split; [reflexivity |].
    unfold bounded_dc_from_ratio. now rewrite K.
  - unfold period_of_hz.
    destruct (Z.ltb_spec (llround (PrimFloat.div 1e9 (init_hz hz))) 1); lia.
  - intros H. unfold bounded_dc_from_ratio.
    pose proof (off_rails_range (period_of_hz (init_hz hz))
                  (llround (PrimFloat.mul (clamp_ratio (init_duty duty))
                              (double_of_ll (period_of_hz (init_hz hz)))))
                  H).
    lia.
  - intros H. unfold bounded_dc_from_ratio. rewrite H. unfold off_rails.
    set (dc := llround _).
    destruct (Z.leb_spec dc 0); [reflexivity |].
    destruct (Z.leb_spec 1 dc); [reflexivity | lia].
Qed.

(** C6.  Once the probe has chosen a channel, [PWM0_init] runs the
    five-step pass (disable, duty 1 ns, period, bounded duty, enable) at
    most three times: it returns 0 after fewer than three failed passes
    followed by a pass whose last three writes are accepted, and then
    caches period and ratio; it returns -1 after exactly three failed
    passes and then leaves the cache as the probe left it, which is as it
    was.  While no channel has been chosen and every check for a [pwm0]
    directory is answered with no, it returns -1, changes nothing, writes
    to no attribute of any channel (so enables none), and per chip waits
    through fifty checks 10 ms apart, 500 ms in all. *)
Theorem init_retry_ladder (hz duty : float) (g : globals) (w : W) :
  (forall pg pw pt chip,
     probe_find_pwm g w = (0, pg, pw, pt) ->
     g_pwm_dir pg = Some chip ->
     g_period_ns pg = g_period_ns g
     /\ g_duty_frac pg = g_duty_frac g
     /\ exists t,
          calls (PWM0_init hz duty g w) = pt ++ t
          /\ bring_up_outcome chip (period_of_hz (init_hz hz))
               (bounded_dc_from_ratio (init_duty duty)
                  (period_of_hz (init_hz hz)))
               3 pg
               (fst (result (PWM0_init hz duty g w)))
               (snd (result (PWM0_init hz duty g w))) t)
  /\ (g_pwm_dir g = None ->
      Forall pwm_dir_unseen (calls (PWM0_init hz duty g w)) ->
      fst (result (PWM0_init hz duty g w)) = -1
      /\ snd (result (PWM0_init hz duty g w)) = g
      /\ Forall no_attr_write (calls (PWM0_init hz duty g w))
      /\ (calls (PWM0_init hz duty g w) = [CGlob None]
          \/ exists chips t,
               calls (PWM0_init hz duty g w) = CGlob (Some chips) :: t
               /\ absent_trace chips t
               /\ slept t = 500 * Z.of_nat (length chips))).
Proof.
  split.
  - intros pg pw pt chip E D.
    destruct (probe_result _ _ _ _ _ _ E) as (A & B & _).
    split; [exact A | split; [exact B |]].
    rewrite (init_after_probe hz duty g w pg pw pt chip E D).
    destruct (bring_up 3 chip _ _ pg pw) as [[[rc g'] w'] t] eqn:R.
    exists t. split; [reflexivity |].
    exact (bring_up_shape _ _ _ _ _ _ _ _ _ _ R).
  - intros D U.
    destruct (probe_find_pwm g w) as [[[prc pg] pw] pt] eqn:E.
    assert (U1 : Forall pwm_dir_unseen pt).
    { destruct (init_calls_prefix hz duty g w) as [t T].
      rewrite T, E in U. now apply Forall_app in U as [U _]. }
    assert (F : prc = -1 /\ pg = g
                /\ (pt = [CGlob None]
                    \/ exists chips t,
                         pt = CGlob (Some chips) :: t
                         /\ absent_trace chips t)).
    { unfold probe_find_pwm in E. rewrite D in E. hal_unfold E.
      destruct (sys_glob w) as [[chips |] w1].
      - destruct (probe_chips chips g w1) as [[[rc1 g1] w2] t2] eqn:R.
        injection E as <- <- <- <-. inversion U1 as [| ? ? _ U2]. subst.
        destruct (probe_chips_absent _ _ _ _ _ _ _ R U2) as (-> & -> & AT).
        repeat split. right. now exists chips, t2.
      - injection E as <- <- <- <-. repeat split. now left. }
    destruct F as (-> & -> & F).
    rewrite (init_probe_failed hz duty g w (-1) g pw pt E ltac:(discriminate)).
    cbn [result calls fst snd]. rewrite app_nil_r.
    split; [reflexivity | split; [reflexivity |]].
    destruct F as [-> | (chips & t & -> & AT)].
    + split; [repeat constructor | now left].
    + destruct (absent_trace_facts _ _ AT) as [N S]. split.
      * constructor; [exact I | exact N].
      * right. now exists chips, t.
Qed.

End Pwm0Open.

(** ** Changing duty and frequency *)

Section Pwm0Duty.
Import Sys PWM0.
Context {W : Type} {P : Platform W}.

Ltac fallback_on N :=
  match goal with
  | |- set_duty_calls ?c ?dc _
         [CWrite _ _ ?rr; CRead _ ?en; CWrite _ _ ?r0; _; CWrite _ _ ?r1;
          CWrite _ _ ?r2; CWrite _ _ ?r3] =>
      refine (duty_fallback_on c dc rr r0 r1 r2 r3 en N _)
  end.

Ltac fallback_off N :=
  match goal with
  | |- set_duty_calls ?c ?dc _
         [CWrite _ _ ?rr; CRead _ _; CWrite _ _ ?r0; _; CWrite _ _ ?r1;
          CWrite _ _ ?r2] =>
      exact (duty_fallback_off c dc rr r0 r1 r2 N)
  end.

Lemma duty_fallback_shape (chip dc : Z) (g : globals) (w : W) (rr : wres)
  (rc : Z) (g' : globals) (w' : W) (t : list call) :
  rr <> WOk ->
  duty_fallback chip dc g w = (rc, g', w', t) ->
  g' = g
  /\ set_duty_calls chip dc rc
       (CWrite (AttrFile chip 0 DutyCycle) (Num dc) rr :: t).
Proof.
  intros N E. unfold duty_fallback in E. hal_unfold E.
  next_read E. next_write E. next_write E. next_write E.
  destruct rd as [v |].
  - destruct (Z.ltb_spec v 0) as [L | L].
    + cbn [negb Z.eqb] in E. next_write E.
      destruct r1; injection E as <- <- <- <-; (split; [reflexivity |]);
        fallback_on N; intros H; injection H; lia.
    + destruct (Z.eqb_spec v 0) as [-> | V]; cbn [negb] in E.
      * destruct r1; injection E as <- <- <- <-; (split; [reflexivity |]);
          fallback_off N.
      * next_write E.
        destruct r1; injection E as <- <- <- <-; (split; [reflexivity |]);
          fallback_on N; congruence.
  - cbn [Z.ltb Z.compare negb Z.eqb] in E. next_write E.
    destruct r1; injection E as <- <- <- <-; (split; [reflexivity |]);
      fallback_on N; discriminate.
Qed.

Lemma set_duty_store_shape (chip : Z) (duty : float) (g : globals) (w : W)
  (rc : Z) (g' : globals) (w' : W) (t : list call) :
  set_duty_store chip duty g w = (rc, g', w', t) ->
  g' = set_cache g (g_period_ns g) duty
  /\ set_duty_calls chip (bounded_dc_from_ratio duty (g_period_ns g)) rc t.
Proof.
  intros E. unfold set_duty_store in E. cbn [g_duty_frac g_period_ns set_cache] in E.
  unfold bind at 1 in E. unfold write_ll, write_str in E. hal_unfold E.
  next_write E.
  destruct r; cbn [negb Z.eqb] in E.
  - injection E as <- <- <- <-. split; [reflexivity | constructor].
  - destruct (duty_fallback chip _ _ w0) as [[[rc1 g1] w1] t1] eqn:F.
    injection E as <- <- <- <-.
    apply (duty_fallback_shape _ _ _ _ WShort) in F; [| discriminate].
    destruct F as [-> F]. split; [reflexivity | exact F].
  - destruct (duty_fallback chip _ _ w0) as [[[rc1 g1] w1] t1] eqn:F.
    injection E as <- <- <- <-.
    apply (duty_fallback_shape _ _ _ _ (WErr errno)) in F; [| discriminate].
    destruct F as [-> F]. split; [reflexivity | exact F].
Qed.



Lemma known_period_shape (chip : Z) (g : globals) (w : W) (p : option Z)
  (w0 : W) (t0 : list call) :
  known_period chip g w = (p, w0, t0) ->
  Forall no_attr_write t0
  /\ match p with
     | Some per =>
         0 < per
         /\ (t0 = [] \/ t0 = [CRead (AttrFile chip 0 Period) (Some per)])
     | None =>
         g_period_ns g <= 0
         /\ exists r, t0 = [CRead (AttrFile chip 0 Period) r]
     end.
Proof.
  unfold known_period. destruct (Z.leb_spec (g_period_ns g) 0) as [L | L].
  - intros E. hal_unfold E. next_read E.
    destruct rd as [v |].
    + destruct (Z.leb_spec v 0); injection E as <- <- <-.
      * split; [repeat constructor |]. split; [exact L |]. now eexists.
      * split; [repeat constructor |]. split; [lia |]. now right.
    + injection E as <- <- <-.
      split; [repeat constructor |]. split; [exact L |]. now eexists.
  - intros E. injection E as <- <- <-.
    split; [constructor |]. split; [exact L | now left].
Qed.

Lemma set_duty_after_guards (chip : Z) (duty : float) (g : globals) (w : W)
  (per : Z) (w0 : W) (t0 : list call) :
  g_pwm_dir g = Some chip ->
  known_period chip g w = (Some per, w0, t0) ->
  PWM0_set_duty duty g w
  = (let '(r, w', t) :=
       set_duty_store chip duty (set_cache g per (g_duty_frac g)) w0 in
     (r, w', t0 ++ t)).
Proof.
  intros D K. unfold PWM0_set_duty. rewrite D. unfold bind. now rewrite K.
Qed.

Lemma set_duty_stopped (chip : Z) (duty : float) (g : globals) (w : W)
  (w0 : W) (t0 : list call) :
  g_pwm_dir g = Some chip ->
  known_period chip g w = (None, w0, t0) ->
  PWM0_set_duty duty g w = (-1, g, w0, t0 ++ []).
Proof.
  intros D K. unfold PWM0_set_duty. rewrite D. unfold bind. now rewrite K.
Qed.

Lemma clamp_ratio_cases (ratio : float) :
  (PrimFloat.ltb ratio 0.05 = true -> clamp_ratio ratio = 0.05%float)
  /\ (PrimFloat.ltb ratio 0.05 = false -> PrimFloat.ltb 0.95 ratio = true ->
      clamp_ratio ratio = 0.95%float)
  /\ (PrimFloat.ltb ratio 0.05 = false -> PrimFloat.ltb 0.95 ratio = false ->
      clamp_ratio ratio = ratio).
Proof.
  unfold clamp_ratio. repeat split.
  - intros ->. reflexivity.
  - intros -> ->. reflexivity.
  - intros -> ->. reflexivity.
Qed.

(** C7, as the code has it.  With a channel chosen and a period known
    (the cached one when positive, else the one read back),
    [PWM0_set_duty] computes one target value: the period times the
    ratio, where the ratio is the argument inside the band and 0.05 or
    0.95 outside it, rounded to the nearest nanosecond and then kept off
    the rails.  For a period of at least 2 ns the target lies strictly
    between 0 and the period.  After the read of the period, if any, the
    calls are the direct write of the target alone when it is accepted;
    when it is rejected, the fallback reads [enable], writes [enable] 0,
    primes the duty with 1 ns, writes the target again and writes
    [enable] 1 unless [enable] read 0, an unreadable [enable] counting
    as enabled; the call then returns 0 exactly when the second write of
    the target is accepted. *)
Theorem duty_written_off_rails (duty : float) (g : globals) (w : W)
  (chip per : Z) (w0 : W) (t0 : list call) :
  g_pwm_dir g = Some chip ->
  known_period chip g w = (Some per, w0, t0) ->
  0 < per
  /\ (2 <= per -> 0 < bounded_dc_from_ratio duty per < per)
  /\ (PrimFloat.ltb duty 0.05 = true ->
      bounded_dc_from_ratio duty per
      = off_rails per (llround (PrimFloat.mul 0.05 (double_of_ll per))))
  /\ (PrimFloat.ltb duty 0.05 = false -> PrimFloat.ltb 0.95 duty = true ->
      bounded_dc_from_ratio duty per
      = off_rails per (llround (PrimFloat.mul 0.95 (double_of_ll per))))
  /\ (PrimFloat.ltb duty 0.05 = false -> PrimFloat.ltb 0.95 duty = false ->
      bounded_dc_from_ratio duty per
      = off_rails per (llround (PrimFloat.mul duty (double_of_ll per))))
  /\ (exists t,
        calls (PWM0_set_duty duty g w) = t0 ++ t
        /\ set_duty_calls chip (bounded_dc_from_ratio duty per)
             (fst (result (PWM0_set_duty duty g w))) t)
  /\ snd (result (PWM0_set_duty duty g w)) = set_cache g per duty.
Proof.
  intros D K.
  destruct (known_period_shape _ _ _ _ _ _ K) as (_ & Hp & _).
  destruct (clamp_ratio_cases duty) as (Lo & Hi & In).
  split; [exact Hp |].
  split; [| split; [| split; [| split]]].
  - intros H. unfold bounded_dc_from_ratio. now apply off_rails_range.
  - intros H. unfold bounded_dc_from_ratio. now rewrite (Lo H).
  - intros H1 H2. unfold bounded_dc_from_ratio. now rewrite (Hi H1 H2).
  - intros H1 H2. unfold bounded_dc_from_ratio. now rewrite (In H1 H2).
  - rewrite (set_duty_after_guards chip duty g w per w0 t0 D K).
    destruct (set_duty_store chip duty _ w0) as [[[rc g'] w'] t] eqn:E.
    destruct (set_duty_store_shape _ _ _ _ _ _ _ _ E) as [-> S].
    cbn [result calls fst snd g_period_ns set_cache] in *.
    split; [| reflexivity]. now exists t.
Qed.

Ltac all_duty :=
  repeat (apply Forall_cons; [cbn; auto |]); apply Forall_nil.

Lemma fast_path_a_shape (chip per dty : Z) (w : W) (ok : bool) (w' : W)
  (t : list call) :
  fast_path_a chip per dty w = (ok, w', t) ->
  Forall (duty_among [1; dty]) t
  /\ (ok = true -> accepted DutyCycle t = [dty]).
Proof.
  intros E. unfold fast_path_a in E. hal_unfold E. next_write E.
  destruct r; cbn [Z.eqb] in E.
  - next_write E. destruct r; injection E as <- <- <-;
      (split; [all_duty | cbn; congruence]).
  - injection E as <- <- <-. split; [all_duty | discriminate].
  - injection E as <- <- <-. split; [all_duty | discriminate].
Qed.

Lemma fast_path_b_shape (chip per dty : Z) (w : W) (ok : bool) (w' : W)
  (t : list call) :
  fast_path_b chip per dty w = (ok, w', t) ->
  Forall (duty_among [1; dty]) t
  /\ (ok = true -> accepted DutyCycle t = [1; dty]).
Proof.
  intros E. unfold fast_path_b in E. hal_unfold E. next_write E.
  destruct r; cbn [Z.eqb] in E.
  - next_write E. destruct r; cbn [Z.eqb] in E.
    + next_write E. destruct r; injection E as <- <- <-;
        (split; [all_duty | cbn; congruence]).
    + injection E as <- <- <-.
      split; [all_duty | discriminate].
    + injection E as <- <- <-.
      split; [all_duty | discriminate].
  - injection E as <- <- <-.
    split; [all_duty | discriminate].
  - injection E as <- <- <-.
    split; [all_duty | discriminate].
Qed.

Lemma freq_outcome_after (per dty : Z) (g : globals) (rc : Z) (g' : globals)
  (t0 t : list call) :
  Forall (duty_among [1; dty]) t0 ->
  freq_outcome per dty g rc g' t ->
  freq_outcome per dty g rc g' (t0 ++ t).
Proof.
  intros F0 [F [(R & G & l & A) | (R & G)]]; split.
  - apply Forall_app. now split.
  - left. repeat split; auto. exists (accepted DutyCycle t0 ++ l).
    now rewrite accepted_app, A, app_assoc.
  - apply Forall_app. now split.
  - right. now split.
Qed.

Lemma freq_fallback_shape (chip per dty : Z) (n : nat) :
  forall g w rc g' w' t,
    freq_fallback n chip per dty g w = (rc, g', w', t) ->
    freq_outcome per dty g rc g' t.
Proof.
  induction n as [| n IH]; intros g w rc g' w' t E.
  - injection E as <- <- <- <-. split; [constructor | now right].
  - cbn [freq_fallback] in E. hal_unfold E.
    next_write E. next_write E. next_write E.
    destruct r1; cbn [Z.eqb andb] in E.
    1: next_write E; destruct r1; cbn [Z.eqb andb] in E.
    1: next_write E; destruct r1; cbn [Z.eqb negb] in E.
    1: { injection E as <- <- <- <-. split.
         - all_duty.
         - left. repeat split.
           destruct r, r0; first [now exists [1] | now exists []]. }
    all: try next_write E.
    all: match type of E with
         | context [freq_fallback ?m ?c ?p ?d ?g0 ?w] =>
             let R := fresh "R" in
             let t1 := fresh "t" in
             destruct (freq_fallback m c p d g0 w)
               as [[[? ?] ?] t1] eqn:R;
             apply IH in R; injection E as <- <- <- <-;
             match goal with
             | |- freq_outcome _ _ _ _ _ ?l =>
                 let rec split_at l acc :=
                   lazymatch l with
                   | t1 => constr:(acc)
                   | ?x :: ?l' => split_at l' constr:(acc ++ [x])
                   end in
                 let pre := split_at l constr:(@nil call) in
                 change l with (pre ++ t1)
             end;
             apply freq_outcome_after; [all_duty | exact R]
         end.
Qed.

Lemma freq_outcome_done (per dty : Z) (g : globals) (t : list call)
  (l : list Z) :
  Forall (duty_among [1; dty]) t ->
  accepted DutyCycle t = l ++ [dty] ->
  freq_outcome per dty g 0
    (set_cache g per (PrimFloat.div (double_of_ll dty) (double_of_ll per)))
    (t ++ []).
Proof.
  intros F A. rewrite app_nil_r. split; [exact F |].
  left. repeat split. now exists l.
Qed.

Lemma set_freq_shape (hz : float) (g : globals) (w : W) (chip : Z)
  (rc : Z) (g' : globals) (w' : W) (t : list call) :
  g_pwm_dir g = Some chip ->
  PrimFloat.leb hz 0 = false ->
  PWM0_set_freq hz g w = (rc, g', w', t) ->
  freq_outcome (period_of_hz hz)
    (bounded_dc_from_ratio (g_duty_frac g) (period_of_hz hz)) g rc g' t.
Proof.
  intros D H E. unfold PWM0_set_freq in E. rewrite D, H in E.
  set (per := period_of_hz hz) in *.
  set (dty := bounded_dc_from_ratio (g_duty_frac g) per) in *.
  unfold bind at 1 in E.
  destruct (read_ll (AttrFile chip 0 Enable) w) as [[was w1] t1] eqn:R1.
  assert (F1 : Forall (duty_among [1; dty]) t1).
  { unfold read_ll in R1. hal_unfold R1. next_read R1.
    injection R1 as <- <- <-. all_duty. }
  unfold bind at 1 in E.
  match type of E with
  | context [(if was =? 0 then ?a else ?b) w1] =>
      destruct ((if was =? 0 then a else b) w1) as [[u w2] t2] eqn:R2
  end.
  assert (F2 : Forall (duty_among [1; dty]) t2).
  { destruct (was =? 0).
    - hal_unfold R2. next_write R2. injection R2 as <- <- <-. all_duty.
    - injection R2 as <- <- <-. all_duty. }
  assert (K : forall rc2 g2 w5 t4,
             freq_outcome per dty g rc2 g2 t4 ->
             (rc2, g2, w5, t1 ++ t2 ++ t4) = (rc, g', w', t) ->
             freq_outcome per dty g rc g' t).
  { intros rc2 g2 w5 t4 O Q. injection Q as <- <- <- <-.
    repeat (apply freq_outcome_after; [assumption |]). exact O. }
  unfold bind at 1 in E.
  destruct (fast_path_a chip per dty w2) as [[a w3] t3] eqn:A.
  destruct (fast_path_a_shape _ _ _ _ _ _ _ A) as [F3 OKa].
  destruct a.
  - refine (K 0 _ w3 (t3 ++ []) _ E).
    apply (freq_outcome_done per dty g t3 []); [exact F3 | now apply OKa].
  - unfold bind at 1 in E.
    destruct (fast_path_b chip per dty w3) as [[b w4] t4] eqn:B.
    destruct (fast_path_b_shape _ _ _ _ _ _ _ B) as [F4 OKb].
    destruct b.
    + refine (K 0 _ w4 (t3 ++ t4 ++ []) _ E).
      apply freq_outcome_after; [exact F3 |].
      apply (freq_outcome_done per dty g t4 [1]); [exact F4 | now apply OKb].
    + destruct (freq_fallback 2 chip per dty g w4) as [[[rc5 g5] w5] t5] eqn:R.
      refine (K rc5 g5 w5 (t3 ++ t4 ++ t5) _ E).
      apply freq_outcome_after; [exact F3 |].
      apply freq_outcome_after; [exact F4 |].
      exact (freq_fallback_shape _ _ _ _ _ _ _ _ _ _ R).
Qed.

Lemma raw_ratio_stored (duty : float) (g : globals) (w : W)
  (chip per : Z) (w0 : W) (t0 : list call) :
  g_pwm_dir g = Some chip ->
  known_period chip g w = (Some per, w0, t0) ->
  g_duty_frac (snd (result (PWM0_set_duty duty g w))) = duty
  /\ g_pwm_dir (snd (result (PWM0_set_duty duty g w))) = Some chip
  /\ (fst (result (PWM0_set_duty duty g w)) = 0
      \/ fst (result (PWM0_set_duty duty g w)) = -1)
  /\ forall hz w2,
       PrimFloat.leb hz 0 = false ->
       Forall (duty_among [1; bounded_dc_from_ratio duty (period_of_hz hz)])
         (calls (PWM0_set_freq hz (snd (result (PWM0_set_duty duty g w))) w2))
       /\ (fst (result (PWM0_set_freq hz
                          (snd (result (PWM0_set_duty duty g w))) w2)) = 0 ->
           committed DutyCycle
             (calls (PWM0_set_freq hz
                       (snd (result (PWM0_set_duty duty g w))) w2))
           = Some (bounded_dc_from_ratio duty (period_of_hz hz))
           /\ g_duty_frac
                (snd (result (PWM0_set_freq hz
                                (snd (result (PWM0_set_duty duty g w))) w2)))
              = PrimFloat.div
                  (double_of_ll
                     (bounded_dc_from_ratio duty (period_of_hz hz)))
                  (double_of_ll (period_of_hz hz))).
Proof.
  intros D K.
  rewrite (set_duty_after_guards chip duty g w per w0 t0 D K).
  destruct (set_duty_store chip duty _ w0) as [[[rc g1] w1] t1] eqn:E.
  destruct (set_duty_store_shape _ _ _ _ _ _ _ _ E) as [-> C].
  cbn [result calls fst snd g_period_ns g_pwm_dir g_duty_frac set_cache] in *.
  split; [reflexivity | split; [exact D | split]].
  - inversion C; subst; auto;
      match goal with |- context [match ?r with _ => _ end] =>
        destruct r; auto end.
  - intros hz w2 H.
    match goal with
    | |- context [PWM0_set_freq hz ?g' w2] =>
        destruct (PWM0_set_freq hz g' w2) as [[[rc2 g2] w3] t2] eqn:F;
        apply (set_freq_shape hz g' w2 chip) in F; [| exact D | exact H]
    end.
    cbn [g_duty_frac set_cache] in F. cbn [result calls fst snd].
    destruct F as [FA [(-> & -> & l & A) | (-> & ->)]].
    + split; [exact FA |]. intros _. split.
      * apply (committed_snoc DutyCycle [] t2 _ l A).
      * reflexivity.
    + split; [exact FA |]. discriminate.
Qed.

(** C10, as the code has it.  Two guards stand before the store: without
    a chosen channel [PWM0_set_duty] fails at once, and with no cached
    period and no positive period to read back it fails after that one
    read, having written nothing; either way the module state, and with
    it the remembered ratio, is left as it was.  Past the guards the raw
    argument is what is remembered, whatever the writes that follow do
    and whether the call returns 0 or -1, also for an argument outside
    the band.  A following [PWM0_set_freq] writes no other duty than
    1 ns and the new period times that raw value put through the guards,
    so the clamping happens there, and on success it replaces the
    remembered ratio by the committed one. *)
Theorem raw_ratio_remembered (duty : float) (g : globals) (w : W) :
  (g_pwm_dir g = None -> PWM0_set_duty duty g w = (-1, g, w, []))
  /\ (forall chip w0 t0,
        g_pwm_dir g = Some chip ->
        known_period chip g w = (None, w0, t0) ->
        PWM0_set_duty duty g w = (-1, g, w0, t0 ++ [])
        /\ Forall no_attr_write t0)
  /\ (forall chip per w0 t0,
        g_pwm_dir g = Some chip ->
        known_period chip g w = (Some per, w0, t0) ->
        g_duty_frac (snd (result (PWM0_set_duty duty g w))) = duty
        /\ g_pwm_dir (snd (result (PWM0_set_duty duty g w))) = Some chip
        /\ (fst (result (PWM0_set_duty duty g w)) = 0
            \/ fst (result (PWM0_set_duty duty g w)) = -1)
        /\ forall hz w2,
             PrimFloat.leb hz 0 = false ->
             Forall
               (duty_among
                  [1; bounded_dc_from_ratio duty (period_of_hz hz)])
               (calls (PWM0_set_freq hz
                         (snd (result (PWM0_set_duty duty g w))) w2))
             /\ (fst (result (PWM0_set_freq hz
                                (snd (result (PWM0_set_duty duty g w)))
                                w2)) = 0 ->
                 committed DutyCycle
                   (calls (PWM0_set_freq hz
                             (snd (result (PWM0_set_duty duty g w))) w2))
                 = Some (bounded_dc_from_ratio duty (period_of_hz hz))
                 /\ g_duty_frac
                      (snd (result
                              (PWM0_set_freq hz
                                 (snd (result (PWM0_set_duty duty g w)))
                                 w2)))
                    = PrimFloat.div
                        (double_of_ll
                           (bounded_dc_from_ratio duty (period_of_hz hz)))
                        (double_of_ll (period_of_hz hz)))).
Proof.
  split; [| split].
  - intros D. unfold PWM0_set_duty. now rewrite D.
  - intros chip w0 t0 D K. split.
    + exact (set_duty_stopped chip duty g w w0 t0 D K).
    + exact (proj1 (known_period_shape _ _ _ _ _ _ K)).
  - intros chip per w0 t0 D K.
    exact (raw_ratio_stored duty g w chip per w0 t0 D K).
Qed.

End Pwm0Duty.

(** *** On the scripted board *)

Section Pwm0Runs.
Import Sys PWM0.

(** Opened at 50 Hz with the fraction 0.5: 10 ms of the 20 ms period. *)
Lemma init_commits_guarded_duty_witness :
  committed DutyCycle (calls (PWM0_init 50 0.5 startup Script.healthy))
  = Some 10000000.
Proof.
  exact (proj1 (proj2 (init_commits_guarded_duty 50 0.5 startup
                         Script.healthy eq_refl))).
Defined.

(** C5 as stated fails.  At 50 Hz the period is 20,000,000 ns; opened
    with the fraction 0.01 the channel is committed at 10,000,000 ns,
    one half of the period, not at the 1,000,000 ns that 5% would be;
    opened with 0.99 it is committed at 10,000,000 ns again, not at the
    19,000,000 ns that 95% would be.  And opened at 1 GHz with the
    fraction 0.5 the period is 1 ns and the committed duty is 0, which is
    no value inside a band of the period. *)
Lemma init_duty_not_clamped_counterexample :
  (fst (result (PWM0_init 50 0.01 startup Script.healthy)) = 0
   /\ committed Period (calls (PWM0_init 50 0.01 startup Script.healthy))
      = Some 20000000
   /\ committed DutyCycle (calls (PWM0_init 50 0.01 startup Script.healthy))
      = Some 10000000
   /\ bounded_dc_from_ratio (P := Script.platform) 0.05 20000000 = 1000000)
  /\ (fst (result (PWM0_init 50 0.99 startup Script.healthy)) = 0
      /\ committed DutyCycle
           (calls (PWM0_init 50 0.99 startup Script.healthy))
         = Some 10000000
      /\ bounded_dc_from_ratio (P := Script.platform) 0.95 20000000
         = 19000000)
  /\ (fst (result (PWM0_init 1e9 0.5 startup Script.healthy)) = 0
      /\ committed Period (calls (PWM0_init 1e9 0.5 startup Script.healthy))
         = Some 1
      /\ committed DutyCycle
           (calls (PWM0_init 1e9 0.5 startup Script.healthy))
         = Some 0).
Proof.
  vm_compute. repeat split.
Qed.

(** A first pass whose period write is rejected is followed by a pass
    that succeeds; and with two chips whose [pwm0] never appears the
    call fails. *)
Lemma init_retry_ladder_witness :
  (exists t,
     calls (PWM0_init 50 0.5 startup
              (Script.with_writes [WOk; WOk; WErr 22]))
     = calls (probe_find_pwm startup
                (Script.with_writes [WOk; WOk; WErr 22])) ++ t
     /\ bring_up_outcome 0 20000000 10000000 3
          {| g_pwm_dir := Some 0; g_period_ns := 0; g_duty_frac := 0.5 |}
          0
          {| g_pwm_dir := Some 0; g_period_ns := 20000000;
             g_duty_frac := 0.5 |}
          t)
  /\ fst (result (PWM0_init 50 0.5 startup (Script.absent [0; 1]))) = -1.
Proof.
  split.
  - refine (proj2 (proj2
              (proj1 (init_retry_ladder 50 0.5 startup
                        (Script.with_writes [WOk; WOk; WErr 22]))
                 _ _ _ 0 eq_refl eq_refl))).
  - refine (proj1
              (proj2 (init_retry_ladder 50 0.5 startup (Script.absent [0; 1]))
                 eq_refl _)).
    vm_compute. repeat constructor.
Defined.

(** The fraction 0 at 50 Hz: 5% of the period, through the fallback. *)
Lemma duty_written_off_rails_witness :
  0 < bounded_dc_from_ratio (P := Script.platform) 0 20000000 < 20000000
  /\ bounded_dc_from_ratio (P := Script.platform) 0 20000000 = 1000000
  /\ exists t,
       calls (PWM0_set_duty 0 Script.opened_50hz Script.unreadable_disabled)
       = [] ++ t
       /\ set_duty_calls 0 1000000
            (fst (result (PWM0_set_duty 0 Script.opened_50hz
                            Script.unreadable_disabled)))
            t.
Proof.
  pose proof (duty_written_off_rails 0 Script.opened_50hz
                Script.unreadable_disabled 0 20000000
                Script.unreadable_disabled [] eq_refl eq_refl)
    as (_ & A & B & _ & _ & C & _).
  split; [apply A; vm_compute; discriminate |].
  split; [exact (B eq_refl) | exact C].
Defined.

(** C7 as stated fails.  Opened at 1 GHz the period is 1 ns, and the
    successful [PWM0_set_duty 0.5] then writes the duty 0.  And on a
    channel that is disabled, whose [enable] cannot be read and which
    rejects the direct write, the call succeeds through the fallback and
    leaves the channel enabled. *)
Lemma set_duty_counterexample :
  (g_period_ns Script.opened_1ghz = 1
   /\ fst (result (PWM0_set_duty 0.5 Script.opened_1ghz Script.healthy)) = 0
   /\ calls (PWM0_set_duty 0.5 Script.opened_1ghz Script.healthy)
      = [CWrite (AttrFile 0 0 DutyCycle) (Num 0) WOk])
  /\ (Script.reg_enable Script.unreadable_disabled = 0
      /\ fst (result (PWM0_set_duty 0.5 Script.opened_50hz
                        Script.unreadable_disabled)) = 0
      /\ calls (PWM0_set_duty 0.5 Script.opened_50hz
                  Script.unreadable_disabled)
         = [CWrite (AttrFile 0 0 DutyCycle) (Num 10000000) (WErr 22);
            CRead (AttrFile 0 0 Enable) None;
            CWrite (AttrFile 0 0 Enable) (Num 0) WOk; CSleep 1;
            CWrite (AttrFile 0 0 DutyCycle) (Num 1) WOk;
            CWrite (AttrFile 0 0 DutyCycle) (Num 10000000) WOk;
            CWrite (AttrFile 0 0 Enable) (Num 1) WOk]
      /\ Script.reg_enable
           (world (PWM0_set_duty 0.5 Script.opened_50hz
                     Script.unreadable_disabled)) = 1).
Proof.
  vm_compute. repeat split.
Qed.

(** A call whose two writes of the target are both rejected fails and
    still remembers 0.99. *)
Lemma raw_ratio_remembered_witness :
  fst (result (PWM0_set_duty 0.99 Script.opened_50hz
                 (Script.with_writes [WErr 22; WOk; WOk; WErr 22]))) = -1
  /\ g_duty_frac
       (snd (result (PWM0_set_duty 0.99 Script.opened_50hz
                       (Script.with_writes [WErr 22; WOk; WOk; WErr 22]))))
     = 0.99%float.
Proof.
  split; [reflexivity |].
  exact (proj1 (proj2 (proj2 (raw_ratio_remembered 0.99 Script.opened_50hz
                               (Script.with_writes
                                  [WErr 22; WOk; WOk; WErr 22])))
                  0 20000000
                  (Script.with_writes [WErr 22; WOk; WOk; WErr 22]) []
                  eq_refl eq_refl)).
Defined.

(** C10 as stated fails.  Before any channel has been chosen
    [PWM0_set_duty 0.3] fails and the remembered ratio stays 0.50; after
    a probe whose bring-up failed, on a board whose period cannot be read
    back, it fails after that read and the ratio stays 0.50 as well. *)
Lemma raw_ratio_counterexample :
  (fst (result (PWM0_set_duty 0.3 startup Script.healthy)) = -1
   /\ g_duty_frac (snd (result (PWM0_set_duty 0.3 startup Script.healthy)))
      = 0.50%float
   /\ PrimFloat.eqb 0.50 0.3 = false)
  /\ (g_pwm_dir Script.probed_only = Some 0
      /\ g_period_ns Script.probed_only = 0
      /\ fst (result (PWM0_set_duty 0.3 Script.probed_only
                        Script.unreadable)) = -1
      /\ calls (PWM0_set_duty 0.3 Script.probed_only Script.unreadable)
         = [CRead (AttrFile 0 0 Period) None]
      /\ g_duty_frac
           (snd (result (PWM0_set_duty 0.3 Script.probed_only
                           Script.unreadable)))
         = 0.50%float).
Proof.
  vm_compute. repeat split.
Qed.

End Pwm0Runs.

(** ** The servo *)

Section ServoMotion.
Import Sys Servo.
Context {W : Type} {P : Platform W}.

Lemma pct_to_ns_ordered (s : Servo) (pct dir : Z) :
  0 <= pct <= 100 ->
  0 <= neutral_ns s <= max_ns s ->
  (max_ns s - neutral_ns s) * 100 <= INT_MAX ->
  max_ns s <= INT_MAX ->
  pct_to_ns s pct dir
  = if 0 <=? dir
    then neutral_ns s + (max_ns s - neutral_ns s) * pct / 100
    else neutral_ns s - (max_ns s - neutral_ns s) * pct / 100.
Proof.
  intros Hp Hn Hs Hm. unfold pct_to_ns, clamp, INT_MAX in *.
  destruct (Z.ltb_spec pct 0); [lia |].
  destruct (Z.ltb_spec 100 pct); [lia |].
  set (span := max_ns s - neutral_ns s) in *.
  assert (I : forall z, - 2 ^ 31 <= z <= 2 ^ 31 - 1 -> wrap32 z = z)
    by (intros z Hz; apply wrap32_id; exact Hz).
  rewrite (I span) by lia.
  destruct (Z.ltb_spec span 0); [lia |].
  assert (0 <= span * pct <= span * 100) by nia.
  rewrite (I (span * pct)) by lia.
  rewrite Z.quot_div_nonneg by lia.
  assert (0 <= span * pct / 100 <= span).
  { split; [apply Z.div_pos; lia |].
    apply Z.div_le_upper_bound; lia. }
  destruct (0 <=? dir); apply I; lia.
Qed.

(** C8, as the code has it.  On an enabled servo whose bounds are
    ordered (0 <= min <= neutral <= max, with one hundred spans within
    [int]) and for a percentage between 0 and 100, [servo_right] writes
    neutral plus that percentage of the span from neutral up to max,
    rounded down; [servo_left] measures its step on the same span, the
    one up to max, and writes neutral minus it, raised to min where it
    would fall below; when the band is centred on neutral that is
    neutral minus the percentage of the span down to min.  [servo_stop]
    is [servo_set_pulse_ns] at neutral and writes neutral. *)
Theorem servo_motion (s : Servo) (pct : Z) (w : W) :
  enabled s = true ->
  0 <= pct <= 100 ->
  0 <= min_ns s <= neutral_ns s ->
  neutral_ns s <= max_ns s ->
  (max_ns s - neutral_ns s) * 100 <= INT_MAX ->
  max_ns s <= INT_MAX ->
  servo_right s pct w
  = write_int (attr_path (base s) DutyCycle)
      (neutral_ns s + (max_ns s - neutral_ns s) * pct / 100) w
  /\ servo_left s pct w
     = write_int (attr_path (base s) DutyCycle)
         (Z.max (min_ns s)
            (neutral_ns s - (max_ns s - neutral_ns s) * pct / 100)) w
  /\ (neutral_ns s - min_ns s = max_ns s - neutral_ns s ->
      servo_left s pct w
      = write_int (attr_path (base s) DutyCycle)
          (neutral_ns s - (neutral_ns s - min_ns s) * pct / 100) w)
  /\ servo_stop s w = servo_set_pulse_ns s (neutral_ns s) w
  /\ servo_stop s w
     = write_int (attr_path (base s) DutyCycle) (neutral_ns s) w.
Proof.
  intros En Hp Hmin Hmax Hs Hm.
  assert (D : 0 <= (max_ns s - neutral_ns s) * pct / 100
              <= max_ns s - neutral_ns s).
  { split; [apply Z.div_pos; nia |].
    apply Z.div_le_upper_bound; nia. }
  unfold servo_right, servo_left, servo_stop, servo_set_pulse_ns.
  rewrite En. cbn [negb].
  rewrite !pct_to_ns_ordered by lia. cbn [Z.leb Z.compare].
  unfold clamp.
  split; [| split; [| split; [| split]]].
  - destruct (Z.ltb_spec (neutral_ns s + (max_ns s - neutral_ns s) * pct / 100)
                (min_ns s)); [lia |].
    destruct (Z.ltb_spec (max_ns s)
                (neutral_ns s + (max_ns s - neutral_ns s) * pct / 100));
      [lia | reflexivity].
  - destruct (Z.ltb_spec (neutral_ns s - (max_ns s - neutral_ns s) * pct / 100)
                (min_ns s)).
    + f_equal. lia.
    + destruct (Z.ltb_spec (max_ns s)
                  (neutral_ns s - (max_ns s - neutral_ns s) * pct / 100));
        [lia |]. f_equal. lia.
  - intros Sym. rewrite Sym.
    destruct (Z.ltb_spec (neutral_ns s - (max_ns s - neutral_ns s) * pct / 100)
                (min_ns s)); [lia |].
    destruct (Z.ltb_spec (max_ns s)
                (neutral_ns s - (max_ns s - neutral_ns s) * pct / 100));
      [lia | reflexivity].
  - reflexivity.
  - destruct (Z.ltb_spec (neutral_ns s) (min_ns s)); [lia |].
    destruct (Z.ltb_spec (max_ns s) (neutral_ns s)); [lia | reflexivity].
Qed.

(** C9.  On a servo that is not enabled each motion operation returns
    [-EIO] at once: the world is untouched and no call is made, so
    nothing is written.  That is the state of a servo after
    [servo_close], and after a [servo_init] that did not return 0. *)
Theorem servo_disabled_no_write (s : Servo) (w : W) :
  (enabled s = false ->
   forall duty_ns pct,
     servo_set_pulse_ns s duty_ns w = (- EIO, w, [])
     /\ servo_left s pct w = (- EIO, w, [])
     /\ servo_right s pct w = (- EIO, w, [])
     /\ servo_stop s w = (- EIO, w, []))
  /\ enabled (snd (result (servo_close s w))) = false
  /\ (forall chip channel period neutral lo hi,
        fst (result (servo_init chip channel period neutral lo hi w)) <> 0 ->
        enabled (snd (result (servo_init chip channel period neutral lo hi w)))
        = false).
Proof.
  split; [| split].
  - intros En duty_ns pct.
    unfold servo_left, servo_right, servo_stop, servo_set_pulse_ns.
    rewrite En. repeat split.
  - destruct (servo_close s w) as [[[rc s'] w'] t] eqn:E.
    unfold servo_close in E. hal_unfold E. next_write E. next_write E.
    injection E as <- <- <- <-. reflexivity.
  - intros chip channel period neutral lo hi.
    destruct (servo_init chip channel period neutral lo hi w)
      as [[[rc s'] w'] t] eqn:E.
    cbn [result fst snd]. intros N.
    unfold servo_init in E. unfold bind at 1 in E. unfold getenv_chip in E.
    unfold bind at 1 in E.
    destruct (export_pwm _ channel w) as [[rc1 w1] t1].
    destruct (Z.eqb_spec rc1 0) as [-> | R]; cbn [negb] in E.
    + hal_unfold E. next_write E. next_write E. next_stat E.
      destruct ex; cbn [fst snd app] in E;
        [next_write E |];
        repeat (next_write E;
                match goal with
                | r : wres |- _ => destruct r; cbn [negb Z.eqb Z.opp] in E
                end);
        injection E as <- <- <- <-;
        first [reflexivity | exfalso; apply N; reflexivity].
    + injection E as <- <- <- <-. reflexivity.
Qed.

End ServoMotion.

(** *** On the scripted board *)

Section ServoRuns.
Import Sys Servo.

(** The servo of [main.c], fully left: 1,200,000 ns. *)
Lemma servo_motion_witness :
  enabled Script.main_servo = true
  /\ calls (servo_left Script.main_servo 100 Script.healthy)
     = [CWrite (AttrFile 0 0 DutyCycle) (Num 1200000) WOk].
Proof.
  split; [reflexivity |].
  assert (H : servo_left Script.main_servo 100 Script.healthy
              = write_int (attr_path (base Script.main_servo) DutyCycle)
                  (neutral_ns Script.main_servo
                   - (neutral_ns Script.main_servo
                      - min_ns Script.main_servo) * 100 / 100)
                  Script.healthy).
  { refine (proj1 (proj2 (proj2
              (servo_motion Script.main_servo 100 Script.healthy
                 eq_refl _ _ _ _ _))) eq_refl);
      vm_compute; intuition discriminate. }
  rewrite H. reflexivity.
Defined.

(** C8 as stated fails.  With neutral 1,500,000, min 1,000,000 and max
    1,700,000 the span down to min is 500,000, yet [servo_left] at 100
    writes 1,300,000 (neutral minus the span up to max) and not
    1,000,000, and at 50 it writes 1,400,000 and not 1,250,000. *)
Lemma servo_left_span_counterexample :
  enabled Script.skewed_servo = true
  /\ neutral_ns Script.skewed_servo = 1500000
  /\ min_ns Script.skewed_servo = 1000000
  /\ max_ns Script.skewed_servo = 1700000
  /\ calls (servo_left Script.skewed_servo 100 Script.healthy)
     = [CWrite (AttrFile 0 0 DutyCycle) (Num 1300000) WOk]
  /\ 1500000 - (1500000 - 1000000) * 100 / 100 = 1000000
  /\ calls (servo_left Script.skewed_servo 50 Script.healthy)
     = [CWrite (AttrFile 0 0 DutyCycle) (Num 1400000) WOk]
  /\ 1500000 - (1500000 - 1000000) * 50 / 100 = 1250000.
Proof.
  vm_compute. repeat split.
Qed.

(** After [servo_close] a motion is refused without any call. *)
Lemma servo_disabled_no_write_witness :
  servo_left (snd (result (servo_close Script.main_servo Script.healthy)))
    100 Script.healthy
  = (- EIO, Script.healthy, []).
Proof.
  refine (proj1 (proj2
            (proj1 (servo_disabled_no_write
                      (snd (result (servo_close Script.main_servo
                                      Script.healthy)))
                      Script.healthy) eq_refl 0 100))).
Defined.

End ServoRuns.

(** ** The frequency ladder of PWM0.c *)

Section Pwm0Ladder.
Import Sys PWM0 Pwm0Api.
Context {W : Type} {P : Platform W}.

Lemma fast_path_a_calls (chip per dty : Z) (w : W) (ok : bool) (w' : W)
  (t : list call) :
  fast_path_a chip per dty w = (ok, w', t) -> path_a chip per dty ok t.
Proof.
  intros E. unfold fast_path_a in E. hal_unfold E. next_write E.
  destruct r; cbn [Z.eqb] in E.
  - next_write E.
    destruct r; injection E as <- <- <-; constructor; discriminate.
  - injection E as <- <- <-. constructor. discriminate.
  - injection E as <- <- <-. constructor. discriminate.
Qed.

Lemma fast_path_b_calls (chip per dty : Z) (w : W) (ok : bool) (w' : W)
  (t : list call) :
  fast_path_b chip per dty w = (ok, w', t) -> path_b chip per dty ok t.
Proof.
  intros E. unfold fast_path_b in E. hal_unfold E. next_write E.
  destruct r; cbn [Z.eqb] in E.
  - next_write E. destruct r; cbn [Z.eqb] in E.
    + next_write E.
      destruct r; injection E as <- <- <-; constructor; discriminate.
    + injection E as <- <- <-. constructor. discriminate.
    + injection E as <- <- <-. constructor. discriminate.
  - injection E as <- <- <-. constructor. discriminate.
  - injection E as <- <- <-. constructor. discriminate.
Qed.

Ltac next_pass E IH :=
  match type of E with
  | context [freq_fallback ?m ?c ?p ?d ?g0 ?w] =>
      let R := fresh "R" in
      let t1 := fresh "t" in
      destruct (freq_fallback m c p d g0 w) as [[[? ?] ?] t1] eqn:R;
      apply IH in R; destruct R as [R ->]; injection E as <- <- <- <-;
      split; [| reflexivity];
      match goal with
      | |- passes _ _ _ _ _ ?l =>
          let rec split_at l acc :=
            lazymatch l with
            | t1 => constr:(acc)
            | ?x :: ?l' => split_at l' constr:(acc ++ [x])
            end in
          let pre := split_at l constr:(@nil call) in
          change l with (pre ++ t1)
      end;
      apply passes_again; [constructor; discriminate | exact R]
  end.

Lemma freq_fallback_calls (chip per dty : Z) (n : nat) :
  forall g w rc g' w' t,
    freq_fallback n chip per dty g w = (rc, g', w', t) ->
    passes chip per dty n rc t
    /\ g' = (if rc =? 0
             then set_cache g per
                    (PrimFloat.div (double_of_ll dty) (double_of_ll per))
             else g).
Proof.
  induction n as [| n IH]; intros g w rc g' w' t E.
  - injection E as <- <- <- <-. split; [constructor | reflexivity].
  - cbn [freq_fallback] in E. hal_unfold E.
    next_write E. next_write E. next_write E.
    destruct r1; cbn [Z.eqb andb] in E.
    1: next_write E; destruct r1; cbn [Z.eqb andb] in E.
    1: next_write E; destruct r1; cbn [Z.eqb negb] in E.
    1: { injection E as <- <- <- <-. split; [| reflexivity].
         apply passes_good. constructor. }
    all: try next_write E.
    all: next_pass E IH.
Qed.

Lemma set_freq_calls (hz : float) (g : globals) (w : W) (chip : Z)
  (rc : Z) (g' : globals) (w' : W) (t : list call) :
  g_pwm_dir g = Some chip ->
  PrimFloat.leb hz 0 = false ->
  PWM0_set_freq hz g w = (rc, g', w', t) ->
  let per := period_of_hz hz in
  let dty := bounded_dc_from_ratio (g_duty_frac g) per in
  ladder chip per dty rc t
  /\ g' = (if rc =? 0
           then set_cache g per
                  (PrimFloat.div (double_of_ll dty) (double_of_ll per))
           else g).
Proof.
  intros D H E per dty. unfold PWM0_set_freq in E. rewrite D, H in E.
  fold per in E. fold dty in E.
  unfold bind at 1 in E.
  destruct (read_ll (AttrFile chip 0 Enable) w) as [[was w1] t1] eqn:R1.
  unfold bind at 1 in E.
  match type of E with
  | context [(if was =? 0 then ?a else ?b) w1] =>
      destruct ((if was =? 0 then a else b) w1) as [[u w2] t2] eqn:R2
  end.
  assert (K : wake chip (t1 ++ t2)).
  { unfold read_ll in R1. hal_unfold R1. next_read R1.
    injection R1 as <- <- <-.
    destruct rd as [v |]; cbn [Z.eqb] in R2.
    - destruct (Z.eqb_spec v 0) as [-> | N].
      + hal_unfold R2. next_write R2. injection R2 as <- <- <-.
        constructor.
      + injection R2 as <- <- <-. constructor. congruence.
    - injection R2 as <- <- <-. constructor. discriminate. }
  unfold bind at 1 in E.
  destruct (fast_path_a chip per dty w2) as [[a w3] t3] eqn:A.
  apply fast_path_a_calls in A.
  destruct a.
  - injection E as <- <- <- <-. split; [| reflexivity].
    rewrite app_nil_r, app_assoc. now apply ladder_a.
  - unfold bind at 1 in E.
    destruct (fast_path_b chip per dty w3) as [[b w4] t4] eqn:B.
    apply fast_path_b_calls in B.
    destruct b.
    + injection E as <- <- <- <-. split; [| reflexivity].
      rewrite app_nil_r, app_assoc. now apply ladder_b.
    + destruct (freq_fallback 2 chip per dty g w4) as [[[rc5 g5] w5] t5] eqn:R.
      apply freq_fallback_calls in R. destruct R as [R ->].
      injection E as <- <- <- <-. split; [| reflexivity].
      rewrite app_assoc. now apply ladder_fallback.
Qed.

(** X2.  Past its guards, [PWM0_set_freq] makes the calls of the ladder
    and no others: the read of [enable] (with a re-enable when it reads
    0), fast path A, then fast path B if A failed, then at most two
    fallback passes if B failed too.  It returns 0 and caches the new
    period and ratio when a stage succeeds, and returns -1 with the cache
    untouched after two failed passes. *)
Theorem set_freq_ladder (hz : float) (g : globals) (w : W) (chip : Z) :
  g_pwm_dir g = Some chip ->
  PrimFloat.leb hz 0 = false ->
  let per := period_of_hz hz in
  let dty := bounded_dc_from_ratio (g_duty_frac g) per in
  let r := PWM0_set_freq hz g w in
  ladder chip per dty (fst (result r)) (calls r)
  /\ (fst (result r) = 0 \/ fst (result r) = -1)
  /\ snd (result r)
     = (if fst (result r) =? 0
        then set_cache g per
               (PrimFloat.div (double_of_ll dty) (double_of_ll per))
        else g).
Proof.
  intros D H per dty r.
  destruct (PWM0_set_freq hz g w) as [[[rc g'] w'] t] eqn:E.
  destruct (set_freq_calls _ _ _ _ _ _ _ _ D H E) as [L G].
  subst r. cbn [result calls fst snd]. split; [exact L |].
  split; [| exact G].
  clear - L. inversion L as [| | ? ? ? tc ? ? ? ? PS]; subst; auto.
  clear - PS.
  inversion PS as [| | ? ? ? ? ? PS2]; subst; auto.
  inversion PS2 as [| | ? ? ? ? ? PS3]; subst; auto.
  inversion PS3; subst; auto.
Qed.

Ltac listed :=
  repeat (apply Forall_cons; [cbn; auto; try discriminate |]);
  apply Forall_nil.

Lemma wake_facts (chip : Z) (t : list call) :
  wake chip t ->
  Forall (on_channel (Some chip)) t
  /\ Forall (fun c => ~ disables c) t
  /\ accepted Period t = [] /\ accepted DutyCycle t = []
  /\ (accepted Enable t = [] \/ accepted Enable t = [1]).
Proof.
  intros [en N | r]; (split; [listed | split; [listed |]]).
  - auto.
  - now destruct r; auto.
Qed.

Lemma path_a_facts (chip per dty : Z) (ok : bool) (t : list call) :
  path_a chip per dty ok t ->
  Forall (on_channel (Some chip)) t
  /\ Forall (fun c => ~ disables c) t
  /\ accepted Enable t = []
  /\ (ok = true ->
      accepted Period t = [per] /\ accepted DutyCycle t = [dty])
  /\ (ok = false -> Exists rejected t).
Proof.
  intros [| r N | r N]; (split; [listed | split; [listed |]]).
  - repeat split; auto. discriminate.
  - split; [now destruct r |]. split; [discriminate |].
    intros _. now left.
  - split; [now destruct r |]. split; [discriminate |].
    intros _. right. now left.
Qed.

Lemma path_b_facts (chip per dty : Z) (ok : bool) (t : list call) :
  path_b chip per dty ok t ->
  Forall (on_channel (Some chip)) t
  /\ Forall (fun c => ~ disables c) t
  /\ accepted Enable t = []
  /\ (ok = true ->
      accepted Period t = [per] /\ accepted DutyCycle t = [1; dty]).
Proof.
  intros [| r N | r N | r N]; (split; [listed | split; [listed |]]).
  - repeat split; auto.
  - split; [now destruct r |]. discriminate.
  - split; [now destruct r |]. discriminate.
  - split; [now destruct r |]. discriminate.
Qed.

Lemma pass_facts (chip per dty : Z) (ok : bool) (t : list call) :
  pass chip per dty ok t ->
  Forall (on_channel (Some chip)) t
  /\ (ok = true ->
      (exists l, accepted Period t = l ++ [per])
      /\ (exists l, accepted DutyCycle t = l ++ [dty])
      /\ (exists l, accepted Enable t = l ++ [1])).
Proof.
  intros [r0 r1 | r0 r1 r N | r0 r1 r r3 N | r0 r1 r r3 N];
    (split; [listed |]); try discriminate.
  intros _. split; [| split].
  - destruct r0, r1; now exists [].
  - destruct r0, r1; first [now exists [1] | now exists []].
  - destruct r0, r1; first [now exists [0] | now exists []].
Qed.

Lemma passes_facts (chip per dty : Z) (n : nat) (rc : Z) (t : list call) :
  passes chip per dty n rc t ->
  Forall (on_channel (Some chip)) t
  /\ (rc = 0 \/ rc = -1)
  /\ (rc = 0 ->
      exists pre good,
        t = pre ++ good /\ pass chip per dty true good).
Proof.
  induction 1 as [| n t G | n rc t rest F PS (IH1 & IH2 & IH3)].
  - split; [constructor |]. split; [now right | discriminate].
  - split; [exact (proj1 (pass_facts _ _ _ _ _ G)) |].
    split; [now left |]. intros _. now exists [], t.
  - split; [| split; [exact IH2 |]].
    + apply Forall_app. split; [| exact IH1].
      exact (proj1 (pass_facts _ _ _ _ _ F)).
    + intros R. destruct (IH3 R) as (pre & good & -> & G).
      exists (t ++ pre), good. now rewrite app_assoc.
Qed.

Lemma ladder_on_channel (chip per dty rc : Z) (t : list call) :
  ladder chip per dty rc t -> Forall (on_channel (Some chip)) t.
Proof.
  intros [t0 ta K A | t0 ta tb K A B | t0 ta tb tc rc' K A B PS];
    repeat (apply Forall_app; split);
    first [ exact (proj1 (wake_facts _ _ K))
          | exact (proj1 (path_a_facts _ _ _ _ _ A))
          | exact (proj1 (path_b_facts _ _ _ _ _ B))
          | exact (proj1 (passes_facts _ _ _ _ _ _ PS)) ].
Qed.

Lemma committed_last (a : attr) (t : list call) (l : list Z) (v : Z) :
  accepted a t = l ++ [v] -> committed a t = Some v.
Proof.
  intros H. unfold committed. rewrite H, map_app. apply last_last.
Qed.

Lemma ladder_commits (chip per dty : Z) (t : list call) :
  ladder chip per dty 0 t ->
  committed Period t = Some per
  /\ committed DutyCycle t = Some dty
  /\ committed Enable t <> Some 0.
Proof.
  intros L.
  inversion L as [t0 ta K A | t0 ta tb K A B | t0 ta tb tc rc' K A B PS];
    subst.
  - destruct (wake_facts _ _ K) as (_ & _ & KP & KD & KE).
    destruct (path_a_facts _ _ _ _ _ A) as (_ & _ & AE & AOK & _).
    destruct (AOK eq_refl) as [AP AD].
    split; [| split].
    + apply committed_snoc with (l := []). exact AP.
    + apply committed_snoc with (l := []). exact AD.
    + unfold committed. rewrite accepted_app, AE, app_nil_r.
      destruct KE as [-> | ->]; discriminate.
  - destruct (wake_facts _ _ K) as (_ & _ & KP & KD & KE).
    destruct (path_a_facts _ _ _ _ _ A) as (_ & _ & AE & _ & _).
    destruct (path_b_facts _ _ _ _ _ B) as (_ & _ & BE & BOK).
    destruct (BOK eq_refl) as [BP BD].
    split; [| split].
    + rewrite app_assoc. apply committed_snoc with (l := []). exact BP.
    + rewrite app_assoc. apply committed_snoc with (l := [1]). exact BD.
    + unfold committed. rewrite !accepted_app, AE, BE, !app_nil_r.
      destruct KE as [-> | ->]; discriminate.
  - destruct (passes_facts _ _ _ _ _ _ PS) as (_ & _ & G).
    destruct (G eq_refl) as (pre & good & -> & GP).
    destruct (pass_facts _ _ _ _ _ GP) as (_ & OK).
    destruct (OK eq_refl) as ((lp & HP) & (ld & HD) & (le & HE)).
    rewrite !app_assoc.
    split; [| split].
    + now apply committed_snoc with (l := lp).
    + now apply committed_snoc with (l := ld).
    + rewrite (committed_snoc Enable _ good 1 le HE). discriminate.
Qed.

Lemma ladder_disables (chip per dty rc : Z) (t : list call) :
  ladder chip per dty rc t ->
  (Exists disables t \/ rc = -1) -> Exists rejected t.
Proof.
  intros [t0 ta K A | t0 ta tb K A B | t0 ta tb tc rc' K A B PS] H.
  - exfalso. destruct H as [H | H]; [| discriminate].
    apply Exists_app in H.
    destruct (wake_facts _ _ K) as (_ & K' & _).
    destruct (path_a_facts _ _ _ _ _ A) as (_ & A' & _).
    apply Forall_Exists_neg in K', A'. tauto.
  - apply Exists_app. right. apply Exists_app. left.
    now apply (path_a_facts _ _ _ _ _ A).
  - apply Exists_app. right. apply Exists_app. left.
    now apply (path_a_facts _ _ _ _ _ A).
Qed.

Lemma pass_starts_disabling (chip per dty : Z) (ok : bool) (t : list call) :
  pass chip per dty ok t ->
  exists r0 post, t = CWrite (AttrFile chip 0 Enable) (Num 0) r0 :: post.
Proof.
  intros [r0 r1 | r0 r1 r N | r0 r1 r r3 N | r0 r1 r r3 N];
    exists r0; eexists; reflexivity.
Qed.

Lemma passes_start_disabling (chip per dty : Z) (n : nat) (rc : Z)
    (t : list call) :
  passes chip per dty (S n) rc t ->
  exists r0 post, t = CWrite (AttrFile chip 0 Enable) (Num 0) r0 :: post.
Proof.
  intros PS. inversion PS as [| ? ? G | ? ? t1 rest F PS']; subst.
  - exact (pass_starts_disabling _ _ _ _ _ G).
  - destruct (pass_starts_disabling _ _ _ _ _ F) as (r0 & post & ->).
    now exists r0, (post ++ rest).
Qed.

(** The first [enable] 0 of a run of [PWM0_set_freq]: before it the output
    is never switched off, and a period or duty has been rejected. *)
Lemma ladder_first_disable (chip per dty rc : Z) (t : list call) :
  ladder chip per dty rc t ->
  (Exists disables t \/ rc = -1) ->
  exists pre r0 post,
    t = pre ++ CWrite (AttrFile chip 0 Enable) (Num 0) r0 :: post
    /\ Forall (fun c => ~ disables c) pre
    /\ Exists rejected pre.
Proof.
  intros [t0 ta K A | t0 ta tb K A B | t0 ta tb tc rc' K A B PS] H.
  - exfalso. destruct H as [H | H]; [| discriminate].
    apply Exists_app in H.
    destruct (wake_facts _ _ K) as (_ & K' & _).
    destruct (path_a_facts _ _ _ _ _ A) as (_ & A' & _).
    apply Forall_Exists_neg in K', A'. tauto.
  - exfalso. destruct H as [H | H]; [| discriminate].
    apply Exists_app in H. rewrite Exists_app in H.
    destruct (wake_facts _ _ K) as (_ & K' & _).
    destruct (path_a_facts _ _ _ _ _ A) as (_ & A' & _).
    destruct (path_b_facts _ _ _ _ _ B) as (_ & B' & _).
    apply Forall_Exists_neg in K', A', B'. tauto.
  - destruct (passes_start_disabling _ _ _ _ _ _ PS) as (r0 & post & ->).
    exists (t0 ++ ta ++ tb), r0, post.
    split; [now rewrite <- !app_assoc |].
    split.
    + repeat (apply Forall_app; split).
      * exact (proj1 (proj2 (wake_facts _ _ K))).
      * exact (proj1 (proj2 (path_a_facts _ _ _ _ _ A))).
      * exact (proj1 (proj2 (path_b_facts _ _ _ _ _ B))).
    + apply Exists_app. right. apply Exists_app. left.
      now apply (path_a_facts _ _ _ _ _ A).
Qed.

Lemma period_of_hz_positive (hz : float) : 1 <= period_of_hz hz.
Proof.
  unfold period_of_hz.
  destruct (Z.ltb_spec (llround (PrimFloat.div 1e9 hz)) 1); lia.
Qed.

(** X3.  What a caller of [PWM0_set_freq] can rely on.  Without a
    channel, or for a frequency that is not positive, it returns -1 and
    makes no call.  Otherwise the period it programs is at least 1 ns and
    the duty lies strictly between 0 and the period when the period is at
    least 2 ns; when it returns 0 the hardware has accepted that period
    and that duty last, and the last [enable] it accepted, if any, is 1;
    and it writes [enable] 0 or returns -1 only after the hardware has
    rejected a period or duty written in place: the calls then split at
    the first write of [enable] 0, on channel 0 of the chosen chip, and
    among the calls before it, none of which switches the output off, is
    a write of the period or of the duty that the hardware rejected. *)
Theorem set_freq_effect (hz : float) (g : globals) (w : W) :
  let per := period_of_hz hz in
  let dty := bounded_dc_from_ratio (g_duty_frac g) per in
  let r := PWM0_set_freq hz g w in
  (g_pwm_dir g = None \/ PrimFloat.leb hz 0 = true -> r = (-1, g, w, []))
  /\ (g_pwm_dir g <> None -> PrimFloat.leb hz 0 = false ->
      1 <= per
      /\ (2 <= per -> 0 < dty < per)
      /\ (fst (result r) = 0 ->
          committed Period (calls r) = Some per
          /\ committed DutyCycle (calls r) = Some dty
          /\ committed Enable (calls r) <> Some 0)
      /\ (Exists disables (calls r) \/ fst (result r) = -1 ->
          exists chip pre r0 post,
            g_pwm_dir g = Some chip
            /\ calls r
               = pre ++ CWrite (AttrFile chip 0 Enable) (Num 0) r0 :: post
            /\ Forall (fun c => ~ disables c) pre
            /\ Exists rejected pre)).
Proof.
  intros per dty r. split.
  - intros H. subst r. unfold PWM0_set_freq.
    destruct (g_pwm_dir g) as [chip |]; [| reflexivity].
    destruct H as [H | H]; [discriminate | now rewrite H].
  - intros D H. destruct (g_pwm_dir g) as [chip |] eqn:D'; [| congruence].
    destruct (PWM0_set_freq hz g w) as [[[rc g'] w'] t] eqn:E.
    destruct (set_freq_calls _ _ _ _ _ _ _ _ D' H E) as [L _].
    subst r. cbn [result calls fst snd].
    split; [apply period_of_hz_positive |].
    split; [intros H2; now apply off_rails_range |].
    split.
    + intros ->. now apply (ladder_commits chip).
    + intros X.
      destruct (ladder_first_disable chip per dty _ _ L X)
        as (pre & r0 & post & T & F & R).
      now exists chip, pre, r0, post.
Qed.

End Pwm0Ladder.

(** ** The module state across calls *)

Section Pwm0Sequences.
Import Sys PWM0 Pwm0Api.
Context {W : Type} {P : Platform W}.

Ltac listed :=
  repeat (apply Forall_cons; [cbn; auto; try discriminate |]);
  apply Forall_nil.

Lemma on_channel_any (d : option Z) (t : list call) :
  Forall (on_channel None) t -> Forall (on_channel d) t.
Proof.
  apply Forall_impl. intros [p r | p v r | p r | r | ms]; cbn; auto.
  - destruct p; auto. intros [H _]. discriminate.
  - destruct p; auto. intros [H _]. discriminate.
Qed.

Lemma await_quiet (chip : Z) (n : nat) :
  forall w u w' t,
    await_pwm0 n chip w = (u, w', t) -> Forall (on_channel None) t.
Proof.
  induction n as [| n IH]; intros w u w' t E.
  - injection E as <- <- <-. constructor.
  - cbn [await_pwm0] in E. hal_unfold E. next_stat E.
    destruct ex.
    + injection E as <- <- <-. listed.
    + destruct (await_pwm0 n chip (sys_sleep 10 w0)) as [[u' w1] t1] eqn:A.
      injection E as <- <- <-.
      constructor; [exact I |]. constructor; [exact I |].
      exact (IH _ _ _ _ A).
Qed.

Lemma attrs_quiet (chip : Z) (w : W) (ok : bool) (w' : W) (t : list call) :
  attrs_exist chip w = (ok, w', t) -> Forall (on_channel None) t.
Proof.
  intros E. unfold attrs_exist in E. hal_unfold E. next_stat E.
  destruct ex; cbn [negb] in E.
  - next_stat E. destruct ex; cbn [negb] in E.
    + next_stat E. injection E as <- <- <-. listed.
    + injection E as <- <- <-. listed.
  - injection E as <- <- <-. listed.
Qed.

Lemma probe_chips_quiet (chips : list Z) :
  forall g w rc g' w' t,
    probe_chips chips g w = (rc, g', w', t) -> Forall (on_channel None) t.
Proof.
  induction chips as [| chip rest IH]; intros g w rc g' w' t E.
  - injection E as <- <- <- <-. constructor.
  - cbn [probe_chips] in E. unfold bind at 1 in E.
    destruct (path_exists (PwmDir chip 0) w) as [[ex w1] t1] eqn:S1.
    assert (Q1 : Forall (on_channel None) t1).
    { hal_unfold S1. next_stat S1. injection S1 as <- <- <-. listed. }
    unfold bind at 1 in E.
    match type of E with
    | context [(if ex then ?a else ?b) w1] =>
        destruct ((if ex then a else b) w1) as [[u w2] t2] eqn:S2
    end.
    assert (Q2 : Forall (on_channel None) t2).
    { destruct ex.
      - injection S2 as <- <- <-. constructor.
      - hal_unfold S2. next_write S2.
        destruct (await_pwm0 50 chip w0) as [[u' w3] t3] eqn:A.
        injection S2 as <- <- <-.
        constructor; [exact I |]. exact (await_quiet _ _ _ _ _ _ A). }
    unfold bind at 1 in E.
    destruct (path_exists (PwmDir chip 0) w2) as [[ex' w3] t3] eqn:S3.
    assert (Q3 : Forall (on_channel None) t3).
    { hal_unfold S3. next_stat S3. injection S3 as <- <- <-. listed. }
    destruct ex'; cbn [negb] in E.
    + unfold bind at 1 in E.
      destruct (attrs_exist chip w3) as [[ok w4] t4] eqn:S4.
      apply attrs_quiet in S4.
      destruct ok.
      * injection E as <- <- <- <-.
        repeat (apply Forall_app; split); auto.
      * destruct (probe_chips rest g w4) as [[[rc5 g5] w5] t5] eqn:R.
        apply IH in R. injection E as <- <- <- <-.
        repeat (apply Forall_app; split); auto.
    + destruct (probe_chips rest g w3) as [[[rc5 g5] w5] t5] eqn:R.
      apply IH in R. injection E as <- <- <- <-.
      repeat (apply Forall_app; split); auto.
Qed.

Lemma probe_quiet (g : globals) (w : W) (rc : Z) (pg : globals) (pw : W)
  (pt : list call) :
  probe_find_pwm g w = (rc, pg, pw, pt) ->
  Forall (on_channel None) pt /\ (g_pwm_dir g <> None -> pg = g /\ rc = 0).
Proof.
  unfold probe_find_pwm. destruct (g_pwm_dir g) as [chip |] eqn:D.
  - intros E. injection E as <- <- <- <-. split; [constructor | auto].
  - intros E. split; [| congruence]. hal_unfold E.
    destruct (sys_glob w) as [[chips |] w1].
    + destruct (probe_chips chips g w1) as [[[rc1 g1] w2] t2] eqn:R.
      injection E as <- <- <- <-. constructor; [exact I |].
      exact (probe_chips_quiet _ _ _ _ _ _ _ R).
    + injection E as <- <- <- <-. listed.
Qed.

Lemma attempts_on_channel (chip per dty : Z) (fs : list (list call)) :
  Forall (failed_attempt chip per dty) fs ->
  Forall (on_channel (Some chip)) (concat fs).
Proof.
  induction 1 as [| a fs F _ IH]; [constructor |].
  cbn [concat]. apply Forall_app. split; [| exact IH].
  destruct F; listed.
Qed.

Lemma bring_up_keeps (chip per dty : Z) (n : nat) (g : globals) (rc : Z)
  (g' : globals) (t : list call) :
  bring_up_outcome chip per dty n g rc g' t ->
  Forall (on_channel (Some chip)) t
  /\ (rc = 0 \/ rc = -1)
  /\ g_pwm_dir g' = g_pwm_dir g
  /\ (g_period_ns g' = g_period_ns g \/ g_period_ns g' = per).
Proof.
  intros [(-> & -> & fs & a & -> & F & _ & G) | (-> & -> & fs & -> & F & _)].
  - split; [| cbn; auto].
    apply Forall_app. split; [now apply (attempts_on_channel chip per dty) |].
    destruct G. listed.
  - split; [now apply (attempts_on_channel chip per dty) | auto].
Qed.

Lemma init_keeps (hz duty : float) (g : globals) (w : W) (rc : Z)
  (g' : globals) (w' : W) (t : list call) :
  PWM0_init hz duty g w = (rc, g', w', t) ->
  consistent g ->
  consistent g'
  /\ (g_pwm_dir g <> None -> g_pwm_dir g' = g_pwm_dir g)
  /\ Forall (on_channel (g_pwm_dir g')) t
  /\ (g_pwm_dir g' = None -> rc = -1).
Proof.
  intros E [C1 C2].
  destruct (probe_find_pwm g w) as [[[prc pg] pw] pt] eqn:PR.
  destruct (probe_quiet _ _ _ _ _ _ PR) as [Q S].
  destruct (probe_result _ _ _ _ _ _ PR)
    as (HP & _ & [(-> & chip & D) | (-> & ->)]).
  - rewrite (init_after_probe hz duty g w pg pw pt chip PR D) in E.
    destruct (bring_up 3 chip _ _ pg pw) as [[[rc1 g1] w1] t1] eqn:B.
    injection E as <- <- <- <-.
    apply bring_up_shape, bring_up_keeps in B.
    destruct B as (F & _ & GD & GP). rewrite GD, D.
    split; [| split; [| split]].
    + split; [| intros _; congruence].
      destruct GP as [-> | ->];
        [lia | pose proof (period_of_hz_positive (init_hz hz)); lia].
    + intros N. destruct (S N) as [-> _]. congruence.
    + apply Forall_app. split; [now apply on_channel_any | exact F].
    + discriminate.
  - rewrite (init_probe_failed hz duty g w (-1) g pw pt PR) in E;
      [| discriminate].
    injection E as <- <- <- <-. rewrite app_nil_r.
    split; [now split |]. split; [reflexivity |].
    split; [now apply on_channel_any | reflexivity].
Qed.

Lemma set_freq_keeps (hz : float) (g : globals) (w : W) (rc : Z)
  (g' : globals) (w' : W) (t : list call) :
  PWM0_set_freq hz g w = (rc, g', w', t) ->
  consistent g ->
  consistent g'
  /\ g_pwm_dir g' = g_pwm_dir g
  /\ Forall (on_channel (g_pwm_dir g')) t
  /\ (g_pwm_dir g' = None -> rc = -1).
Proof.
  intros E C.
  destruct (g_pwm_dir g) as [chip |] eqn:D.
  - destruct (PrimFloat.leb hz 0) eqn:H.
    + unfold PWM0_set_freq in E. rewrite D, H in E.
      injection E as <- <- <- <-. rewrite D.
      split; [exact C |]. split; [reflexivity |].
      split; [constructor | discriminate].
    + destruct (set_freq_calls _ _ _ _ _ _ _ _ D H E) as [L G].
      apply ladder_on_channel in L.
      assert (D' : g_pwm_dir g' = Some chip).
      { rewrite G. now destruct (rc =? 0). }
      rewrite D'. split; [| split; [reflexivity | split; [exact L |]]].
      * split; [| intros _; congruence].
        rewrite G. destruct (rc =? 0); [| apply C].
        pose proof (period_of_hz_positive hz). cbn. lia.
      * discriminate.
  - unfold PWM0_set_freq in E. rewrite D in E.
    injection E as <- <- <- <-. rewrite D.
    split; [exact C |]. split; [reflexivity |].
    split; [constructor | reflexivity].
Qed.

Lemma set_duty_keeps (duty : float) (g : globals) (w : W) (rc : Z)
  (g' : globals) (w' : W) (t : list call) :
  PWM0_set_duty duty g w = (rc, g', w', t) ->
  consistent g ->
  consistent g'
  /\ g_pwm_dir g' = g_pwm_dir g
  /\ Forall (on_channel (g_pwm_dir g')) t
  /\ (g_pwm_dir g' = None -> rc = -1).
Proof.
  intros E C.
  destruct (g_pwm_dir g) as [chip |] eqn:D.
  - destruct (known_period chip g w) as [[[per |] w0] t0] eqn:K.
    + rewrite (set_duty_after_guards chip duty g w per w0 t0 D K) in E.
      destruct (known_period_shape _ _ _ _ _ _ K) as (_ & Hp & T0).
      destruct (set_duty_store chip duty _ w0) as [[[rc1 g1] w1] t1] eqn:S.
      destruct (set_duty_store_shape _ _ _ _ _ _ _ _ S) as [-> SC].
      injection E as <- <- <- <-. cbn [set_cache g_pwm_dir g_period_ns].
      rewrite D. split; [| split; [reflexivity | split; [| discriminate]]].
      * split; [cbn; lia | intros _; cbn; congruence].
      * apply Forall_app. split.
        -- destruct T0 as [-> | ->]; listed.
        -- destruct SC; listed.
    + rewrite (set_duty_stopped chip duty g w w0 t0 D K) in E.
      destruct (known_period_shape _ _ _ _ _ _ K) as (_ & _ & r & ->).
      injection E as <- <- <- <-. rewrite D.
      split; [exact C |]. split; [reflexivity |].
      split; [listed | discriminate].
  - unfold PWM0_set_duty in E. rewrite D in E.
    injection E as <- <- <- <-. rewrite D.
    split; [exact C |]. split; [reflexivity |].
    split; [constructor | reflexivity].
Qed.

Lemma api_call_keeps (o : op) (g : globals) (w : W) (rc : Z)
  (g' : globals) (w' : W) (t : list call) :
  api_call o g w = (rc, g', w', t) ->
  consistent g ->
  consistent g'
  /\ (g_pwm_dir g <> None -> g_pwm_dir g' = g_pwm_dir g)
  /\ Forall (on_channel (g_pwm_dir g')) t
  /\ (g_pwm_dir g' = None -> o = Cleanup \/ rc = -1).
Proof.
  destruct o as [hz duty | hz | duty |]; cbn [api_call]; intros E C.
  - destruct (init_keeps _ _ _ _ _ _ _ _ E C) as (H1 & H2 & H3 & H4).
    split; [exact H1 |]. split; [auto |]. split; [exact H3 | auto].
  - destruct (set_freq_keeps _ _ _ _ _ _ _ E C) as (H1 & H2 & H3 & H4).
    split; [exact H1 |]. split; [auto |]. split; [exact H3 | auto].
  - destruct (set_duty_keeps _ _ _ _ _ _ _ E C) as (H1 & H2 & H3 & H4).
    split; [exact H1 |]. split; [auto |]. split; [exact H3 | auto].
  - unfold PWM0_cleanup in E. destruct (g_pwm_dir g) as [chip |] eqn:D.
    + hal_unfold E. next_write E. injection E as <- <- <- <-.
      rewrite D. split; [exact C |]. split; [reflexivity |].
      split; [listed | auto].
    + injection E as <- <- <- <-. rewrite D.
      split; [exact C |]. split; [reflexivity |].
      split; [constructor | auto].
Qed.

Lemma run_ops_cons (o : op) (rest : list op) (g : globals) (w : W) :
  run_ops (o :: rest) g w
  = (let '(r, w1, t1) := api_call o g w in
     let '(rr, w2, t2) := run_ops rest (snd r) w1 in
     (fst r :: fst rr, snd rr, w2, t1 ++ t2 ++ [])).
Proof.
  cbn [run_ops]. unfold bind, ret.
  destruct (api_call o g w) as [[r w1] t1].
  now destruct (run_ops rest (snd r) w1) as [[rr w2] t2].
Qed.

(** X4.  Whatever sequence of [PWM0_init], [PWM0_set_freq],
    [PWM0_set_duty] and [PWM0_cleanup] the application makes: the cached
    period is never negative and is positive only with a channel chosen;
    a channel once chosen is kept, also by [PWM0_cleanup] and by calls
    that fail; every attribute read or written is one of channel 0 of
    the chip chosen at the end, so no other channel is ever touched; and
    while no channel is chosen every call other than [PWM0_cleanup]
    returns -1. *)
Theorem api_keeps_channel (ops : list op) (g : globals) (w : W) :
  consistent g ->
  let r := run_ops ops g w in
  let g' := snd (result r) in
  consistent g'
  /\ (g_pwm_dir g <> None -> g_pwm_dir g' = g_pwm_dir g)
  /\ Forall (on_channel (g_pwm_dir g')) (calls r)
  /\ (g_pwm_dir g' = None ->
      Forall2 (fun o rc => o = Cleanup \/ rc = -1) ops (fst (result r))).
Proof.
  revert g w. induction ops as [| o rest IH]; intros g w C; cbn zeta.
  - cbn. split; [exact C |]. split; [reflexivity |].
    split; constructor.
  - rewrite run_ops_cons.
    destruct (api_call o g w) as [[[rc g1] w1] t1] eqn:E.
    cbn [fst snd].
    destruct (api_call_keeps _ _ _ _ _ _ _ E C) as (C1 & S1 & F1 & N1).
    specialize (IH g1 w1 C1). cbn zeta in IH.
    destruct (run_ops rest g1 w1) as [[[rcs g2] w2] t2].
    cbn [result calls fst snd app] in *. rewrite app_nil_r.
    destruct IH as (C2 & S2 & F2 & N2).
    assert (K : g_pwm_dir g1 = None \/ g_pwm_dir g2 = g_pwm_dir g1).
    { destruct (g_pwm_dir g1) eqn:D1; [right | now left].
      apply S2. discriminate. }
    split; [exact C2 |]. split; [| split].
    + intros N. rewrite <- (S1 N). apply S2. rewrite (S1 N). exact N.
    + apply Forall_app. split; [| exact F2].
      destruct K as [K | K].
      * rewrite K in F1. now apply on_channel_any.
      * now rewrite K.
    + intros D2. destruct K as [K | K].
      * constructor; auto.
      * rewrite D2 in K. symmetry in K. constructor; auto.
Qed.

End Pwm0Sequences.

Section Pwm0ApiRuns.
Import Sys PWM0 Pwm0Api.

(** From 50 Hz to 100 Hz on a board that reads as disabled and rejects
    the period written in place: the channel is re-enabled first, fast
    path A fails and fast path B programs the new period. *)
Lemma set_freq_ladder_witness :
  period_of_hz (P := Script.platform) 100 = 10000000
  /\ fst (result (PWM0_set_freq 100 Script.opened_50hz
                    (Script.with_writes [WOk; WErr 22]))) = 0
  /\ ladder 0 (period_of_hz (P := Script.platform) 100)
       (bounded_dc_from_ratio (P := Script.platform)
          (g_duty_frac Script.opened_50hz)
          (period_of_hz (P := Script.platform) 100))
       (fst (result (PWM0_set_freq 100 Script.opened_50hz
                       (Script.with_writes [WOk; WErr 22]))))
       (calls (PWM0_set_freq 100 Script.opened_50hz
                 (Script.with_writes [WOk; WErr 22]))).
Proof.
  split; [reflexivity |]. split; [reflexivity |].
  exact (proj1 (set_freq_ladder 100 Script.opened_50hz
                  (Script.with_writes [WOk; WErr 22]) 0 eq_refl eq_refl)).
Defined.

(** Before any channel is chosen the call is refused; on the opened
    channel 100 Hz is programmed as 10 ms with a duty of 5 ms; and on a
    board that rejects the period written in place and the 1 ns duty of
    the second fast path, the output is switched off only after those. *)
Lemma set_freq_effect_witness :
  PWM0_set_freq 100 startup Script.healthy = (-1, startup, Script.healthy, [])
  /\ (committed Period
        (calls (PWM0_set_freq 100 Script.opened_50hz Script.healthy))
      = Some 10000000
      /\ committed DutyCycle
           (calls (PWM0_set_freq 100 Script.opened_50hz Script.healthy))
         = Some 5000000)
  /\ (exists chip pre r0 post,
        g_pwm_dir Script.opened_50hz = Some chip
        /\ calls (PWM0_set_freq 100 Script.opened_50hz
                    (Script.with_writes [WOk; WErr 16; WErr 16]))
           = pre ++ CWrite (AttrFile chip 0 Enable) (Num 0) r0 :: post
        /\ Forall (fun c => ~ disables c) pre
        /\ Exists rejected pre).
Proof.
  assert (D : g_pwm_dir Script.opened_50hz <> None) by discriminate.
  split; [| split].
  - exact (proj1 (set_freq_effect 100 startup Script.healthy)
             (or_introl eq_refl)).
  - pose proof (proj2 (set_freq_effect 100 Script.opened_50hz Script.healthy))
      as H.
    destruct (H D eq_refl) as (_ & _ & K & _).
    destruct (K eq_refl) as (KP & KD & _).
    split; [exact KP | exact KD].
  - assert (X : Exists disables
                  (calls (PWM0_set_freq 100 Script.opened_50hz
                            (Script.with_writes [WOk; WErr 16; WErr 16])))).
    { vm_compute.
      repeat first [apply Exists_cons_hd; exact I | apply Exists_cons_tl]. }
    exact (proj2 (proj2 (proj2
             (proj2 (set_freq_effect 100 Script.opened_50hz
                       (Script.with_writes [WOk; WErr 16; WErr 16]))
                D eq_refl)))
             (or_introl X)).
Defined.

(** Open, set the duty, clean up, change the frequency: the chip chosen
    by the first call is the one every later call works on. *)
Lemma api_keeps_channel_witness :
  consistent startup
  /\ g_pwm_dir
       (snd (result (run_ops [Init 50 0.5; SetDuty 0.25; Cleanup; SetFreq 100]
                       startup Script.healthy))) = Some 0
  /\ Forall (on_channel (Some 0))
       (calls (run_ops [Init 50 0.5; SetDuty 0.25; Cleanup; SetFreq 100]
                 startup Script.healthy)).
Proof.
  assert (C : consistent startup) by (split; [cbn; lia | cbn; lia]).
  split; [exact C |].
  pose proof (api_keeps_channel
                [Init 50 0.5; SetDuty 0.25; Cleanup; SetFreq 100]
                startup Script.healthy C) as H.
  cbn zeta in H. destruct H as (_ & _ & F & _).
  split; [reflexivity | exact F].
Defined.

End Pwm0ApiRuns.

(** ** Opening and moving the servo *)

Section ServoOpen.
Import Sys Servo ServoApi.
Context {W : Type} {P : Platform W}.

Lemma pending_facts (n : nat) (p : path) :
  slept (pending n p) = 20 * Z.of_nat n
  /\ Forall no_attr_write (pending n p).
Proof.
  induction n as [| n [IH1 IH2]]; [split; [reflexivity | constructor] |].
  split.
  - cbn [pending slept]. rewrite IH1. lia.
  - cbn [pending]. constructor; [exact I |]. constructor; [exact I | exact IH2].
Qed.

(** The wait loop: the directory shows up in round [n < k], or never. *)
Lemma await_pwm_calls (p : path) (k : nat) :
  forall w u w' t,
    await_pwm k p w = (u, w', t) ->
    (exists n, (n < k)%nat /\ t = pending n p ++ [CStat p true])
    \/ t = pending k p.
Proof.
  induction k as [| k IH]; intros w u w' t E.
  - injection E as <- <- <-. now right.
  - cbn [await_pwm] in E. hal_unfold E. next_stat E. destruct ex.
    + injection E as <- <- <-. left. exists 0%nat. split; [lia | reflexivity].
    + destruct (await_pwm k p (sys_sleep 20 w0)) as [[u' w1] t1] eqn:A.
      injection E as <- <- <-.
      destruct (IH _ _ _ _ A) as [(n & L & ->) | ->].
      * left. exists (S n). split; [lia | reflexivity].
      * now right.
Qed.

Lemma export_pwm_calls (chip channel : Z) (w : W) (rc : Z) (w' : W)
  (t : list call) :
  export_pwm chip channel w = (rc, w', t) -> export_calls chip channel rc t.
Proof.
  intros E. unfold export_pwm in E. hal_unfold E. next_stat E.
  destruct ex; cbn [negb] in E.
  2: { injection E as <- <- <-. constructor. }
  next_stat E. destruct ex.
  1: { injection E as <- <- <-. constructor. }
  next_write E.
  assert (B : forall r : wres,
             (errno_of r =? - EBUSY) = true -> r = WErr 16).
  { intros [| | e] H; try discriminate H.
    change ((- Z.pos e =? - 16) = true) in H.
    apply Z.eqb_eq in H. f_equal. lia. }
  fold (errno_of r) in E.
  destruct (errno_of r =? - EBUSY) eqn:Q.
  - injection E as <- <- <-. rewrite (B r Q). constructor.
  - assert (N : r <> WErr 16) by (intros ->; discriminate).
    destruct (await_pwm 50 (PwmDir chip channel) _) as [[u wa] ta] eqn:A.
    cbn [app] in E. next_stat E. injection E as <- <- <-.
    destruct (await_pwm_calls _ _ _ _ _ _ A) as [(n & L & ->) | ->].
    + rewrite <- app_assoc. cbn [app].
      now apply export_waited.
    + now apply export_timed_out.
Qed.

Lemma export_calls_facts (chip channel rc : Z) (t : list call) :
  export_calls chip channel rc t ->
  rc <= 0 /\ slept t <= 1000 /\ Forall no_attr_write t
  /\ Forall (on_servo (chip, channel)) t.
Proof.
  assert (Q : forall n l,
             Forall (on_servo (chip, channel)) l ->
             Forall (on_servo (chip, channel))
               (pending n (PwmDir chip channel) ++ l)).
  { induction n as [| n IH]; intros l F; [exact F |].
    cbn. constructor; [exact I |]. constructor; [exact I | now apply IH]. }
  intros [| | | r n seen N L | r seen N].
  - split; [unfold ENOENT; lia |]. split; [cbn; lia |].
    split; repeat constructor.
  - split; [lia |]. split; [cbn; lia |]. split; repeat constructor.
  - split; [lia |]. split; [cbn; lia |]. split; repeat constructor.
  - destruct (pending_facts n (PwmDir chip channel)) as [S F].
    split; [destruct seen, r; cbn; lia |].
    split; [cbn [slept]; rewrite slept_app, S; cbn [slept]; lia |].
    split.
    + do 3 (constructor; [exact I |]). apply Forall_app.
      split; [exact F | repeat constructor].
    + do 3 (constructor; [exact I |]). apply Q. repeat constructor.
  - destruct (pending_facts 50 (PwmDir chip channel)) as [S F].
    split; [destruct seen, r; cbn; lia |].
    split; [cbn [slept]; rewrite slept_app, S; cbn [slept]; lia |].
    split.
    + do 3 (constructor; [exact I |]). apply Forall_app.
      split; [exact F | repeat constructor].
    + do 3 (constructor; [exact I |]). apply Q. repeat constructor.
Qed.

(** X5.  [export_pwm] of servo.c makes one of five sequences of calls:
    the chip directory is missing (-ENOENT, nothing written); the channel
    directory is already there (0, nothing written); the export request
    fails with EBUSY (0 at once); or the request has another outcome and
    the directory is awaited for at most fifty rounds of 20 ms and then
    checked once more.  That last check alone decides: the directory seen
    gives 0, not seen gives the outcome of the request, which is 0 when
    the request was written, even partly, so that success does not imply
    the directory exists.  The value is never positive, at most one second
    is slept and no attribute is written. *)
Theorem export_pwm_outcomes (chip channel : Z) (w : W) :
  let r := export_pwm chip channel w in
  export_calls chip channel (result r) (calls r)
  /\ result r <= 0
  /\ slept (calls r) <= 1000
  /\ Forall no_attr_write (calls r).
Proof.
  intros r. destruct (export_pwm chip channel w) as [[rc w'] t] eqn:E.
  subst r. cbn [result calls fst snd].
  apply export_pwm_calls in E.
  destruct (export_calls_facts _ _ _ _ E) as (H1 & H2 & H3 & _).
  auto.
Qed.

Ltac on_list :=
  repeat (apply Forall_cons; [cbn; auto |]); apply Forall_nil.

Lemma servo_init_shape (chip channel period neutral lo hi : Z) (w : W)
  (rc : Z) (s : Servo) (w' : W) (t : list call) :
  servo_init chip channel period neutral lo hi w = (rc, s, w', t) ->
  let c := if chip <? 0
           then match sys_getenv_chip w with Some c => c | None => 0 end
           else chip in
  s = {| Servo.chip := c; Servo.channel := channel; period_ns := period;
         neutral_ns := neutral; min_ns := lo; max_ns := hi;
         base := base s; enabled := rc =? 0 |}
  /\ rc <= 0
  /\ (base s = None \/ base s = Some (c, channel))
  /\ Forall (on_servo (c, channel)) t
  /\ (rc = 0 ->
      base s = Some (c, channel)
      /\ exists pre r1 r2 r3,
           t = pre
               ++ [CWrite (AttrFile c channel Period) (Num period) r1;
                   CWrite (AttrFile c channel DutyCycle) (Num neutral) r2;
                   CWrite (AttrFile c channel Enable) (Num 1) r3]
           /\ errno_of r1 = 0 /\ errno_of r2 = 0 /\ errno_of r3 = 0).
Proof.
  intros E c. unfold servo_init in E. unfold bind at 1 in E.
  unfold getenv_chip in E. fold c in E.
  unfold bind at 1 in E.
  destruct (export_pwm c channel w) as [[rc1 w1] t1] eqn:X.
  apply export_pwm_calls, export_calls_facts in X.
  destruct X as (X1 & _ & _ & X2).
  destruct (Z.eqb_spec rc1 0) as [-> | R]; cbn [negb] in E.
  - unfold attr_path in E. hal_unfold E. next_write E. next_write E.
    next_stat E.
    destruct ex; cbn [fst snd app] in E;
      [next_write E |];
      repeat (next_write E;
              match goal with
              | r : wres |- _ => destruct r; cbn [negb Z.eqb Z.opp] in E
              end);
      injection E as <- <- <- <-; cbn [base];
      (split; [reflexivity |]); (split; [cbn; lia |]);
      (split; [now right |]);
      (split; [apply Forall_app; split; [exact X2 | on_list] |]);
      try (intros H; discriminate H).
    all: intros _; split; [reflexivity |].
    all: match goal with
         | |- exists pre r1 r2 r3, ?t1 ++ ?l = _ /\ _ =>
             let rec last3 l acc :=
               lazymatch l with
               | [CWrite ?p1 ?v1 ?a; CWrite ?p2 ?v2 ?b; CWrite ?p3 ?v3 ?c'] =>
                   constr:((acc, a, b, c'))
               | ?x :: ?l' => last3 l' constr:(acc ++ [x])
               end in
             let q := last3 l constr:(@nil call) in
             lazymatch q with
             | (?acc, ?a, ?b, ?c') =>
                 exists (t1 ++ acc), a, b, c';
                 rewrite <- app_assoc; repeat split
             end
         end.
  - injection E as <- <- <- <-. cbn [base].
    apply Z.eqb_neq in R. rewrite R.
    split; [reflexivity |]. split; [exact X1 |]. split; [now left |].
    split; [now rewrite app_nil_r |].
    intros ->. discriminate.
Qed.

(** The export step inside [servo_init]: it runs first, on the chip
    chosen and in the world as found; its result alone decides the base
    path; and a result other than 0 ends the call there. *)
Lemma servo_init_export (chip channel period neutral lo hi : Z) (w : W)
  (rc : Z) (s : Servo) (w' : W) (t : list call) :
  servo_init chip channel period neutral lo hi w = (rc, s, w', t) ->
  let c := if chip <? 0
           then match sys_getenv_chip w with Some c => c | None => 0 end
           else chip in
  let x := export_pwm c channel w in
  base s = (if result x =? 0 then Some (c, channel) else None)
  /\ (exists rest, t = calls x ++ rest)
  /\ (result x <> 0 ->
      rc = result x /\ enabled s = false /\ w' = world x /\ t = calls x).
Proof.
  intros E c. unfold servo_init in E. unfold bind at 1 in E.
  unfold getenv_chip in E. fold c in E.
  unfold bind at 1 in E.
  destruct (export_pwm c channel w) as [[rc1 w1] t1] eqn:X.
  cbn zeta. cbn [result calls world fst snd].
  destruct (Z.eqb_spec rc1 0) as [-> | R]; cbn [negb] in E.
  - unfold attr_path in E. hal_unfold E. next_write E. next_write E.
    next_stat E.
    destruct ex; cbn [fst snd app] in E;
      [next_write E |];
      repeat (next_write E;
              match goal with
              | r : wres |- _ => destruct r; cbn [negb Z.eqb Z.opp] in E
              end);
      injection E as <- <- <- <-; cbn [base];
      (split; [reflexivity |]);
      (split; [eexists; reflexivity |]);
      intros H; now elim H.
  - injection E as <- <- <- <-. cbn [base enabled].
    split; [now destruct (Z.eqb_spec rc1 0) |].
    split; [now exists [] |].
    intros _. now rewrite app_nil_r.
Qed.

(** X6.  [servo_init] always fills in the structure it is given: the
    chip (the argument, or for a negative argument the environment's
    chip, or 0), the channel and the four timings exactly as passed.  It
    returns 0 or a negative [errno]; the servo is enabled exactly when it
    returns 0; and every attribute it touches is one of that channel.  It
    starts with the calls of [export_pwm] for that chip and channel: the
    base path is set exactly when [export_pwm] returned 0 and is empty
    otherwise, and when [export_pwm] returned another value the call
    returns that value with nothing more done.  When it returns 0 its last
    three calls program the period, then the neutral pulse exactly as
    passed (whether or not it lies between min and max), then [enable] 1,
    and none of the three failed. *)
Theorem servo_init_outcomes (chip channel period neutral lo hi : Z) (w : W) :
  let r := servo_init chip channel period neutral lo hi w in
  let rc := fst (result r) in
  let s := snd (result r) in
  let c := if chip <? 0
           then match sys_getenv_chip w with Some c => c | None => 0 end
           else chip in
  let x := export_pwm c channel w in
  (Servo.chip s = c /\ Servo.channel s = channel /\ period_ns s = period
   /\ neutral_ns s = neutral /\ min_ns s = lo /\ max_ns s = hi)
  /\ rc <= 0
  /\ enabled s = (rc =? 0)
  /\ (base s = None \/ base s = Some (c, channel))
  /\ Forall (on_servo (c, channel)) (calls r)
  /\ (rc = 0 ->
      base s = Some (c, channel)
      /\ exists pre r1 r2 r3,
           calls r
           = pre
             ++ [CWrite (AttrFile c channel Period) (Num period) r1;
                 CWrite (AttrFile c channel DutyCycle) (Num neutral) r2;
                 CWrite (AttrFile c channel Enable) (Num 1) r3]
           /\ errno_of r1 = 0 /\ errno_of r2 = 0 /\ errno_of r3 = 0)
  /\ base s = (if result x =? 0 then Some (c, channel) else None)
  /\ (exists rest, calls r = calls x ++ rest)
  /\ (result x <> 0 ->
      rc = result x /\ world r = world x /\ calls r = calls x).
Proof.
  intros r rc s c x.
  destruct (servo_init chip channel period neutral lo hi w)
    as [[[rc0 s0] w'] t] eqn:E.
  subst r rc s. cbn [result calls world fst snd].
  destruct (servo_init_export _ _ _ _ _ _ _ _ _ _ _ E) as (XB & XT & XR).
  fold c in XB, XT, XR. fold x in XB, XT, XR.
  destruct (servo_init_shape _ _ _ _ _ _ _ _ _ _ _ E)
    as (S & R & B & F & OK).
  fold c in S, B, F, OK.
  split; [rewrite S; cbn; repeat split |].
  split; [exact R |]. split; [rewrite S; reflexivity |].
  split; [exact B |]. split; [exact F |]. split; [exact OK |].
  split; [exact XB |]. split; [exact XT |].
  intros N. destruct (XR N) as (H1 & _ & H2 & H3). auto.
Qed.

End ServoOpen.

Section ServoBand.
Import Sys Servo ServoApi.
Context {W : Type} {P : Platform W}.

Lemma clamp_band (v lo hi : Z) :
  lo <= hi ->
  lo <= clamp v lo hi <= hi /\ (lo <= v <= hi -> clamp v lo hi = v).
Proof.
  intros H. unfold clamp.
  destruct (Z.ltb_spec v lo); [lia |].
  destruct (Z.ltb_spec hi v); lia.
Qed.

Lemma pct_to_ns_saturates (s : Servo) (pct dir : Z) :
  (100 <= pct -> pct_to_ns s pct dir = pct_to_ns s 100 dir)
  /\ (pct <= 0 -> in_int (neutral_ns s) -> pct_to_ns s pct dir = neutral_ns s).
Proof.
  unfold pct_to_ns, clamp. split.
  - intros H. destruct (Z.ltb_spec pct 0); [lia |].
    destruct (Z.ltb_spec 100 pct); [reflexivity |].
    now replace pct with 100 by lia.
  - intros H N. destruct (Z.ltb_spec pct 0).
    + rewrite Z.mul_0_r. change (Z.quot (wrap32 0) 100) with 0.
      rewrite Z.add_0_r, Z.sub_0_r, (wrap32_id _ N).
      now destruct (0 <=? dir).
    + replace pct with 0 by lia. cbn [Z.ltb Z.compare].
      rewrite Z.mul_0_r. change (Z.quot (wrap32 0) 100) with 0.
      rewrite Z.add_0_r, Z.sub_0_r, (wrap32_id _ N).
      now destruct (0 <=? dir).
Qed.

Lemma move_is_pulse (s : Servo) (m : motion) (w : W) :
  move s m w = servo_set_pulse_ns s (asked s m) w.
Proof.
  now destruct m.
Qed.

(** X7.  On an enabled servo with [min_ns <= max_ns], each of
    [servo_set_pulse_ns], [servo_left], [servo_right] and [servo_stop]
    makes exactly one call, a write to the duty file of the servo, and
    the value written is the pulse asked for clamped into the band, so it
    never leaves the band whatever the argument; the operation returns 0
    unless that write fails with an [errno], which it returns negated (a
    short write counts as success).  A speed above 100 acts as 100, and
    a speed of 0 or less acts as [servo_stop] when the neutral pulse is
    in the range of [int]. *)
Theorem servo_moves_in_band (s : Servo) (m : motion) (w : W) :
  enabled s = true ->
  min_ns s <= max_ns s ->
  let r := move s m w in
  (exists d out,
     calls r = [CWrite (attr_path (base s) DutyCycle) (Num d) out]
     /\ d = clamp (asked s m) (min_ns s) (max_ns s)
     /\ min_ns s <= d <= max_ns s
     /\ (min_ns s <= asked s m <= max_ns s -> d = asked s m)
     /\ result r = errno_of out)
  /\ (forall pct, 100 <= pct ->
      move s (Left pct) w = move s (Left 100) w
      /\ move s (Right pct) w = move s (Right 100) w)
  /\ (forall pct, pct <= 0 -> in_int (neutral_ns s) ->
      move s (Left pct) w = move s Stop w
      /\ move s (Right pct) w = move s Stop w).
Proof.
  intros En B r. split; [| split].
  - subst r. rewrite move_is_pulse. unfold servo_set_pulse_ns.
    rewrite En. cbn [negb]. unfold write_int, write_str, bind, write, ret.
    destruct (sys_write _ _ w) as [out w'].
    exists (clamp (asked s m) (min_ns s) (max_ns s)), out.
    destruct (clamp_band (asked s m) _ _ B) as [C1 C2].
    cbn [calls result fst snd app]. repeat split; auto; apply C1.
  - intros pct H. rewrite !move_is_pulse. cbn [asked].
    now rewrite !(proj1 (pct_to_ns_saturates s pct _) H).
  - intros pct H N. rewrite !move_is_pulse. cbn [asked].
    now rewrite !(proj2 (pct_to_ns_saturates s pct _) H N).
Qed.

End ServoBand.

Section ServoApiRuns.
Import Sys Servo ServoApi.

(** On the healthy board the servo of [main.c] is opened and its last
    three calls program 20 ms, 1.6 ms and [enable] 1; on a board without
    the chip directory the export step returns -ENOENT, and so does
    [servo_init], with the base path empty and no call beyond that step. *)
Lemma servo_init_outcomes_witness :
  fst (result (servo_init (-1) 0 20000000 1600000 1200000 2000000
                 Script.healthy)) = 0
  /\ (exists pre r1 r2 r3,
        calls (servo_init (-1) 0 20000000 1600000 1200000 2000000
                 Script.healthy)
        = pre
          ++ [CWrite (AttrFile 0 0 Period) (Num 20000000) r1;
              CWrite (AttrFile 0 0 DutyCycle) (Num 1600000) r2;
              CWrite (AttrFile 0 0 Enable) (Num 1) r3]
        /\ errno_of r1 = 0 /\ errno_of r2 = 0 /\ errno_of r3 = 0)
  /\ result (export_pwm 0 0 (Script.absent [0])) = - ENOENT
  /\ base (snd (result (servo_init 0 0 20000000 1600000 1200000 2000000
                          (Script.absent [0])))) = None
  /\ (fst (result (servo_init 0 0 20000000 1600000 1200000 2000000
                     (Script.absent [0])))
      = result (export_pwm 0 0 (Script.absent [0]))
      /\ world (servo_init 0 0 20000000 1600000 1200000 2000000
                  (Script.absent [0]))
         = world (export_pwm 0 0 (Script.absent [0]))
      /\ calls (servo_init 0 0 20000000 1600000 1200000 2000000
                  (Script.absent [0]))
         = calls (export_pwm 0 0 (Script.absent [0]))).
Proof.
  split; [reflexivity |].
  split.
  - exact (proj2 (proj1 (proj2 (proj2 (proj2 (proj2 (proj2
             (servo_init_outcomes (-1) 0 20000000 1600000 1200000 2000000
                Script.healthy)))))) eq_refl)).
  - split; [reflexivity |].
    assert (N : result (export_pwm 0 0 (Script.absent [0])) <> 0)
      by discriminate.
    split.
    + exact (proj1 (proj2 (proj2 (proj2 (proj2 (proj2 (proj2
               (servo_init_outcomes 0 0 20000000 1600000 1200000 2000000
                  (Script.absent [0]))))))))).
    + exact (proj2 (proj2 (proj2 (proj2 (proj2 (proj2 (proj2 (proj2
               (servo_init_outcomes 0 0 20000000 1600000 1200000 2000000
                  (Script.absent [0]))))))))) N).
Defined.

(** The servo of [main.c] asked for 250% to the left: the pulse asked
    for is neutral minus the whole span, 1,200,000 ns, the lower end of
    the band. *)
Lemma servo_moves_in_band_witness :
  (enabled Script.main_servo = true
   /\ min_ns Script.main_servo <= max_ns Script.main_servo)
  /\ (exists d out,
        calls (move Script.main_servo (Left 250) Script.healthy)
        = [CWrite (attr_path (base Script.main_servo) DutyCycle) (Num d) out]
        /\ min_ns Script.main_servo <= d <= max_ns Script.main_servo)
  /\ asked Script.main_servo (Left 250) = 1200000.
Proof.
  assert (B : min_ns Script.main_servo <= max_ns Script.main_servo)
    by (vm_compute; discriminate).
  split; [split; [reflexivity | exact B] |].
  split; [| reflexivity].
  destruct (proj1 (servo_moves_in_band Script.main_servo (Left 250)
                     Script.healthy eq_refl B))
    as (d & out & C & _ & R & _).
  now exists d, out.
Defined.

End ServoApiRuns.

(** ** Joining paths *)

Section PathJoin.
Import CString.

Lemma c_str_prefix (mem : list ascii) :
  firstn (length (c_str mem)) mem = c_str mem.
Proof.
  induction mem as [| c rest IH]; [reflexivity |].
  cbn [c_str]. destruct (Ascii.eqb c NUL); [reflexivity |].
  cbn. now rewrite IH.
Qed.

Lemma c_str_terminated (mem : list ascii) :
  In NUL mem -> firstn (S (length (c_str mem))) mem = c_str mem ++ [NUL].
Proof.
  induction mem as [| c rest IH]; intros H; [destruct H |].
  cbn [c_str]. destruct (Ascii.eqb_spec c NUL) as [-> | N].
  - reflexivity.
  - destruct H as [H | H]; [congruence |].
    cbn [length firstn app]. now rewrite <- (IH H).
Qed.

Lemma c_str_length (mem : list ascii) :
  In NUL mem -> (length (c_str mem) < length mem)%nat.
Proof.
  induction mem as [| c rest IH]; intros H; [destruct H |].
  cbn [c_str]. destruct (Ascii.eqb_spec c NUL) as [-> | N].
  - cbn. lia.
  - destruct H as [H | H]; [congruence |]. cbn. specialize (IH H). lia.
Qed.

Lemma c_str_no_nul (mem : list ascii) : ~ In NUL (c_str mem).
Proof.
  induction mem as [| c rest IH]; [intros [] |].
  cbn [c_str]. destruct (Ascii.eqb_spec c NUL) as [-> | N]; [intros [] |].
  intros [H | H]; [congruence | now apply IH].
Qed.

Lemma c_str_stops (l rest : list ascii) :
  ~ In NUL l -> c_str (l ++ NUL :: rest) = l.
Proof.
  induction l as [| c l IH]; intros H.
  - reflexivity.
  - cbn [app c_str]. destruct (Ascii.eqb_spec c NUL) as [-> | N].
    + exfalso. apply H. now left.
    + f_equal. apply IH. intros K. apply H. now right.
Qed.

Lemma path_join2_joined (dst a b : list ascii) :
  In NUL b ->
  (length (c_str a) + length (c_str b) < length dst)%nat ->
  path_join2 dst (Z.of_nat (length dst)) a b
  = (0, c_str a ++ c_str b ++ NUL
        :: skipn (S (length (c_str a) + length (c_str b))) dst).
Proof.
  intros Hb L. unfold path_join2, strnlen, strlen.
  set (la := length (c_str a)) in *. set (lb := length (c_str b)) in *.
  rewrite Z.min_l by lia.
  destruct (Z.leb_spec (Z.of_nat (length dst)) (Z.of_nat la)); [lia |].
  destruct (Z.leb_spec (Z.of_nat (length dst)) (Z.of_nat la + Z.of_nat lb));
    [lia |].
  f_equal. unfold memcpy.
  replace (Z.to_nat 0) with 0%nat by reflexivity.
  replace (Z.to_nat (0 + Z.of_nat la)) with la by lia.
  replace (Z.to_nat (Z.of_nat la)) with la by lia.
  replace (Z.to_nat (Z.of_nat lb + 1)) with (S lb) by lia.
  replace (Z.to_nat (Z.of_nat la + (Z.of_nat lb + 1))) with (la + S lb)%nat
    by lia.
  subst la lb.
  rewrite c_str_prefix, (c_str_terminated b Hb), firstn_O.
  cbn [app].
  rewrite firstn_app, firstn_all, Nat.sub_diag, firstn_O.
  rewrite app_nil_r, <- !app_assoc. f_equal. f_equal. cbn [app]. f_equal.
  rewrite skipn_app, skipn_skipn.
  rewrite (skipn_all2 (c_str a)) by lia. cbn [app]. f_equal. lia.
Qed.

(** X8.  [path_join2], for a buffer of [dstsz] bytes and two terminated
    strings: it returns 0 exactly when both strings and the terminator
    fit, that is when the two lengths add up to less than [dstsz], and -1
    otherwise.  On 0 the buffer holds the first string followed by the
    second; on -1 the buffer is untouched.  Either way the buffer keeps
    its size: nothing is written past its end. *)
Theorem path_join2_fits (dst a b : list ascii) (dstsz : Z) :
  Z.of_nat (length dst) = dstsz ->
  In NUL a -> In NUL b ->
  let r := path_join2 dst dstsz a b in
  (fst r = 0 \/ fst r = -1)
  /\ (fst r = 0 <-> strlen a + strlen b < dstsz)
  /\ length (snd r) = length dst
  /\ (fst r = 0 -> c_str (snd r) = c_str a ++ c_str b)
  /\ (fst r = -1 -> snd r = dst).
Proof.
  intros <- Ha Hb r.
  destruct (Z.ltb_spec (strlen a + strlen b) (Z.of_nat (length dst)))
    as [L | L].
  - unfold strlen in L.
    assert (L' : (length (c_str a) + length (c_str b) < length dst)%nat)
      by lia.
    subst r. rewrite (path_join2_joined dst a b Hb L'). cbn [fst snd].
    split; [now left |]. split; [unfold strlen; tauto |].
    split; [| split; [| discriminate]].
    + rewrite !length_app. cbn [length]. rewrite length_skipn. lia.
    + intros _. rewrite app_assoc. apply c_str_stops.
      intros K. apply in_app_or in K.
      destruct K as [K | K]; now apply c_str_no_nul in K.
  - assert (E : r = (-1, dst)).
    { subst r. unfold path_join2, strnlen.
      destruct (Z.leb_spec (Z.of_nat (length dst))
                  (Z.min (strlen a) (Z.of_nat (length dst))));
        [reflexivity |].
      assert (M : Z.min (strlen a) (Z.of_nat (length dst)) = strlen a)
        by lia.
      rewrite M.
      destruct (Z.leb_spec (Z.of_nat (length dst)) (strlen a + strlen b));
        [reflexivity | lia]. }
    rewrite E. cbn [fst snd].
    split; [now right |]. split; [split; [discriminate | lia] |].
    split; [reflexivity |]. split; [discriminate | reflexivity].
Qed.

(** X9.  The joins PWM0.c makes cannot fail for the paths of sysfs: for
    a chip path of at most 4079 bytes, in buffers of [PATH_MAX] bytes,
    [path_join2] returns 0 when it appends [/export] or [/pwm0] to the chip
    path, and again when it appends [/enable], [/period] or [/duty_cycle]
    to the channel path so built. *)
Theorem pwm0_joins_fit (chip dst0 dst1 : list ascii) (suffix : list ascii) :
  In NUL chip ->
  strlen chip <= 4079 ->
  Z.of_nat (length dst0) = PATH_MAX ->
  Z.of_nat (length dst1) = PATH_MAX ->
  In suffix [slash_enable; slash_period; slash_duty_cycle] ->
  fst (path_join2 dst0 PATH_MAX chip slash_export) = 0
  /\ fst (path_join2 dst0 PATH_MAX chip slash_pwm0) = 0
  /\ fst (path_join2 dst1 PATH_MAX
            (snd (path_join2 dst0 PATH_MAX chip slash_pwm0)) suffix) = 0.
Proof.
  intros Hc L D0 D1 Sf. unfold PATH_MAX in *. unfold strlen in L.
  assert (E : path_join2 dst0 4096 chip slash_export
              = (0, c_str chip ++ c_str slash_export ++ NUL
                    :: skipn (S (length (c_str chip)
                                 + length (c_str slash_export))%nat) dst0)).
  { rewrite <- D0. apply path_join2_joined; [cbn; tauto | cbn; lia]. }
  assert (G : path_join2 dst0 4096 chip slash_pwm0
              = (0, c_str chip ++ c_str slash_pwm0 ++ NUL
                    :: skipn (S (length (c_str chip)
                                 + length (c_str slash_pwm0))%nat) dst0)).
  { rewrite <- D0. apply path_join2_joined; [cbn; tauto | cbn; lia]. }
  rewrite E, G. cbn [fst snd]. split; [reflexivity |].
  split; [reflexivity |].
  set (g := c_str chip ++ c_str slash_pwm0 ++ NUL :: _).
  assert (Cg : c_str g = c_str chip ++ c_str slash_pwm0).
  { subst g. rewrite app_assoc. apply c_str_stops.
    intros K. apply in_app_or in K. destruct K as [K | K].
    - now apply c_str_no_nul in K.
    - cbn in K. intuition discriminate. }
  assert (J : forall b, In NUL b -> (length (c_str b) <= 11)%nat ->
              fst (path_join2 dst1 4096 g b) = 0).
  { intros b Hb Lb. rewrite <- D1.
    rewrite (path_join2_joined dst1 g b Hb); [reflexivity |].
    rewrite Cg, length_app. cbn [c_str slash_pwm0 length Ascii.eqb].
    cbn. cbn in Lb. lia. }
  destruct Sf as [<- | [<- | [<- | []]]]; apply J; cbn; try lia; tauto.
Qed.

End PathJoin.

Section PathJoinRuns.
Import CString.

(** A buffer of eight bytes takes [/a] and [/pwm0]; one of seven bytes
    does not. *)
Lemma path_join2_fits_witness :
  (fst (path_join2 (repeat NUL 8) 8 ["/"; "a"; NUL]%char slash_pwm0) = 0
   <-> strlen ["/"; "a"; NUL]%char + strlen slash_pwm0 < 8)
  /\ c_str (snd (path_join2 (repeat NUL 8) 8 ["/"; "a"; NUL]%char slash_pwm0))
     = ["/"; "a"; "/"; "p"; "w"; "m"; "0"]%char
  /\ fst (path_join2 (repeat NUL 7) 7 ["/"; "a"; NUL]%char slash_pwm0) = -1.
Proof.
  split; [| split; reflexivity].
  refine (proj1 (proj2 (path_join2_fits (repeat NUL 8) ["/"; "a"; NUL]%char
                          slash_pwm0 8 eq_refl _ _))); cbn; tauto.
Defined.

(** The chip path [/sys/class/pwm/pwmchip0]. *)
Lemma pwm0_joins_fit_witness :
  fst (path_join2 (repeat NUL 4096) PATH_MAX
         (snd (path_join2 (repeat NUL 4096) PATH_MAX
                 ["/"; "s"; "y"; "s"; "/"; "c"; "l"; "a"; "s"; "s"; "/";
                  "p"; "w"; "m"; "/"; "p"; "w"; "m"; "c"; "h"; "i"; "p";
                  "0"; NUL]%char
                 slash_pwm0))
         slash_duty_cycle) = 0.
Proof.
  refine (proj2 (proj2 (pwm0_joins_fit _ (repeat NUL 4096) (repeat NUL 4096)
                          slash_duty_cycle _ _ _ _ _))).
  - cbn. tauto.
  - vm_compute. discriminate.
  - vm_compute. reflexivity.
  - vm_compute. reflexivity.
  - cbn. tauto.
Defined.

End PathJoinRuns.

(** ** Position and phase *)

Section Walk.
Import Rotary RotaryWalk.

Lemma wrap32_mod4 (z : Z) : wrap32 z mod 4 = z mod 4.
Proof.
  unfold wrap32.
  pose proof (Z.div_mod (z + 2 ^ 31) (2 ^ 32) ltac:(lia)) as H.
  replace ((z + 2 ^ 31) mod 2 ^ 32 - 2 ^ 31)
    with (z + (- 2 ^ 30 * ((z + 2 ^ 31) / 2 ^ 32)) * 4) by lia.
  apply Z_mod_plus_full.
Qed.

Lemma wrap32_sub_mod4 (z c : Z) : (wrap32 z - c) mod 4 = (z - c) mod 4.
Proof.
  rewrite Zminus_mod, wrap32_mod4, <- Zminus_mod. reflexivity.
Qed.

Lemma eqm4 (x y k : Z) : x = y + k * 4 -> x mod 4 = y mod 4.
Proof.
  intros ->. apply Z_mod_plus_full.
Qed.

Ltac eval_code :=
  repeat match goal with
         | |- context [transition ?a ?b] =>
             let v := eval vm_compute in (transition a b) in
             change (transition a b) with v
         end;
  cbv [decode phase atomic_fetch_add atomic_fetch_sub].

Lemma state_cases (a b : Z) :
  is_bit a -> is_bit b ->
  pack a b = 0 \/ pack a b = 1 \/ pack a b = 2 \/ pack a b = 3.
Proof.
  intros [-> | ->] [-> | ->]; cbn; auto.
Qed.

(** One iteration that does not skip a state moves the position and the
    phase together. *)
Lemma tick_keeps_phase (s : sample) (e : enc) :
  0 <= last e <= 3 ->
  is_bit (s_a s) -> is_bit (s_b s) ->
  adjacent (last e) (pack (s_a s) (s_b s)) = true ->
  (g_pos (tick s e) - phase (last (tick s e))) mod 4
  = (g_pos e - phase (last e)) mod 4.
Proof.
  intros R A B J. rewrite tick_pos, tick_last.
  assert (C : last e = 0 \/ last e = 1 \/ last e = 2 \/ last e = 3) by lia.
  destruct (state_cases _ _ A B) as [Q | [Q | [Q | Q]]]; rewrite Q in *;
    destruct C as [C | [C | [C | C]]]; rewrite C in *;
    try discriminate J; eval_code;
    try reflexivity;
    rewrite wrap32_sub_mod4;
    first [ apply (eqm4 _ _ 0); lia | apply (eqm4 _ _ 1); lia
          | apply (eqm4 _ _ (-1)); lia ].
Qed.

Lemma tick_there_and_back (s1 s2 : sample) (e : enc) :
  0 <= last e <= 3 -> in_int (g_pos e) ->
  is_bit (s_a s1) -> is_bit (s_b s1) ->
  adjacent (last e) (pack (s_a s1) (s_b s1)) = true ->
  pack (s_a s2) (s_b s2) = last e ->
  g_pos (tick s2 (tick s1 e)) = g_pos e.
Proof.
  intros R I A B J K. rewrite tick_pos, tick_last, tick_pos, K.
  assert (C : last e = 0 \/ last e = 1 \/ last e = 2 \/ last e = 3) by lia.
  assert (Up : wrap32 (wrap32 (g_pos e + 1) - 1) = g_pos e).
  { replace (wrap32 (g_pos e + 1) - 1) with (wrap32 (g_pos e + 1) + -1)
      by lia.
    rewrite wrap32_add_l. replace (g_pos e + 1 + -1) with (g_pos e) by lia.
    now apply wrap32_id. }
  assert (Dn : wrap32 (wrap32 (g_pos e - 1) + 1) = g_pos e).
  { rewrite wrap32_add_l. replace (g_pos e - 1 + 1) with (g_pos e) by lia.
    now apply wrap32_id. }
  destruct (state_cases _ _ A B) as [Q | [Q | [Q | Q]]]; rewrite Q in *;
    destruct C as [C | [C | [C | C]]]; rewrite C in *;
    try discriminate J; eval_code;
    first [reflexivity | exact Up | exact Dn].
Qed.

Lemma steady_phase (l : list sample) :
  forall e,
    0 <= last e <= 3 ->
    steady (last e) l ->
    0 <= last (encoder_loop l e) <= 3
    /\ (g_pos (encoder_loop l e) - phase (last (encoder_loop l e))) mod 4
       = (g_pos e - phase (last e)) mod 4.
Proof.
  induction l as [| s l IH]; intros e R S.
  - now split.
  - destruct S as (A & B & J & S).
    assert (R' : 0 <= last (tick s e) <= 3).
    { rewrite tick_last. now apply pack_bits. }
    rewrite <- (tick_last s e) in S.
    destruct (IH (tick s e) R' S) as [H1 H2].
    change (encoder_loop (s :: l) e) with (encoder_loop l (tick s e)).
    split; [exact H1 |]. rewrite H2. now apply tick_keeps_phase.
Qed.

(** X10.  While the knob never skips a quadrature state between two
    iterations and both lines read valid levels, the position counted by
    [encoder_thread] and the place of the current state on the cycle 00,
    01, 11, 10 move together: their difference modulo 4 never changes,
    whatever mix of forward steps, backward steps and pauses occurs.  So a
    thread started in state 00 counts a multiple of 4 whenever the knob is
    back in state 00; and a step to a neighbouring state followed by the
    return to the state before leaves the position as it was, so jitter
    on an edge does not accumulate. *)
Theorem phase_tracks_position (l : list sample) (e : enc) :
  0 <= last e <= 3 ->
  steady (last e) l ->
  (g_pos (encoder_loop l e) - phase (last (encoder_loop l e))) mod 4
  = (g_pos e - phase (last e)) mod 4
  /\ (g_pos e = 0 -> last e = 0 -> last (encoder_loop l e) = 0 ->
      g_pos (encoder_loop l e) mod 4 = 0)
  /\ (forall s1 s2,
        in_int (g_pos e) ->
        steady (last e) [s1] ->
        pack (s_a s2) (s_b s2) = last e ->
        g_pos (encoder_loop [s1; s2] e) = g_pos e).
Proof.
  intros R S. destruct (steady_phase l e R S) as [_ H].
  split; [exact H |]. split.
  - intros P0 L0 L1. rewrite L1, P0, L0 in H. cbn [phase] in H.
    now rewrite Z.sub_0_r in H.
  - intros s1 s2 I (A & B & J & _) K.
    now apply tick_there_and_back.
Qed.

(** Positions of two runs over the same samples that start [k] apart
    stay [k] apart, and everything else stays equal. *)
Lemma tick_offset (s : sample) (e1 e2 : enc) (k : Z) :
  in_int (g_pos e1) ->
  g_pos e2 = wrap32 (g_pos e1 + k) ->
  g_button_edge e2 = g_button_edge e1 ->
  last e2 = last e1 -> last_sw e2 = last_sw e1 ->
  last_sw_time e2 = last_sw_time e1 ->
  in_int (g_pos (tick s e1))
  /\ g_pos (tick s e2) = wrap32 (g_pos (tick s e1) + k)
  /\ g_button_edge (tick s e2) = g_button_edge (tick s e1)
  /\ last (tick s e2) = last (tick s e1)
  /\ last_sw (tick s e2) = last_sw (tick s e1)
  /\ last_sw_time (tick s e2) = last_sw_time (tick s e1).
Proof.
  intros I P F L S T.
  assert (D : forall d,
             in_int (decode d (g_pos e1))
             /\ decode d (g_pos e2) = wrap32 (decode d (g_pos e1) + k)).
  { intros d. rewrite P.
    assert (Up : in_int (wrap32 (g_pos e1 + 1))
                 /\ wrap32 (wrap32 (g_pos e1 + k) + 1)
                    = wrap32 (wrap32 (g_pos e1 + 1) + k)).
    { split; [apply wrap32_range |]. rewrite !wrap32_add_l. f_equal. lia. }
    assert (Dn : in_int (wrap32 (g_pos e1 - 1))
                 /\ wrap32 (wrap32 (g_pos e1 + k) - 1)
                    = wrap32 (wrap32 (g_pos e1 - 1) + k)).
    { split; [apply wrap32_range |].
      replace (wrap32 (g_pos e1 + k) - 1) with (wrap32 (g_pos e1 + k) + -1)
        by lia.
      rewrite !wrap32_add_l. f_equal. lia. }
    unfold decode, atomic_fetch_add, atomic_fetch_sub.
    destruct d as [| p | p]; [now split | | now split].
    do 4 (destruct p as [p | p |]; try (now split); try exact Up;
          try exact Dn). }
  rewrite !tick_pos, !tick_last, L.
  destruct (D (transition (last e1) (pack (s_a s) (s_b s)))) as [D1 D2].
  split; [exact D1 |]. split; [exact D2 |].
  unfold tick. rewrite S, T, F.
  destruct (s_sw s =? last_sw e1); cbn; auto.
Qed.

Lemma loop_offset (l : list sample) (k : Z) :
  forall e1 e2,
    in_int (g_pos e1) ->
    g_pos e2 = wrap32 (g_pos e1 + k) ->
    g_button_edge e2 = g_button_edge e1 ->
    last e2 = last e1 -> last_sw e2 = last_sw e1 ->
    last_sw_time e2 = last_sw_time e1 ->
    g_pos (encoder_loop l e2) = wrap32 (g_pos (encoder_loop l e1) + k)
    /\ g_button_edge (encoder_loop l e2) = g_button_edge (encoder_loop l e1)
    /\ last (encoder_loop l e2) = last (encoder_loop l e1)
    /\ last_sw (encoder_loop l e2) = last_sw (encoder_loop l e1)
    /\ last_sw_time (encoder_loop l e2) = last_sw_time (encoder_loop l e1).
Proof.
  induction l as [| s l IH]; intros e1 e2 I P F L S T.
  - cbn. auto.
  - change (encoder_loop (s :: l) e1) with (encoder_loop l (tick s e1)).
    change (encoder_loop (s :: l) e2) with (encoder_loop l (tick s e2)).
    destruct (tick_offset s e1 e2 k I P F L S T) as (I' & P' & F' & L' & S' & T').
    now apply IH.
Qed.

(** X11.  [rotaryEncoder_set_position] only shifts the count.  After it
    the thread decodes exactly as it would have without the call: over
    any later samples the quadrature state, the tracked button level, its
    timestamp and the one-shot flag are the same, and the position differs
    from the one it would have had by the offset the call introduced,
    modulo the 32-bit wrap; a call with the current position changes
    nothing. *)
Theorem set_position_offset (l : list sample) (e : enc) (v : Z) :
  in_int (g_pos e) ->
  in_int v ->
  let e1 := encoder_loop l e in
  let e2 := encoder_loop l (rotaryEncoder_set_position v e) in
  rotaryEncoder_get_position e2
  = wrap32 (rotaryEncoder_get_position e1 + (v - g_pos e))
  /\ g_button_edge e2 = g_button_edge e1
  /\ last e2 = last e1
  /\ last_sw e2 = last_sw e1
  /\ last_sw_time e2 = last_sw_time e1
  /\ (v = g_pos e -> rotaryEncoder_get_position e2
                     = rotaryEncoder_get_position e1).
Proof.
  intros I V e1 e2.
  destruct (loop_offset l (v - g_pos e) e (rotaryEncoder_set_position v e))
    as (P & F & L & S & T); try reflexivity; try exact I.
  { cbn. replace (g_pos e + (v - g_pos e)) with v by lia.
    symmetry. now apply wrap32_id. }
  unfold rotaryEncoder_get_position. subst e1 e2.
  split; [exact P |]. split; [exact F |]. split; [exact L |].
  split; [exact S |]. split; [exact T |].
  intros ->. rewrite P, Z.sub_diag, Z.add_0_r.
  apply wrap32_id.
  clear - I. revert e I. induction l as [| s l IH]; intros e I; [exact I |].
  change (encoder_loop (s :: l) e) with (encoder_loop l (tick s e)).
  apply IH. rewrite tick_pos. unfold decode, atomic_fetch_add, atomic_fetch_sub.
  destruct (transition (last e) (pack (s_a s) (s_b s))) as [| p | p];
    try exact I.
  do 4 (destruct p as [p | p |]; try exact I; try apply wrap32_range).
Qed.

(** A wiggle on the first edge and three quarter steps backwards, from a
    thread started in state 00: position and phase agree modulo 4. *)
Lemma phase_tracks_position_witness :
  steady (last (encoder_start 0 0 0)) wiggle
  /\ (g_pos (encoder_loop wiggle (encoder_start 0 0 0))
      - phase (last (encoder_loop wiggle (encoder_start 0 0 0)))) mod 4
     = (g_pos (encoder_start 0 0 0) - phase (last (encoder_start 0 0 0)))
       mod 4
  /\ g_pos (encoder_loop wiggle (encoder_start 0 0 0)) = -3.
Proof.
  assert (S : steady (last (encoder_start 0 0 0)) wiggle).
  { cbn. unfold is_bit. intuition auto. }
  split; [exact S |]. split; [| reflexivity].
  refine (proj1 (phase_tracks_position wiggle (encoder_start 0 0 0) _ S)).
  cbn. lia.
Defined.

(** One turn forward after the position was set to 100: 104, where the
    untouched thread counts 4. *)
Lemma set_position_offset_witness :
  rotaryEncoder_get_position
    (encoder_loop one_turn
       (rotaryEncoder_set_position 100 (encoder_start 0 0 0)))
  = wrap32 (rotaryEncoder_get_position
              (encoder_loop one_turn (encoder_start 0 0 0))
            + (100 - g_pos (encoder_start 0 0 0)))
  /\ rotaryEncoder_get_position
       (encoder_loop one_turn
          (rotaryEncoder_set_position 100 (encoder_start 0 0 0))) = 104.
Proof.
  split; [| reflexivity].
  refine (proj1 (set_position_offset one_turn (encoder_start 0 0 0) 100 _ _));
    unfold in_int, INT_MIN, INT_MAX; cbn; lia.
Defined.

End Walk.

(** ** Starting and stopping the encoder *)

Section EncoderLife.
Import RotaryInit.
#[local] Open Scope gpio_scope.
Context {W : Type} {B : Board W}.

Ltac plain_list :=
  repeat (apply Forall_cons; [split; intros [] |]); apply Forall_nil.

Lemma gpio_export_calls (n : Z) (w : W) (rc : Z) (w' : W) (t : list call) :
  gpio_export n w = (rc, w', t) ->
  Forall plain t /\ (rc = 0 \/ rc = -1) /\ (rc = 0 -> exported n t).
Proof.
  unfold gpio_export, bind, access, sysfs_write, ret. intros E.
  destruct (gpio_access (GpioDir n) w) as [ok w1]. destruct ok.
  - injection E as <- <- <-.
    split; [plain_list |]. split; [now left | intros _; constructor].
  - destruct (gpio_write Export (Number n) w1) as [r w2].
    injection E as <- <- <-. split; [plain_list |].
    destruct r; (split; [auto |]); intros H; try discriminate H.
    constructor.
Qed.

Lemma gpio_set_dir_in_calls (n : Z) (w : W) (rc : Z) (w' : W)
  (t : list call) :
  gpio_set_dir_in n w = (rc, w', t) ->
  Forall plain t /\ (rc = 0 \/ rc = -1)
  /\ (rc = 0 -> t = [Write (Direction n) Input Sys.WOk]).
Proof.
  unfold gpio_set_dir_in, sysfs_write. intros E.
  destruct (gpio_write (Direction n) Input w) as [r w1].
  injection E as <- <- <-. split; [plain_list |].
  destruct r; (split; [auto |]); intros H; try discriminate H.
  reflexivity.
Qed.

(** The short-circuit disjunction: it is false only when all three
    calls were made and returned 0. *)
Lemma any_fails_calls (a b c : M W Z) (w : W) (bad : bool) (w' : W)
  (t : list call) :
  any_fails a b c w = (bad, w', t) ->
  exists ra wa ta,
    a w = (ra, wa, ta)
    /\ ((ra <> 0 /\ bad = true /\ t = ta)
        \/ (ra = 0
            /\ exists rb wb tb,
                 b wa = (rb, wb, tb)
                 /\ ((rb <> 0 /\ bad = true /\ t = ta ++ tb)
                     \/ (rb = 0
                         /\ exists rc tc,
                              c wb = (rc, w', tc)
                              /\ bad = negb (rc =? 0)
                              /\ t = ta ++ tb ++ tc)))).
Proof.
  unfold any_fails, bind, ret. intros E.
  destruct (a w) as [[ra wa] ta]. exists ra, wa, ta. split; [reflexivity |].
  destruct (Z.eqb_spec ra 0) as [-> | Na]; cbn [negb] in E.
  2: { injection E as <- <- <-. left. now rewrite app_nil_r. }
  right. split; [reflexivity |].
  destruct (b wa) as [[rb wb] tb]. exists rb, wb, tb. split; [reflexivity |].
  destruct (Z.eqb_spec rb 0) as [-> | Nb]; cbn [negb] in E.
  2: { injection E as <- <- <-. left. now rewrite app_nil_r. }
  right. split; [reflexivity |].
  destruct (c wb) as [[rc wc] tc]. injection E as <- <- <-.
  exists rc, tc. now rewrite app_nil_r.
Qed.

Lemma exports_calls (w : W) (bad : bool) (w' : W) (t : list call) :
  any_fails (gpio_export ENC_A_GPIO) (gpio_export ENC_B_GPIO)
    (gpio_export ENC_SW_GPIO) w = (bad, w', t) ->
  Forall plain t
  /\ (bad = false ->
      exists ta tb tsw,
        t = ta ++ tb ++ tsw /\ exported ENC_A_GPIO ta
        /\ exported ENC_B_GPIO tb /\ exported ENC_SW_GPIO tsw).
Proof.
  intros E. apply any_fails_calls in E.
  destruct E as (ra & wa & ta & Ea & E).
  destruct (gpio_export_calls _ _ _ _ _ Ea) as (Pa & _ & Xa).
  destruct E as [(Na & -> & ->) | (-> & rb & wb & tb & Eb & E)];
    [split; [exact Pa | discriminate] |].
  destruct (gpio_export_calls _ _ _ _ _ Eb) as (Pb & _ & Xb).
  destruct E as [(Nb & -> & ->) | (-> & rc & tc & Ec & -> & ->)];
    [split; [now apply Forall_app | discriminate] |].
  destruct (gpio_export_calls _ _ _ _ _ Ec) as (Pc & _ & Xc).
  split; [repeat (apply Forall_app; split); assumption |].
  intros H. destruct (Z.eqb_spec rc 0) as [-> | N]; [| discriminate H].
  exists ta, tb, tc. auto.
Qed.

Lemma directions_calls (w : W) (bad : bool) (w' : W) (t : list call) :
  any_fails (gpio_set_dir_in ENC_A_GPIO) (gpio_set_dir_in ENC_B_GPIO)
    (gpio_set_dir_in ENC_SW_GPIO) w = (bad, w', t) ->
  Forall plain t
  /\ (bad = false ->
      t = [Write (Direction ENC_A_GPIO) Input Sys.WOk;
           Write (Direction ENC_B_GPIO) Input Sys.WOk;
           Write (Direction ENC_SW_GPIO) Input Sys.WOk]).
Proof.
  intros E. apply any_fails_calls in E.
  destruct E as (ra & wa & ta & Ea & E).
  destruct (gpio_set_dir_in_calls _ _ _ _ _ Ea) as (Pa & _ & Xa).
  destruct E as [(Na & -> & ->) | (-> & rb & wb & tb & Eb & E)];
    [split; [exact Pa | discriminate] |].
  destruct (gpio_set_dir_in_calls _ _ _ _ _ Eb) as (Pb & _ & Xb).
  destruct E as [(Nb & -> & ->) | (-> & rc & tc & Ec & -> & ->)];
    [split; [now apply Forall_app | discriminate] |].
  destruct (gpio_set_dir_in_calls _ _ _ _ _ Ec) as (Pc & _ & Xc).
  split; [repeat (apply Forall_app; split); assumption |].
  intros H. destruct (Z.eqb_spec rc 0) as [-> | N]; [| discriminate H].
  now rewrite (Xa eq_refl), (Xb eq_refl), (Xc eq_refl).
Qed.

Lemma init_shape (m : handles) (w : W) (rc : Z) (m' : handles) (w' : W)
  (t : list call) :
  g_run m = 0 ->
  rotaryEncoder_init m w = (rc, m', w', t) ->
  Forall (fun c => ~ closes c) t
  /\ (rc = 0 \/ rc = -1)
  /\ (rc = 0 ->
      exists ta tb tsw a b sw,
        exported ENC_A_GPIO ta /\ exported ENC_B_GPIO tb
        /\ exported ENC_SW_GPIO tsw
        /\ 0 <= a /\ 0 <= b /\ 0 <= sw
        /\ t = ta ++ tb ++ tsw
               ++ [Write (Direction ENC_A_GPIO) Input Sys.WOk;
                   Write (Direction ENC_B_GPIO) Input Sys.WOk;
                   Write (Direction ENC_SW_GPIO) Input Sys.WOk;
                   Open (Value ENC_A_GPIO) a; Open (Value ENC_B_GPIO) b;
                   Open (Value ENC_SW_GPIO) sw; ThreadCreate 0]
        /\ m' = {| g_run := 1; g_pos := 0; g_button_edge := 0;
                   fd_a := a; fd_b := b; fd_sw := sw |})
  /\ (rc = -1 -> g_run m' = 0 /\ Forall (fun c => ~ starts_thread c) t).
Proof.
  intros R E. unfold rotaryEncoder_init in E. rewrite R in E.
  cbn [Z.eqb negb] in E. unfold bind at 1 in E.
  destruct (any_fails (gpio_export ENC_A_GPIO) _ _ w) as [[bad1 w1] t1] eqn:X.
  apply exports_calls in X. destruct X as [P1 X].
  assert (NC : forall l, Forall plain l -> Forall (fun c => ~ closes c) l).
  { intros l. apply Forall_impl. now intros c [H _]. }
  assert (NS : forall l,
             Forall plain l -> Forall (fun c => ~ starts_thread c) l).
  { intros l. apply Forall_impl. now intros c [_ H]. }
  destruct bad1.
  { unfold ret in E. injection E as <- <- <- <-.
    rewrite app_nil_r.
    split; [now apply NC |]. split; [now right |].
    split; [discriminate |]. intros _. split; [exact R | now apply NS]. }
  destruct (X eq_refl) as (ta & tb & tsw & -> & Xa & Xb & Xsw).
  unfold bind at 1 in E.
  destruct (any_fails (gpio_set_dir_in ENC_A_GPIO) _ _ w1)
    as [[bad2 w2] t2] eqn:D.
  apply directions_calls in D. destruct D as [P2 D].
  destruct bad2.
  { unfold ret in E. injection E as <- <- <- <-. rewrite app_nil_r.
    split; [apply NC; now apply Forall_app |]. split; [now right |].
    split; [discriminate |]. intros _.
    split; [exact R | apply NS; now apply Forall_app]. }
  pose proof (D eq_refl) as T2. subst t2. clear D.
  unfold gpio_open_value, open, pthread_create, bind, ret in E.
  destruct (gpio_open (Value ENC_A_GPIO) w2) as [a w3].
  destruct (gpio_open (Value ENC_B_GPIO) w3) as [b w4].
  destruct (gpio_open (Value ENC_SW_GPIO) w4) as [sw w5].
  assert (P3 : Forall plain
                 [Open (Value ENC_A_GPIO) a; Open (Value ENC_B_GPIO) b;
                  Open (Value ENC_SW_GPIO) sw]) by plain_list.
  destruct ((a <? 0) || (b <? 0) || (sw <? 0)) eqn:Q.
  { injection E as <- <- <- <-. cbn [app].
    assert (PA : Forall plain
                   ((ta ++ tb ++ tsw)
                    ++ [Write (Direction ENC_A_GPIO) Input Sys.WOk;
                        Write (Direction ENC_B_GPIO) Input Sys.WOk;
                        Write (Direction ENC_SW_GPIO) Input Sys.WOk;
                        Open (Value ENC_A_GPIO) a; Open (Value ENC_B_GPIO) b;
                        Open (Value ENC_SW_GPIO) sw])).
    { apply Forall_app. split; [exact P1 |].
      change (Forall plain
                ([Write (Direction ENC_A_GPIO) Input Sys.WOk;
                  Write (Direction ENC_B_GPIO) Input Sys.WOk;
                  Write (Direction ENC_SW_GPIO) Input Sys.WOk]
                 ++ [Open (Value ENC_A_GPIO) a; Open (Value ENC_B_GPIO) b;
                     Open (Value ENC_SW_GPIO) sw])).
      apply Forall_app. now split. }
    split; [now apply NC |]. split; [now right |].
    split; [discriminate |]. intros _. split; [reflexivity | now apply NS]. }
  apply orb_false_iff in Q. destruct Q as [Q Qsw].
  apply orb_false_iff in Q. destruct Q as [Qa Qb].
  apply Z.ltb_ge in Qa, Qb, Qsw.
  destruct (thread_create w5) as [rc1 w6].
  assert (PA : Forall (fun c => ~ closes c)
                 ((ta ++ tb ++ tsw)
                  ++ [Write (Direction ENC_A_GPIO) Input Sys.WOk;
                      Write (Direction ENC_B_GPIO) Input Sys.WOk;
                      Write (Direction ENC_SW_GPIO) Input Sys.WOk]
                  ++ [Open (Value ENC_A_GPIO) a] ++ [Open (Value ENC_B_GPIO) b]
                  ++ [Open (Value ENC_SW_GPIO) sw] ++ [ThreadCreate rc1] ++ [])).
  { apply Forall_app. split; [now apply NC |].
    repeat (apply Forall_cons; [intros [] |]). apply Forall_nil. }
  destruct (Z.eqb_spec rc1 0) as [-> | N]; cbn [negb] in E;
    injection E as <- <- <- <-.
  - split; [exact PA |]. split; [now left |].
    split; [| discriminate]. intros _.
    exists ta, tb, tsw, a, b, sw. cbn [app].
    rewrite <- !app_assoc. repeat split; auto.
  - split; [exact PA |]. split; [now right |].
    split; [discriminate |]. intros _.
    split; [reflexivity |]. apply Forall_app. split; [now apply NS |].
    cbn [app]. repeat (apply Forall_cons; [try (intros []) |]);
      [| apply Forall_nil].
    cbn. destruct rc1; auto.
Qed.

(** X12.  [rotaryEncoder_init].  While the thread is running it returns
    0 and does nothing.  Otherwise it returns 0 or -1 and never closes a
    descriptor, so value files opened before a later step fails stay open.
    It returns 0 only after every step has succeeded, in this order: the
    three lines A, B, SW exported (each found present, or written to
    [export]), the three directions set to [in], the three value files
    opened, the thread created; the position and the button flag are then
    0 and [g_run] is 1.  When it returns -1, [g_run] is 0 and no thread
    has been started. *)
Theorem encoder_init_outcomes (m : handles) (w : W) :
  (g_run m <> 0 -> rotaryEncoder_init m w = (0, m, w, []))
  /\ (g_run m = 0 ->
      let r := rotaryEncoder_init m w in
      Forall (fun c => ~ closes c) (calls r)
      /\ (fst (result r) = 0 \/ fst (result r) = -1)
      /\ (fst (result r) = 0 ->
          exists ta tb tsw a b sw,
            exported ENC_A_GPIO ta /\ exported ENC_B_GPIO tb
            /\ exported ENC_SW_GPIO tsw
            /\ 0 <= a /\ 0 <= b /\ 0 <= sw
            /\ calls r
               = ta ++ tb ++ tsw
                 ++ [Write (Direction ENC_A_GPIO) Input Sys.WOk;
                     Write (Direction ENC_B_GPIO) Input Sys.WOk;
                     Write (Direction ENC_SW_GPIO) Input Sys.WOk;
                     Open (Value ENC_A_GPIO) a; Open (Value ENC_B_GPIO) b;
                     Open (Value ENC_SW_GPIO) sw; ThreadCreate 0]
            /\ snd (result r)
               = {| g_run := 1; g_pos := 0; g_button_edge := 0;
                    fd_a := a; fd_b := b; fd_sw := sw |})
      /\ (fst (result r) = -1 ->
          g_run (snd (result r)) = 0
          /\ Forall (fun c => ~ starts_thread c) (calls r))).
Proof.
  split.
  - intros N. unfold rotaryEncoder_init.
    apply Z.eqb_neq in N. now rewrite N.
  - intros R r.
    destruct (rotaryEncoder_init m w) as [[[rc m'] w'] t] eqn:E.
    subst r. cbn [result calls fst snd].
    exact (init_shape _ _ _ _ _ _ R E).
Qed.

Lemma cleanup_running (m : handles) (w : W) :
  g_run m <> 0 ->
  result (rotaryEncoder_cleanup m w)
  = {| g_run := 0; g_pos := g_pos m; g_button_edge := g_button_edge m;
       fd_a := -1; fd_b := -1; fd_sw := -1 |}
  /\ calls (rotaryEncoder_cleanup m w)
     = ThreadJoin
       :: map Close (filter (Z.leb 0) [fd_a m; fd_b m; fd_sw m]).
Proof.
  intros N. unfold rotaryEncoder_cleanup. apply Z.eqb_neq in N. rewrite N.
  unfold bind, pthread_join, close_if_open, close, ret.
  cbn [filter].
  destruct (0 <=? fd_a m), (0 <=? fd_b m), (0 <=? fd_sw m);
    cbn; split; reflexivity.
Qed.

(** X13.  [rotaryEncoder_cleanup].  While the thread is not running it
    does nothing at all; so after a [rotaryEncoder_init] that returned -1
    it makes no call, and descriptors that call had opened are never
    closed.  While the thread is running it joins the thread, closes
    those of the three descriptors that are not negative, in the order A,
    B, SW, marks all three as -1 and clears [g_run], leaving position and
    button flag alone; a second call right after it does nothing. *)
Theorem encoder_cleanup_outcomes (m : handles) (w : W) :
  (g_run m = 0 ->
   rotaryEncoder_cleanup m w = (m, w, [])
   /\ (fst (result (rotaryEncoder_init m w)) = -1 ->
       forall w',
         rotaryEncoder_cleanup (snd (result (rotaryEncoder_init m w))) w'
         = (snd (result (rotaryEncoder_init m w)), w', [])))
  /\ (g_run m <> 0 ->
      let r := rotaryEncoder_cleanup m w in
      result r
      = {| g_run := 0; g_pos := g_pos m; g_button_edge := g_button_edge m;
           fd_a := -1; fd_b := -1; fd_sw := -1 |}
      /\ calls r
         = ThreadJoin
           :: map Close (filter (Z.leb 0) [fd_a m; fd_b m; fd_sw m])
      /\ forall w', rotaryEncoder_cleanup (result r) w' = (result r, w', [])).
Proof.
  assert (Z0 : forall m0 w0,
             g_run m0 = 0 -> rotaryEncoder_cleanup m0 w0 = (m0, w0, [])).
  { intros m0 w0 R. unfold rotaryEncoder_cleanup. now rewrite R. }
  split.
  - intros R. split; [now apply Z0 |].
    intros F w'. apply Z0.
    destruct (rotaryEncoder_init m w) as [[[rc m'] w1] t] eqn:E.
    cbn [result fst snd] in *.
    now apply (init_shape _ _ _ _ _ _ R E).
  - intros N r. destruct (cleanup_running m w N) as [H1 H2].
    subst r. split; [exact H1 |]. split; [exact H2 |].
    intros w'. apply Z0. now rewrite H1.
Qed.

End EncoderLife.

Section EncoderLifeRuns.
Import RotaryInit.

(** On a board whose three value files open as 3, 4 and 5 the encoder
    starts; where the second one does not open it fails, never closing
    descriptor 3. *)
Lemma encoder_init_outcomes_witness :
  rotaryEncoder_init startup board_ok
  = (0, {| g_run := 1; g_pos := 0; g_button_edge := 0;
           fd_a := 3; fd_b := 4; fd_sw := 5 |},
     {| present := true; descriptors := []; outcomes := [] |},
     [Access (GpioDir 439) true; Access (GpioDir 336) true;
      Access (GpioDir 434) true;
      Write (Direction 439) Input Sys.WOk;
      Write (Direction 336) Input Sys.WOk;
      Write (Direction 434) Input Sys.WOk;
      Open (Value 439) 3; Open (Value 336) 4; Open (Value 434) 5;
      ThreadCreate 0])
  /\ fst (result (rotaryEncoder_init startup board_b_fails)) = -1
  /\ fd_a (snd (result (rotaryEncoder_init startup board_b_fails))) = 3
  /\ Forall (fun c => ~ closes c)
       (calls (rotaryEncoder_init startup board_b_fails)).
Proof.
  split; [reflexivity |]. split; [reflexivity |]. split; [reflexivity |].
  exact (proj1 (proj2 (encoder_init_outcomes startup board_b_fails)
                  eq_refl)).
Defined.

(** After that failed start [rotaryEncoder_cleanup] makes no call, and
    after the successful one it joins and closes 3, 4 and 5. *)
Lemma encoder_cleanup_outcomes_witness :
  rotaryEncoder_cleanup
    (snd (result (rotaryEncoder_init startup board_b_fails))) board_b_fails
  = (snd (result (rotaryEncoder_init startup board_b_fails)),
     board_b_fails, [])
  /\ calls (rotaryEncoder_cleanup
              (snd (result (rotaryEncoder_init startup board_ok))) board_ok)
     = [ThreadJoin; Close 3; Close 4; Close 5].
Proof.
  split.
  - exact (proj2 (proj1 (encoder_cleanup_outcomes startup board_b_fails)
                    eq_refl) eq_refl board_b_fails).
  - assert (N : g_run (snd (result (rotaryEncoder_init startup board_ok)))
                <> 0) by discriminate.
    exact (proj1 (proj2 (proj2 (encoder_cleanup_outcomes _ board_ok) N))).
Defined.

End EncoderLifeRuns.

(** ** The sorting loop *)

Section MainLoop.
Import Sys Servo Main.
Context {W : Type} {P : Platform W}.

Lemma in_turn_app (waiting : bool) (a1 a2 : list action) :
  in_turn waiting (a1 ++ a2)
  = match in_turn waiting a1 with
    | Some w1 => in_turn w1 a2
    | None => None
    end.
Proof.
  revert waiting. induction a1 as [| a a1 IH]; intros waiting.
  - reflexivity.
  - destruct a as [sent | m |], waiting; cbn; auto.
Qed.

Lemma in_turn_balance (acts : list action) :
  forall waiting waiting',
    in_turn waiting acts = Some waiting' ->
    (length (filter is_sent acts) + debt waiting
     = length (filter is_sorted acts) + debt waiting')%nat.
Proof.
  induction acts as [| a acts IH]; intros waiting waiting' H.
  - cbn in H. injection H as <-. reflexivity.
  - destruct a as [sent | m |], waiting; cbn in H; try discriminate H;
      apply IH in H; cbn [filter is_sent is_sorted];
      try destruct sent; cbn [length debt] in *; lia.
Qed.

Lemma start_step_shape (n : net) (waiting : bool) (e : Rotary.enc) (w : W) :
  exists a waiting' e' w' t,
    start_step n waiting e w = (a, waiting', e', w', t)
    /\ in_turn waiting a = Some waiting'
    /\ writes t = 0%nat /\ Forall known_pulse t
    /\ filter is_sorted a = []
    /\ (waiting = true -> a = [] /\ e' = e /\ t = [] /\ w' = w)
    /\ (waiting = false ->
        Rotary.g_button_edge e' = 0
        /\ (Rotary.g_button_edge e = 0 ->
            a = [] /\ waiting' = false /\ e' = e /\ t = [] /\ w' = w)
        /\ (Rotary.g_button_edge e <> 0 ->
            a = [Start (send_ok n)] /\ waiting' = send_ok n
            /\ t = [CSleep 200])).
Proof.
  unfold start_step. destruct waiting; cbn [negb].
  - eexists _, _, _, _, _. split; [reflexivity |].
    repeat split; try discriminate; constructor.
  - unfold Rotary.rotaryEncoder_button_pressed.
    destruct (Z.eqb_spec (Rotary.g_button_edge e) 0) as [Z0 | N];
      cbn [negb].
    + eexists _, _, _, _, _. split; [reflexivity |].
      split; [reflexivity |]. split; [reflexivity |].
      split; [constructor |]. split; [reflexivity |].
      split; [discriminate |]. intros _. split; [reflexivity |].
      split; [| intros K; now destruct K].
      intros _. repeat split. destruct e. cbn in *. now subst.
    + eexists _, _, _, _, _. split; [reflexivity |].
      split; [reflexivity |]. split; [reflexivity |].
      split; [repeat constructor |]. split; [reflexivity |].
      split; [discriminate |]. intros _. split; [reflexivity |].
      split; [intros K; now destruct N |]. intros _. repeat split.
Qed.

(** The order of the actions of step 2 does not depend on the servo. *)
Lemma result_step_in_turn (g : Servo) (n : net) (waiting : bool) (w : W) :
  in_turn waiting (fst (result (result_step g n waiting w)))
  = Some (snd (result (result_step g n waiting w)))
  /\ (waiting = false -> result_step g n waiting w = ([], false, w, [])).
Proof.
  unfold result_step. destruct waiting; [| now split].
  split; [| discriminate].
  destruct (datagram n) as [[| c payload] |]; try reflexivity.
  destruct (list_eq_dec ascii_dec (received (c :: payload)) paper).
  - unfold bind.
    destruct (servo_to_paper g w) as [[u1 w1] t1].
    destruct (sleep (SERVO_HOLD_SECONDS * 1000) w1) as [[u2 w2] t2].
    now destruct (servo_to_neutral g w2) as [[u3 w3] t3].
  - destruct (list_eq_dec ascii_dec (received (c :: payload)) plastic);
      [| reflexivity].
    unfold bind.
    destruct (servo_to_plastic g w) as [[u1 w1] t1].
    destruct (sleep (SERVO_HOLD_SECONDS * 1000) w1) as [[u2 w2] t2].
    now destruct (servo_to_neutral g w2) as [[u3 w3] t3].
Qed.

Lemma pass_unfold (g : Servo) (n : net) (waiting : bool) (e : Rotary.enc)
  (w : W) :
  pass g n waiting e w
  = (let '(a1, waiting1, e1, w1, t1) := start_step n waiting e w in
     let '(a2, waiting2, w2, t2) := result_step g n waiting1 w1 in
     (a1 ++ a2, waiting2, e1, sys_sleep 5 w2, t1 ++ t2 ++ [CSleep 5])).
Proof.
  unfold pass, bind.
  destruct (start_step n waiting e w) as [[[[a1 waiting1] e1] w1] t1].
  destruct (result_step g n waiting1 w1) as [[[a2 waiting2] w2] t2].
  reflexivity.
Qed.

Lemma pass_in_turn (g : Servo) (n : net) (waiting : bool) (e : Rotary.enc)
  (w : W) (a : list action) (waiting' : bool) (e' : Rotary.enc) (w' : W)
  (t : list call) :
  pass g n waiting e w = (a, waiting', e', w', t) ->
  in_turn waiting a = Some waiting'.
Proof.
  rewrite pass_unfold.
  destruct (start_step_shape n waiting e w)
    as (a1 & wt1 & e1 & w1 & t1 & -> & T1 & _).
  pose proof (result_step_in_turn g n wt1 w1) as [T2 _].
  destruct (result_step g n wt1 w1) as [[[a2 wt2] w2] t2].
  cbn [result fst snd] in T2. intros E. injection E as <- <- <- <- <-.
  now rewrite in_turn_app, T1.
Qed.

Lemma run_cons_loop (g : Servo) (n : net) (rest : list step) (waiting : bool)
  (e : Rotary.enc) (w : W) :
  run g (Loop n :: rest) waiting e w
  = (let '(a, waiting1, e1, w1, t1) := pass g n waiting e w in
     let '(a', waiting2, e2, w2, t2) := run g rest waiting1 e1 w1 in
     (a ++ a', waiting2, e2, w2, t1 ++ t2 ++ [])).
Proof.
  cbn [run]. unfold bind, ret.
  destruct (pass g n waiting e w) as [[[[a waiting1] e1] w1] t1].
  now destruct (run g rest waiting1 e1 w1) as [[[[a' waiting2] e2] w2] t2].
Qed.

Lemma run_in_turn (g : Servo) (steps : list step) :
  forall waiting e w a waiting' e' w' t,
    run g steps waiting e w = (a, waiting', e', w', t) ->
    in_turn waiting a = Some waiting'.
Proof.
  induction steps as [| [n | s] rest IH]; intros waiting e w a wt' e' w' t E.
  - injection E as <- <- <- <- <-. reflexivity.
  - rewrite run_cons_loop in E.
    destruct (pass g n waiting e w) as [[[[a1 wt1] e1] w1] t1] eqn:Q.
    destruct (run g rest wt1 e1 w1) as [[[[a2 wt2] e2] w2] t2] eqn:R.
    injection E as <- <- <- <- <-.
    rewrite in_turn_app, (pass_in_turn _ _ _ _ _ _ _ _ _ _ Q).
    exact (IH _ _ _ _ _ _ _ _ R).
  - cbn [run] in E. exact (IH _ _ _ _ _ _ _ _ E).
Qed.

(** X14.  However the passes of the loop of main.c interleave with the
    iterations of the encoder thread, and whatever the network and the
    board do: starts and results take turns.  A start is attempted only
    while no result is awaited; a classification is acted on, or dropped
    as unknown, only while one is awaited; and the number of starts that
    went out exceeds the number of items sorted by exactly one while a
    result is awaited and equals it otherwise.  So the servo never sorts
    without a start of its own, and no second start goes out before the
    result of the first has been handled. *)
Theorem main_loop_in_turn (g : Servo) (steps : list step) (e : Rotary.enc)
  (w : W) :
  let r := run g steps false e w in
  let acts := fst (fst (result r)) in
  let waiting := snd (fst (result r)) in
  in_turn false acts = Some waiting
  /\ length (filter is_sent acts)
     = (length (filter is_sorted acts) + debt waiting)%nat.
Proof.
  intros r acts waiting.
  destruct (run g steps false e w) as [[[[a wt'] e'] w'] t] eqn:E.
  subst r acts waiting. cbn [result fst snd].
  pose proof (run_in_turn _ _ _ _ _ _ _ _ _ _ E) as T.
  split; [exact T |].
  apply in_turn_balance in T. cbn [debt] in T. lia.
Qed.

Lemma pulse_calls (g : Servo) (v : Z) (w : W) :
  enabled g = true -> min_ns g <= v <= max_ns g ->
  exists r w',
    (servo_set_pulse_ns g v ;; ret tt)%hal w
    = (tt, w', [CWrite (attr_path (base g) DutyCycle) (Num v) r]).
Proof.
  intros En B. unfold servo_set_pulse_ns. rewrite En. cbn [negb].
  assert (C : clamp v (min_ns g) (max_ns g) = v).
  { apply clamp_band; lia. }
  rewrite C. unfold write_int, write_str, bind, write, ret.
  destruct (sys_write _ _ w) as [r w']. now exists r, w'.
Qed.

Lemma sort_calls (g : Servo) (m : material) (w : W) :
  enabled g = true ->
  min_ns g = SERVO_MIN_NS -> max_ns g = SERVO_MAX_NS ->
  exists r1 r2 w',
    ((match m with
      | Paper => servo_to_paper g
      | Plastic => servo_to_plastic g
      end ;;
      sleep (SERVO_HOLD_SECONDS * 1000) ;;
      servo_to_neutral g ;;
      ret ([Sorted m], false))%hal w)
    = ([Sorted m], false, w',
       [CWrite (attr_path (base g) DutyCycle) (Num (target m)) r1;
        CSleep 5000;
        CWrite (attr_path (base g) DutyCycle) (Num SERVO_NEUTRAL_NS) r2]).
Proof.
  intros En Lo Hi.
  assert (B : forall v,
             v = SERVO_MIN_NS \/ v = SERVO_MAX_NS \/ v = SERVO_NEUTRAL_NS ->
             min_ns g <= v <= max_ns g).
  { rewrite Lo, Hi. unfold SERVO_MIN_NS, SERVO_MAX_NS, SERVO_NEUTRAL_NS.
    lia. }
  unfold bind at 1.
  assert (F : exists r1 w1,
             match m with
             | Paper => servo_to_paper g
             | Plastic => servo_to_plastic g
             end w
             = (tt, w1,
                [CWrite (attr_path (base g) DutyCycle) (Num (target m)) r1])).
  { destruct m; apply pulse_calls; auto. }
  destruct F as (r1 & w1 & ->).
  unfold bind at 1. unfold sleep at 1. unfold bind at 1.
  destruct (pulse_calls g SERVO_NEUTRAL_NS (sys_sleep (SERVO_HOLD_SECONDS * 1000) w1) En)
    as (r2 & w2 & Q); [auto |].
  unfold servo_to_neutral. rewrite Q.
  exists r1, r2, w2. reflexivity.
Qed.

Ltac pulses :=
  repeat (apply Forall_cons; [first [exact I | cbn; auto] |]);
  apply Forall_nil.

Lemma result_step_moves (g : Servo) (n : net) (waiting : bool) (w : W) :
  enabled g = true ->
  min_ns g = SERVO_MIN_NS -> max_ns g = SERVO_MAX_NS ->
  let r := result_step g n waiting w in
  Forall known_pulse (calls r)
  /\ writes (calls r) = (2 * length (filter is_sorted (fst (result r))))%nat
  /\ (forall m payload,
        waiting = true -> datagram n = Some payload -> payload <> [] ->
        received payload = word m ->
        exists r1 r2,
          fst (result r) = [Sorted m] /\ snd (result r) = false
          /\ calls r
             = [CWrite (attr_path (base g) DutyCycle) (Num (target m)) r1;
                CSleep 5000;
                CWrite (attr_path (base g) DutyCycle)
                  (Num SERVO_NEUTRAL_NS) r2]).
Proof.
  intros En Lo Hi r. subst r. unfold result_step.
  assert (K : forall v,
             v = SERVO_MIN_NS \/ v = SERVO_MAX_NS \/ v = SERVO_NEUTRAL_NS ->
             forall p r, known_pulse (CWrite p (Num v) r)).
  { intros v H p r. exact H. }
  destruct waiting.
  2: { cbn. split; [constructor |]. split; [reflexivity |].
       intros m payload H. discriminate H. }
  destruct (datagram n) as [[| c payload] |].
  - cbn. split; [constructor |]. split; [reflexivity |].
    intros m payload _ H N. injection H as <-. now destruct N.
  - destruct (list_eq_dec ascii_dec (received (c :: payload)) paper)
      as [Pp | Np].
    + destruct (sort_calls g Paper w En Lo Hi) as (r1 & r2 & w' & ->).
      cbn [result calls fst snd].
      split; [pulses |]. split; [reflexivity |].
      intros m pl _ H _ R. injection H as <-. rewrite Pp in R.
      destruct m; [| discriminate R]. now exists r1, r2.
    + destruct (list_eq_dec ascii_dec (received (c :: payload)) plastic)
        as [Pl | Nl].
      * destruct (sort_calls g Plastic w En Lo Hi) as (r1 & r2 & w' & ->).
        cbn [result calls fst snd].
        split; [pulses |]. split; [reflexivity |].
        intros m pl _ H _ R. injection H as <-. rewrite Pl in R.
        destruct m; [discriminate R |]. now exists r1, r2.
      * cbn. split; [constructor |]. split; [reflexivity |].
        intros m pl _ H _ R. injection H as <-.
        destruct m; [now destruct Np | now destruct Nl].
  - cbn. split; [constructor |]. split; [reflexivity |].
    intros m payload _ H. discriminate H.
Qed.

Lemma writes_app (t1 t2 : list call) :
  writes (t1 ++ t2) = (writes t1 + writes t2)%nat.
Proof.
  unfold writes. now rewrite filter_app, length_app.
Qed.

Lemma pass_moves (g : Servo) (n : net) (waiting : bool) (e : Rotary.enc)
  (w : W) :
  enabled g = true ->
  min_ns g = SERVO_MIN_NS -> max_ns g = SERVO_MAX_NS ->
  let r := pass g n waiting e w in
  Forall known_pulse (calls r)
  /\ writes (calls r)
     = (2 * length (filter is_sorted (fst (fst (result r)))))%nat.
Proof.
  intros En Lo Hi r. subst r. rewrite pass_unfold.
  destruct (start_step_shape n waiting e w)
    as (a1 & wt1 & e1 & w1 & t1 & -> & _ & W1 & K1 & S1 & _).
  destruct (result_step_moves g n wt1 w1 En Lo Hi) as (K2 & W2 & _).
  destruct (result_step g n wt1 w1) as [[[a2 wt2] w2] t2].
  cbn [result calls fst snd] in *.
  split.
  - apply Forall_app. split; [exact K1 |].
    apply Forall_app. split; [exact K2 | repeat constructor].
  - rewrite !writes_app, W1, W2, filter_app, S1. cbn. lia.
Qed.

(** X15.  With the servo as main.c opens it (enabled, band 1.2 ms to
    2.0 ms), over any interleaving of loop passes and encoder
    iterations: every value the loop writes is one of the three pulse
    widths 1,200,000, 2,000,000 and 1,600,000 ns, and the number of
    writes is exactly twice the number of items sorted, so the servo is
    moved for a classification and for nothing else.  A pass that awaits
    a result and receives [paper] (or [plastic]) makes exactly these
    calls: the duty 1,200,000 (or 2,000,000), a sleep of 5 s, the duty
    1,600,000, a sleep of 5 ms; and it stops awaiting. *)
Theorem main_loop_moves (g : Servo) (steps : list step) (waiting : bool)
  (e : Rotary.enc) (w : W) :
  enabled g = true ->
  min_ns g = SERVO_MIN_NS -> max_ns g = SERVO_MAX_NS ->
  let r := run g steps waiting e w in
  Forall known_pulse (calls r)
  /\ writes (calls r)
     = (2 * length (filter is_sorted (fst (fst (result r)))))%nat
  /\ (forall n m payload,
        datagram n = Some payload -> payload <> [] ->
        received payload = word m ->
        exists r1 r2,
          fst (result (pass g n true e w)) = ([Sorted m], false)
          /\ calls (pass g n true e w)
             = [CWrite (attr_path (base g) DutyCycle) (Num (target m)) r1;
                CSleep 5000;
                CWrite (attr_path (base g) DutyCycle)
                  (Num SERVO_NEUTRAL_NS) r2;
                CSleep 5]).
Proof.
  intros En Lo Hi r. split; [| split].
  - subst r. revert waiting e w.
    induction steps as [| [n | s] rest IH]; intros waiting e w.
    + constructor.
    + rewrite run_cons_loop.
      pose proof (pass_moves g n waiting e w En Lo Hi) as [K _].
      destruct (pass g n waiting e w) as [[[[a1 wt1] e1] w1] t1].
      specialize (IH wt1 e1 w1).
      destruct (run g rest wt1 e1 w1) as [[[[a2 wt2] e2] w2] t2].
      cbn [calls snd] in *. rewrite app_nil_r. apply Forall_app. now split.
    + cbn [run]. apply IH.
  - subst r. revert waiting e w.
    induction steps as [| [n | s] rest IH]; intros waiting e w.
    + reflexivity.
    + rewrite run_cons_loop.
      pose proof (pass_moves g n waiting e w En Lo Hi) as [_ K].
      destruct (pass g n waiting e w) as [[[[a1 wt1] e1] w1] t1].
      specialize (IH wt1 e1 w1).
      destruct (run g rest wt1 e1 w1) as [[[[a2 wt2] e2] w2] t2].
      cbn [result calls fst snd] in *.
      rewrite app_nil_r, writes_app, filter_app, length_app, K, IH. lia.
    + cbn [run]. apply IH.
  - intros n m payload D N R. rewrite pass_unfold.
    destruct (start_step_shape n true e w)
      as (a1 & wt1 & e1 & w1 & t1 & -> & T1 & _ & _ & _ & S1 & _).
    destruct (S1 eq_refl) as (-> & -> & -> & ->).
    cbn in T1. injection T1 as <-.
    destruct (result_step_moves g n true w En Lo Hi) as (_ & _ & K).
    destruct (K m payload eq_refl D N R) as (r1 & r2 & A & B & C).
    destruct (result_step g n true w) as [[[a2 wt2] w2] t2].
    cbn [result calls fst snd app] in *. subst.
    now exists r1, r2.
Qed.

(** X16.  What becomes of a press.  While a result is awaited a pass
    does not ask the button, so the encoder state, the one-shot flag
    included, comes out of the pass as it went in: a press registered in
    the meantime is kept.  While none is awaited and the flag is set,
    the pass clears the flag, attempts the start and sleeps 200 ms before
    anything else; it awaits a result afterwards only if the message went
    out, so a press whose message could not be sent is lost.  While none
    is awaited and the flag is clear, the pass does nothing but sleep
    5 ms. *)
Theorem press_kept_or_spent (g : Servo) (n : net) (waiting : bool)
  (e : Rotary.enc) (w : W) :
  let r := pass g n waiting e w in
  let acts := fst (fst (result r)) in
  let waiting' := snd (fst (result r)) in
  let e' := snd (result r) in
  (waiting = true -> e' = e)
  /\ (waiting = false -> Rotary.g_button_edge e <> 0 ->
      Rotary.g_button_edge e' = 0
      /\ (exists rest, acts = Start (send_ok n) :: rest)
      /\ (exists rest, calls r = CSleep 200 :: rest)
      /\ (send_ok n = false ->
          waiting' = false /\ acts = [Start false]
          /\ calls r = [CSleep 200; CSleep 5]))
  /\ (waiting = false -> Rotary.g_button_edge e = 0 ->
      r = ([], false, e, sys_sleep 5 w, [CSleep 5])).
Proof.
  intros r acts waiting' e'. subst r acts waiting' e'.
  rewrite pass_unfold.
  destruct (start_step_shape n waiting e w)
    as (a1 & wt1 & e1 & w1 & t1 & Q & _ & _ & _ & _ & S1 & S0).
  rewrite Q.
  pose proof (result_step_in_turn g n wt1 w1) as [_ R0].
  split; [| split].
  - intros ->. destruct (S1 eq_refl) as (_ & -> & _ & _).
    now destruct (result_step g n wt1 w1) as [[[a2 wt2] w2] t2].
  - intros -> N. destruct (S0 eq_refl) as (F & _ & S).
    destruct (S N) as (-> & -> & ->).
    destruct (result_step g n (send_ok n) w1) as [[[a2 wt2] w2] t2] eqn:R.
    cbn [result calls fst snd app].
    split; [exact F |]. split; [now exists a2 |].
    split; [now eexists |].
    intros Z0. pose proof (R0 Z0) as R1.
    injection R1 as -> -> -> ->. now rewrite Z0.
  - intros -> Z0. destruct (S0 eq_refl) as (_ & S & _).
    destruct (S Z0) as (-> & -> & -> & -> & ->).
    now rewrite (R0 eq_refl).
Qed.

End MainLoop.

Section MainRuns.
Import Sys Servo Main.

(** One press, one start, one sheet of paper sorted. *)
Lemma main_loop_in_turn_witness :
  fst (fst (result (run Script.main_servo one_item false
                      (Rotary.encoder_start 0 0 0) Script.healthy)))
  = [Start true; Sorted Paper]
  /\ in_turn false
       (fst (fst (result (run Script.main_servo one_item false
                            (Rotary.encoder_start 0 0 0) Script.healthy))))
     = Some (snd (fst (result (run Script.main_servo one_item false
                                 (Rotary.encoder_start 0 0 0)
                                 Script.healthy)))).
Proof.
  split; [reflexivity |].
  exact (proj1 (main_loop_in_turn Script.main_servo one_item
                  (Rotary.encoder_start 0 0 0) Script.healthy)).
Defined.

(** In that scenario the servo is written twice: out to 1.2 ms and back
    to 1.6 ms. *)
Lemma main_loop_moves_witness :
  (enabled Script.main_servo = true
   /\ min_ns Script.main_servo = SERVO_MIN_NS
   /\ max_ns Script.main_servo = SERVO_MAX_NS)
  /\ Forall known_pulse
       (calls (run Script.main_servo one_item false
                 (Rotary.encoder_start 0 0 0) Script.healthy))
  /\ calls (run Script.main_servo one_item false
              (Rotary.encoder_start 0 0 0) Script.healthy)
     = [CSleep 200; CSleep 5;
        CWrite (AttrFile 0 0 DutyCycle) (Num 1200000) WOk; CSleep 5000;
        CWrite (AttrFile 0 0 DutyCycle) (Num 1600000) WOk; CSleep 5].
Proof.
  split; [repeat split |]. split; [| reflexivity].
  exact (proj1 (main_loop_moves Script.main_servo one_item false
                  (Rotary.encoder_start 0 0 0) Script.healthy
                  eq_refl eq_refl eq_refl)).
Defined.

(** A press whose start cannot be sent is spent: the flag is cleared
    and nothing is awaited. *)
Lemma press_kept_or_spent_witness :
  Rotary.g_button_edge
    (Rotary.tick Rotary.press_1000 (Rotary.encoder_start 0 0 0)) <> 0
  /\ Rotary.g_button_edge
       (snd (result (pass Script.main_servo send_fails false
                       (Rotary.tick Rotary.press_1000
                          (Rotary.encoder_start 0 0 0))
                       Script.healthy))) = 0
  /\ fst (fst (result (pass Script.main_servo send_fails false
                         (Rotary.tick Rotary.press_1000
                            (Rotary.encoder_start 0 0 0))
                         Script.healthy))) = [Start false].
Proof.
  assert (N : Rotary.g_button_edge
                (Rotary.tick Rotary.press_1000 (Rotary.encoder_start 0 0 0))
              <> 0) by discriminate.
  split; [exact N |].
  destruct (proj1 (proj2 (press_kept_or_spent Script.main_servo send_fails
                            false
                            (Rotary.tick Rotary.press_1000
                               (Rotary.encoder_start 0 0 0))
                            Script.healthy)) eq_refl N)
    as (F & _ & _ & S).
  split; [exact F |]. exact (proj1 (proj2 (S eq_refl))).
Defined.

End MainRuns.

(** ** Which chip the probe settles on *)

Section Pwm0ProbeOrder.
Import Sys PWM0 Pwm0Probe.
Context {W : Type} {P : Platform W}.

Lemma fine_app (cs : list Z) (m1 m2 : Z) (t1 t2 : list call) :
  fine cs m1 t1 -> fine cs m2 t2 -> fine cs (m1 + m2) (t1 ++ t2).
Proof.
  intros (A1 & S1 & E1) (A2 & S2 & E2).
  split; [now apply Forall_app |].
  split; [rewrite slept_app; lia | now apply Forall_app].
Qed.

Lemma about_more (cs cs' : list Z) (t : list call) :
  incl cs cs' -> Forall (about cs) t -> Forall (about cs') t.
Proof.
  intros I. apply Forall_impl.
  intros [p r | p v r | p r | r | ms]; cbn; auto; destruct p; auto.
Qed.

Lemma await_fine (chip : Z) (n : nat) :
  forall w u w' t,
    await_pwm0 n chip w = (u, w', t) -> fine [chip] (10 * Z.of_nat n) t.
Proof.
  induction n as [| n IH]; intros w u w' t E.
  - injection E as <- <- <-. repeat split; [constructor | reflexivity | constructor].
  - cbn [await_pwm0] in E. hal_unfold E. next_stat E. destruct ex.
    + injection E as <- <- <-.
      split; [repeat constructor |]. split; [cbn [slept]; lia |].
      repeat constructor.
    + destruct (await_pwm0 n chip (sys_sleep 10 w0)) as [[u' w1] t1] eqn:A.
      injection E as <- <- <-.
      destruct (IH _ _ _ _ A) as (A1 & S1 & E1).
      split; [constructor; [now left |]; constructor; [exact I | exact A1] |].
      split; [cbn [slept]; lia |].
      constructor; [exact I |]. constructor; [exact I | exact E1].
Qed.

Lemma attrs_fine (chip : Z) (w : W) (ok : bool) (w' : W) (t : list call) :
  attrs_exist chip w = (ok, w', t) ->
  fine [chip] 0 t
  /\ (ok = true ->
      t = [CStat (AttrFile chip 0 Enable) true;
           CStat (AttrFile chip 0 Period) true;
           CStat (AttrFile chip 0 DutyCycle) true]).
Proof.
  intros E. unfold attrs_exist in E. hal_unfold E. next_stat E.
  destruct ex; cbn [negb] in E.
  - next_stat E. destruct ex; cbn [negb] in E.
    + next_stat E. injection E as <- <- <-.
      split; [| now intros ->].
      split; [repeat constructor; now left |].
      split; [cbn; lia | repeat constructor].
    + injection E as <- <- <-. split; [| discriminate].
      split; [repeat constructor; now left |].
      split; [cbn; lia | repeat constructor].
  - injection E as <- <- <-. split; [| discriminate].
    split; [repeat constructor; now left |].
    split; [cbn; lia | repeat constructor].
Qed.

(** The calls for the chip at the head of the list, up to the decision
    to settle on it or to go on. *)
Lemma probe_head (chip : Z) (rest : list Z) (g : globals) (w : W) (rc : Z)
  (g' : globals) (w' : W) (t : list call) :
  probe_chips (chip :: rest) g w = (rc, g', w', t) ->
  exists th,
    fine [chip] 500 th
    /\ (exists x tl, th = CStat (PwmDir chip 0) x :: tl)
    /\ ((rc = 0
         /\ g' = {| g_pwm_dir := Some chip; g_period_ns := g_period_ns g;
                    g_duty_frac := g_duty_frac g |}
         /\ t = th
         /\ exists t0, th = t0 ++ accepting chip)
        \/ (exists wh tr,
              probe_chips rest g wh = (rc, g', w', tr) /\ t = th ++ tr)).
Proof.
  intros E. cbn [probe_chips] in E. unfold bind at 1 in E.
  unfold path_exists at 1 in E. unfold stat at 1 in E.
  destruct (sys_stat (PwmDir chip 0) w) as [ex0 w0].
  unfold bind at 1 in E.
  match type of E with
  | context [(if ex0 then ?a else ?b) w0] =>
      destruct ((if ex0 then a else b) w0) as [[u w2] t2] eqn:S2
  end.
  assert (F2 : fine [chip] 500 t2).
  { destruct ex0.
    - injection S2 as <- <- <-.
      repeat split; [constructor | cbn; lia | constructor].
    - hal_unfold S2. next_write S2.
      match type of S2 with
      | context [await_pwm0 50 chip ?ww] =>
          destruct (await_pwm0 50 chip ww) as [[u' w3] t3] eqn:A
      end.
      injection S2 as <- <- <-.
      destruct (await_fine _ _ _ _ _ _ A) as (A1 & A2 & A3).
      split; [constructor; [now left | exact A1] |].
      split; [cbn [slept]; lia |]. constructor; [exact I | exact A3]. }
  unfold bind at 1 in E.
  unfold path_exists at 1 in E. unfold stat at 1 in E.
  destruct (sys_stat (PwmDir chip 0) w2) as [ex w4].
  assert (F13 : forall x tl,
             fine [chip] 0 tl ->
             fine [chip] 500
               ([CStat (PwmDir chip 0) ex0] ++ t2
                ++ [CStat (PwmDir chip 0) x] ++ tl)).
  { intros x tl Ft.
    apply (fine_app _ 0 500);
      [repeat split; try (repeat constructor; now left); cbn; lia |].
    apply (fine_app _ 500 0); [exact F2 |].
    apply (fine_app _ 0 0); [| exact Ft].
    repeat split; try (repeat constructor; now left); cbn; lia. }
  destruct ex; cbn [negb] in E.
  - unfold bind at 1 in E.
    destruct (attrs_exist chip w4) as [[ok w5] t5] eqn:S4.
    destruct (attrs_fine _ _ _ _ _ S4) as [F5 OK].
    exists ([CStat (PwmDir chip 0) ex0] ++ t2
            ++ [CStat (PwmDir chip 0) true] ++ t5).
    split; [now apply F13 |]. split; [now eexists _, _ |].
    destruct ok.
    + unfold ret in E. injection E as <- <- <- <-. left.
      split; [reflexivity |]. split; [reflexivity |].
      split; [now rewrite app_nil_r |].
      exists ([CStat (PwmDir chip 0) ex0] ++ t2).
      rewrite (OK eq_refl), <- app_assoc. reflexivity.
    + right.
      destruct (probe_chips rest g w5) as [[[r gr] wr] tr] eqn:R.
      injection E as <- <- <- <-. exists w5, tr.
      split; [exact R |]. now rewrite <- !app_assoc.
  - exists ([CStat (PwmDir chip 0) ex0] ++ t2
            ++ [CStat (PwmDir chip 0) false] ++ []).
    split; [apply F13; repeat split; try constructor; cbn; lia |].
    split; [now eexists _, _ |]. right.
    destruct (probe_chips rest g w4) as [[[r gr] wr] tr] eqn:R.
    injection E as <- <- <- <-. exists w4, tr.
    split; [exact R |]. now rewrite app_nil_r, <- !app_assoc.
Qed.

Lemma probe_order (chips : list Z) :
  forall g w rc g' w' t,
    probe_chips chips g w = (rc, g', w', t) ->
    slept t <= 500 * Z.of_nat (length chips)
    /\ Forall exports_zero t
    /\ ((rc = 0
         /\ exists pre c post t0,
              chips = pre ++ c :: post
              /\ g' = {| g_pwm_dir := Some c; g_period_ns := g_period_ns g;
                         g_duty_frac := g_duty_frac g |}
              /\ t = t0 ++ accepting c
              /\ Forall (about (pre ++ [c])) t)
        \/ (rc = -1 /\ g' = g /\ Forall (about chips) t
            /\ forall c, In c chips ->
                 exists x, In (CStat (PwmDir c 0) x) t)).
Proof.
  induction chips as [| chip rest IH]; intros g w rc g' w' t E.
  - injection E as <- <- <- <-.
    split; [cbn; lia |]. split; [constructor |].
    right. repeat split; [constructor | intros c []].
  - destruct (probe_head _ _ _ _ _ _ _ _ E)
      as (th & (A & S & X) & (x & tl & Hd) & K).
    destruct K as [(-> & -> & -> & t0 & T0) | (wh & tr & R & ->)].
    + split; [cbn [length]; lia |]. split; [exact X |].
      left. split; [reflexivity |].
      exists [], chip, rest, t0. repeat split; auto.
    + destruct (IH _ _ _ _ _ _ R) as (S1 & X1 & O).
      split; [rewrite slept_app; cbn [length]; lia |].
      split; [now apply Forall_app |].
      destruct O as [(-> & pre & c & post & t0 & -> & -> & -> & A1)
                    | (-> & -> & A1 & Seen)].
      * left. split; [reflexivity |].
        exists (chip :: pre), c, post, (th ++ t0).
        split; [reflexivity |]. split; [reflexivity |].
        split; [now rewrite app_assoc |].
        apply Forall_app. split.
        -- apply (about_more [chip]); [| exact A].
           intros z [<- | []]. now left.
        -- apply (about_more (pre ++ [c])); [| exact A1].
           intros z Hz. now right.
      * right. split; [reflexivity |]. split; [reflexivity |]. split.
        -- apply Forall_app. split.
           ++ apply (about_more [chip]); [| exact A].
              intros z [<- | []]. now left.
           ++ apply (about_more rest); [| exact A1].
              intros z Hz. now right.
        -- intros c [<- | Hc].
           ++ exists x. rewrite Hd. now left.
           ++ destruct (Seen c Hc) as [y Hy]. exists y.
              apply in_or_app. now right.
Qed.

(** X17.  The probe of PWM0.c over the chips [glob] found, in that
    order.  For every chip it checks the channel directory, and if that
    is missing asks the chip to export channel 0 and waits for at most
    fifty rounds of 10 ms; it writes nothing else.  It settles on the
    first chip for which the directory is there at the check after that
    and the three attribute files exist, right after these four checks,
    without having touched any chip further down the list; the cached
    period and ratio are left as they were.  It returns -1, leaving the
    module state unchanged, only after it has examined every chip. *)
Theorem probe_picks_first (chips : list Z) (g : globals) (w : W) :
  let r := probe_chips chips g w in
  slept (calls r) <= 500 * Z.of_nat (length chips)
  /\ Forall exports_zero (calls r)
  /\ ((fst (result r) = 0
       /\ exists pre c post t0,
            chips = pre ++ c :: post
            /\ snd (result r)
               = {| g_pwm_dir := Some c; g_period_ns := g_period_ns g;
                    g_duty_frac := g_duty_frac g |}
            /\ calls r = t0 ++ accepting c
            /\ Forall (about (pre ++ [c])) (calls r))
      \/ (fst (result r) = -1 /\ snd (result r) = g
          /\ Forall (about chips) (calls r)
          /\ forall c, In c chips ->
               exists x, In (CStat (PwmDir c 0) x) (calls r))).
Proof.
  intros r. destruct (probe_chips chips g w) as [[[rc g'] w'] t] eqn:E.
  subst r. cbn [result calls fst snd].
  exact (probe_order _ _ _ _ _ _ _ E).
Qed.

End Pwm0ProbeOrder.

Section Pwm0ProbeRuns.
Import Sys PWM0 Pwm0Probe.

(** With three chips of which only the third is usable, the probe
    settles on the third. *)
Lemma probe_picks_first_witness :
  fst (result (probe_chips [0; 1; 2] startup three_chips)) = 0
  /\ g_pwm_dir (snd (result (probe_chips [0; 1; 2] startup three_chips)))
     = Some 2
  /\ slept (calls (probe_chips [0; 1; 2] startup three_chips))
     <= 500 * Z.of_nat (length [0; 1; 2])
  /\ Forall exports_zero (calls (probe_chips [0; 1; 2] startup three_chips)).
Proof.
  split; [reflexivity |]. split; [reflexivity |].
  pose proof (probe_picks_first [0; 1; 2] startup three_chips) as H.
  cbn zeta in H. destruct H as (S & X & _).
  split; [exact S | exact X].
Defined.

End Pwm0ProbeRuns.

(** ** The joystick *)

Section JoystickFacts.
Import Joystick.

Lemma land_low_bits (b : Z) (n : Z) : 0 <= n -> Z.land b (2 ^ n - 1) = b mod 2 ^ n.
Proof.
  intros H. rewrite Z.sub_1_r, <- Z.ones_equiv. now apply Z.land_ones.
Qed.

Lemma read_channel_value (ch b0 b1 b2 : Z) :
  is_byte b1 -> is_byte b2 ->
  read_channel ch (Some (b0, b1, b2)) = (b1 mod 16) * 256 + b2.
Proof.
  intros H1 H2. unfold read_channel.
  change 0x0F with (2 ^ 4 - 1). rewrite land_low_bits by lia.
  rewrite Z.shiftl_mul_pow2 by lia. change (2 ^ 4) with 16.
  change (2 ^ 8) with 256.
  assert (M : 0 <= b1 mod 16 < 16) by (apply Z.mod_pos_bound; lia).
  assert (D : Z.land (b1 mod 16 * 256) b2 = 0).
  { apply Z.bits_inj'. intros n Hn. rewrite Z.land_spec, Z.bits_0.
    destruct (Z.ltb_spec n 8).
    - replace 256 with (2 ^ 8) by reflexivity.
      rewrite Z.mul_pow2_bits_low by lia. reflexivity.
    - assert (T : Z.testbit b2 n = false).
      { destruct (Z.eq_dec b2 0) as [-> | N]; [apply Z.bits_0 |].
        apply Z.bits_above_log2; [apply H2 |].
        apply Z.log2_lt_pow2; [unfold is_byte in H2; lia |].
        apply Z.lt_le_trans with (2 ^ 8); [unfold is_byte in H2; cbn; lia |].
        apply Z.pow_le_mono_r; lia. }
      rewrite T. apply andb_false_r. }
  rewrite <- Z.lxor_lor by exact D.
  rewrite <- Z.add_nocarry_lxor by exact D. reflexivity.
Qed.

Lemma read_channel_range (ch b0 b1 b2 : Z) :
  bytes (Some (b0, b1, b2)) ->
  0 <= read_channel ch (Some (b0, b1, b2)) <= ADC_FS.
Proof.
  intros (_ & B1 & B2). rewrite (read_channel_value ch b0 b1 b2 B1 B2).
  assert (M : 0 <= b1 mod 16 < 16) by (apply Z.mod_pos_bound; lia).
  unfold is_byte, ADC_FS in *. lia.
Qed.

(** X18.  [read_channel] and the ADC protocol.  For a channel 0 to 7
    the command is the start and mode bits followed by the channel
    number: the first byte is 6 plus the top bit of the channel, the second
    carries the two low bits in its top two positions, the third is 0, so
    the channel can be read back from the command.  A transfer that
    delivers bytes yields the low four bits of the second byte followed by
    the third byte, a value from 0 to 4095; so -1, the value for a failed
    transfer, is never a reading. *)
Theorem read_channel_twelve_bits (ch : Z) (resp : option (Z * Z * Z)) :
  bytes resp ->
  (0 <= ch <= 7 ->
   command ch = (6 + ch / 4, ch mod 4 * 64, 0)
   /\ ch = 4 * (fst (fst (command ch)) - 6) + snd (fst (command ch)) / 64)
  /\ match resp with
     | None => read_channel ch resp = -1
     | Some (b0, b1, b2) =>
         read_channel ch resp = b1 mod 16 * 256 + b2
         /\ 0 <= read_channel ch resp <= ADC_FS
     end.
Proof.
  intros B. split.
  - intros H.
    assert (C : ch = 0 \/ ch = 1 \/ ch = 2 \/ ch = 3 \/ ch = 4 \/ ch = 5
                \/ ch = 6 \/ ch = 7) by lia.
    repeat (destruct C as [-> | C]; [split; reflexivity |]).
    subst ch. split; reflexivity.
  - destruct resp as [[[b0 b1] b2] |]; [| reflexivity].
    split; [| now apply read_channel_range].
    destruct B as (_ & B1 & B2).
    exact (read_channel_value ch b0 b1 b2 B1 B2).
Qed.

Lemma in_deadzone_spec (v : Z) :
  0 <= v <= ADC_FS ->
  in_deadzone v = true <-> Z.abs (v - ADC_MID) < DZ_TICKS.
Proof.
  intros H. unfold in_deadzone.
  destruct (Z.ltb_spec v 0); [lia |].
  destruct (Z.ltb_spec ADC_FS v); [lia |]. cbn [orb].
  rewrite wrap32_id
    by (unfold in_int, INT_MIN, INT_MAX, ADC_FS, ADC_MID in *; lia).
  rewrite andb_true_iff, !Z.ltb_lt. lia.
Qed.

Lemma square_order (a b : Z) : b * b < a * a <-> Z.abs b < Z.abs a.
Proof.
  rewrite <- (Z.abs_square a), <- (Z.abs_square b).
  pose proof (Z.abs_nonneg a). pose proof (Z.abs_nonneg b).
  split; intros K; nia.
Qed.

Lemma direction_cases (x y : Z) (rx ry : option (Z * Z * Z)) :
  read_x rx = x -> read_y ry = y ->
  0 <= x <= ADC_FS -> 0 <= y <= ADC_FS ->
  let dx := x - ADC_MID in
  let dy := y - ADC_MID in
  (joystick_direction rx ry = JS_NONE
   <-> Z.abs dx < DZ_TICKS /\ Z.abs dy < DZ_TICKS)
  /\ (joystick_direction rx ry = JS_RIGHT
      <-> Z.abs dy < dx /\ DZ_TICKS <= dx)
  /\ (joystick_direction rx ry = JS_LEFT
      <-> Z.abs dy < - dx /\ DZ_TICKS <= - dx)
  /\ (joystick_direction rx ry = JS_UP
      <-> Z.abs dx <= dy /\ DZ_TICKS <= dy)
  /\ (joystick_direction rx ry = JS_DOWN
      <-> Z.abs dx <= - dy /\ DZ_TICKS <= - dy)
  /\ (joystick_active rx ry = 0 <-> joystick_direction rx ry = JS_NONE).
Proof.
  intros Ex Ey Hx Hy dx dy.
  pose proof (in_deadzone_spec x Hx) as Zx.
  pose proof (in_deadzone_spec y Hy) as Zy.
  fold dx in Zx. fold dy in Zy.
  unfold joystick_direction, joystick_active. rewrite Ex, Ey.
  destruct (Z.ltb_spec x 0); [lia |].
  destruct (Z.ltb_spec y 0); [lia |]. cbn [orb].
  assert (R : forall z, - 2 ^ 31 <= z <= 2 ^ 31 - 1 -> wrap32 z = z)
    by (intros z Hz; apply wrap32_id; exact Hz).
  assert (Bx : -2048 <= dx <= 2047)
    by (unfold dx, ADC_FS, ADC_MID in *; lia).
  assert (By : -2048 <= dy <= 2047)
    by (unfold dy, ADC_FS, ADC_MID in *; lia).
  fold dx. fold dy.
  rewrite (R dx), (R dy) by lia.
  rewrite (R (dx * dx)), (R (dy * dy)) by nia.
  pose proof (square_order dx dy) as SQ.
  unfold DZ_TICKS, ADC_FS, DEADZONE_PCT in *.
  change (4095 * 8 / 100 / 2) with 163 in *.
  destruct (in_deadzone x) eqn:Dx, (in_deadzone y) eqn:Dy; cbn [andb negb];
    destruct (Z.ltb_spec (dy * dy) (dx * dx)) as [L | L];
    destruct (Z.ltb_spec 0 dx); destruct (Z.ltb_spec 0 dy);
    repeat split; intros; try discriminate; try reflexivity; try lia.
Qed.

(** X19.  [joystick_direction] and [joystick_active] on readings that
    succeeded ([dx] and [dy] are the readings minus the mid-scale value
    2048, the dead zone is 163 ticks either side).  The direction is
    [JS_NONE] exactly when both deflections are inside the dead zone, and
    exactly then [joystick_active] is 0.  Otherwise the axis with the
    strictly larger deflection decides, a tie going to the vertical axis:
    [JS_RIGHT] and [JS_LEFT] mean that the horizontal deflection exceeds
    the vertical one and is itself at least 163 ticks, [JS_UP] and
    [JS_DOWN] that the vertical one is at least the horizontal one and at
    least 163 ticks; the sign gives the side.  When either transfer fails
    the direction is [JS_NONE] and [joystick_active] is 0. *)
Theorem joystick_direction_meaning (rx ry : option (Z * Z * Z)) :
  bytes rx -> bytes ry ->
  let dx := deflection (read_x rx) in
  let dy := deflection (read_y ry) in
  (joystick_active rx ry = 0 <-> joystick_direction rx ry = JS_NONE)
  /\ (rx = None \/ ry = None -> joystick_direction rx ry = JS_NONE)
  /\ (rx <> None -> ry <> None ->
      (joystick_direction rx ry = JS_NONE
       <-> Z.abs dx < DZ_TICKS /\ Z.abs dy < DZ_TICKS)
      /\ (joystick_direction rx ry = JS_RIGHT
          <-> Z.abs dy < dx /\ DZ_TICKS <= dx)
      /\ (joystick_direction rx ry = JS_LEFT
          <-> Z.abs dy < - dx /\ DZ_TICKS <= - dx)
      /\ (joystick_direction rx ry = JS_UP
          <-> Z.abs dx <= dy /\ DZ_TICKS <= dy)
      /\ (joystick_direction rx ry = JS_DOWN
          <-> Z.abs dx <= - dy /\ DZ_TICKS <= - dy)).
Proof.
  intros Bx By dx dy.
  assert (Fail : rx = None \/ ry = None ->
                 joystick_direction rx ry = JS_NONE
                 /\ joystick_active rx ry = 0).
  { intros [-> | ->]; unfold joystick_direction, joystick_active.
    - now cbn.
    - cbn [read_y read_channel]. now rewrite orb_true_r. }
  assert (Ok : rx <> None -> ry <> None ->
               0 <= read_x rx <= ADC_FS /\ 0 <= read_y ry <= ADC_FS).
  { intros Nx Ny. destruct rx as [[[a0 a1] a2] |]; [| congruence].
    destruct ry as [[[c0 c1] c2] |]; [| congruence].
    split; now apply read_channel_range. }
  split; [| split].
  - destruct rx as [r |]; [| destruct (Fail (or_introl eq_refl)) as [-> ->];
                              tauto].
    destruct ry as [s |]; [| destruct (Fail (or_intror eq_refl)) as [-> ->];
                              tauto].
    destruct Ok as [Hx Hy]; try discriminate.
    exact (proj2 (proj2 (proj2 (proj2 (proj2
             (direction_cases _ _ _ _ eq_refl eq_refl Hx Hy)))))).
  - intros H. now apply Fail.
  - intros Nx Ny. destruct (Ok Nx Ny) as [Hx Hy].
    destruct (direction_cases _ _ _ _ eq_refl eq_refl Hx Hy)
      as (C0 & C1 & C2 & C3 & C4 & _).
    subst dx dy. unfold deflection.
    destruct (Z.ltb_spec (read_x rx) 0); [lia |].
    destruct (Z.ltb_spec (read_y ry) 0); [lia |].
    auto.
Qed.

End JoystickFacts.

Section JoystickRuns.
Import Joystick.

(** Channel 5 is commanded as 7, 64, 0; the bytes 0, 0xFA, 0x55 read
    as 0xA55. *)
Lemma read_channel_twelve_bits_witness :
  bytes (Some (0, 0xFA, 0x55))
  /\ command 5 = (6 + 5 / 4, 5 mod 4 * 64, 0)
  /\ read_channel 5 (Some (0, 0xFA, 0x55)) = 0xFA mod 16 * 256 + 0x55
  /\ read_channel 5 (Some (0, 0xFA, 0x55)) = 0xA55.
Proof.
  assert (B : bytes (Some (0, 0xFA, 0x55)))
    by (unfold bytes, is_byte; lia).
  split; [exact B |].
  destruct (read_channel_twelve_bits 5 (Some (0, 0xFA, 0x55)) B)
    as [C [V _]].
  split; [exact (proj1 (C ltac:(lia))) |].
  split; [exact V | reflexivity].
Defined.

(** The stick fully to the right and centred vertically. *)
Lemma joystick_direction_meaning_witness :
  (bytes (Some (0, 0x0F, 0xFF)) /\ bytes (Some (0, 0x08, 0x00)))
  /\ joystick_direction (Some (0, 0x0F, 0xFF)) (Some (0, 0x08, 0x00))
     = JS_RIGHT
  /\ (joystick_active (Some (0, 0x0F, 0xFF)) (Some (0, 0x08, 0x00)) = 0
      <-> joystick_direction (Some (0, 0x0F, 0xFF)) (Some (0, 0x08, 0x00))
          = JS_NONE).
Proof.
  assert (Bx : bytes (Some (0, 0x0F, 0xFF))) by (unfold bytes, is_byte; lia).
  assert (By : bytes (Some (0, 0x08, 0x00))) by (unfold bytes, is_byte; lia).
  split; [split; [exact Bx | exact By] |].
  split; [reflexivity |].
  exact (proj1 (joystick_direction_meaning _ _ Bx By)).
Defined.

End JoystickRuns.

(** ** The best time *)

Section BestTime.
Import ReactionTimer.

Lemma best_from (rounds : list Z) :
  forall best,
    0 < best -> Forall (fun e => 0 < e) rounds ->
    let b := fold_left record_round rounds best in
    0 < b /\ b <= best /\ Forall (fun e => b <= e) rounds
    /\ (b = best \/ In b rounds).
Proof.
  induction rounds as [| e rounds IH]; intros best B F b.
  - subst b. cbn. repeat split; auto; lia.
  - inversion F as [| ? ? He F']. subst. subst b. cbn [fold_left].
    assert (R : record_round best e = Z.min best e).
    { unfold record_round. destruct (Z.eqb_spec best 0); [lia |].
      cbn [orb]. destruct (Z.ltb_spec e best); lia. }
    rewrite R.
    destruct (IH (Z.min best e) ltac:(lia) F') as (P & L & A & I).
    split; [exact P |]. split; [lia |]. split.
    + constructor; [lia | exact A].
    + destruct I as [I | I]; [| right; now right].
      rewrite I. destruct (Z.min_spec best e) as [[_ ->] | [_ ->]];
        [now left | right; now left].
Qed.

(** X20.  The best time the game reports.  As long as every correct
    round takes at least 1 ms, [best_ms] after any non-empty series of
    correct rounds is the smallest of their times.  The value 0 doubles as
    "no best time yet": after a round timed at 0 ms the next correct round
    replaces the best time whatever it took. *)
Theorem best_time_is_minimum (rounds : list Z) :
  Forall (fun e => 0 < e) rounds ->
  rounds <> [] ->
  In (best_after rounds) rounds
  /\ Forall (fun e => best_after rounds <= e) rounds
  /\ forall e, best_after (rounds ++ [0; e]) = e.
Proof.
  intros F N. destruct rounds as [| e0 rounds]; [congruence |].
  inversion F as [| ? ? H0 F']. subst.
  unfold best_after. cbn [fold_left].
  change (record_round 0 e0) with e0.
  destruct (best_from rounds e0 H0 F') as (P & L & A & I).
  cbn zeta in *.
  split; [| split].
  - destruct I as [-> | I]; [now left | now right].
  - constructor; [exact L | exact A].
  - intros e. change (e0 :: rounds) with ([e0] ++ rounds).
    rewrite <- app_assoc, fold_left_app, fold_left_app. cbn [fold_left].
    set (b := fold_left record_round rounds (record_round 0 e0)).
    assert (Z0 : record_round b 0 = 0).
    { unfold record_round. destruct (Z.eqb_spec b 0); [reflexivity |].
      cbn [orb]. destruct (Z.ltb_spec 0 b); [reflexivity |].
      subst b. change (record_round 0 e0) with e0 in *. lia. }
    now rewrite Z0.
Qed.

(** Three correct rounds of 412, 385 and 440 ms. *)
Lemma best_time_is_minimum_witness :
  best_after [412; 385; 440] = 385
  /\ In (best_after [412; 385; 440]) [412; 385; 440]
  /\ best_after ([412; 385; 440] ++ [0; 900]) = 900.
Proof.
  assert (F : Forall (fun e => 0 < e) [412; 385; 440])
    by (repeat constructor).
  assert (N : [412; 385; 440] <> []) by discriminate.
  destruct (best_time_is_minimum [412; 385; 440] F N) as (I & _ & Z0).
  split; [reflexivity |]. split; [exact I | exact (Z0 900)].
Defined.

End BestTime.
